(** * Copy-trading event pipeline: shallow embedding and verified properties

    The development embeds the in-process pipeline of the bot
    (dedup cache, activity distributor, monitor, aggregation buffer,
    executor dequeue loop and paper trader) as pure state-passing functions
    and proves the properties claimed of it.

    Conventions of the embedding:
    - a JavaScript [Map] is an insertion-ordered association list with
      string keys ([JsMap]);
    - wall-clock readings ([Date.now()]) are explicit [Z] arguments
      (epoch milliseconds);
    - amounts (money, prices, token quantities) are read in two ways. In
      [Paper] and [Executor] they are rationals ([Q]), for the statements
      that rest on comparisons and on which fields are read and written.
      In [Binary64] they are IEEE-754 doubles, as JavaScript numbers are,
      for the statements that depend on what an addition, a subtraction,
      a product or a quotient returns;
    - a field that may be missing on a JavaScript object is an [option];
    - module-level mutable variables become fields of a state record that
      every operation takes and returns;
    - calls that are awaited ([fetchData], [getMyBalance], [postOrder])
      are collaborators outside the pipeline: a call of [postOrder] is
      recorded in the worker's order log, and [ExecutorAsync] takes the
      way the calls end (they return, or they throw) from outside and
      lets other events happen while they are awaited. *)

From Stdlib Require Import List String Ascii ZArith QArith Qround Bool Lia Permutation Floats.
Import ListNotations.

Local Open Scope Z_scope.

(* ===================================================================== *)
(** * Part I — the embedding                                             *)
(* ===================================================================== *)

(** ** JavaScript [Map<string, V>] *)

Module JsMap.
Section WithValue.
Context {V : Type}.

Definition t : Type := list (string * V).

Definition empty : t := [].

Fixpoint get (k : string) (m : t) : option V :=
  match m with
  | [] => None
  | (k', v) :: rest => if String.eqb k k' then Some v else get k rest
  end.

Definition has (k : string) (m : t) : bool :=
  match get k m with Some _ => true | None => false end.

(** [set] keeps the position of an existing key and appends a new one. *)
Fixpoint set (k : string) (v : V) (m : t) : t :=
  match m with
  | [] => [(k, v)]
  | (k', v') :: rest =>
      if String.eqb k k' then (k', v) :: rest else (k', v') :: set k v rest
  end.

Definition delete (k : string) (m : t) : t :=
  filter (fun e => negb (String.eqb k (fst e))) m.

Definition size (m : t) : nat := List.length m.

Definition keys (m : t) : list string := map fst m.

Definition values (m : t) : list V := map snd m.

(** [m.keys().next().value] *)
Definition firstKey (m : t) : option string :=
  match m with
  | [] => None
  | (k, _) :: _ => Some k
  end.

(** The representation invariant of a [Map]: one entry per key. *)
Definition wf (m : t) : Prop := NoDup (keys m).
End WithValue.
Arguments t : clear implicits.
End JsMap.

(** ** JavaScript coercions used by the pipeline *)

(** Truthiness of a string: every string but the empty one. *)
Definition truthy (s : string) : bool := negb (String.eqb s "").

(** [x || 0] on an optional number. *)
Definition orZero (x : option Q) : Q :=
  match x with Some q => q | None => 0%Q end.

(** [s || d] on an optional string: [undefined] and [""] both give [d]. *)
Definition orString (s : option string) (d : string) : string :=
  match s with
  | Some x => if truthy x then x else d
  | None => d
  end.

(** Template-literal rendering of an optional string. *)
Definition showOpt (s : option string) : string :=
  match s with Some x => x | None => "undefined" end.

(** [side === 'BUY'] *)
Definition isBuy (side : option string) : bool :=
  match side with Some s => String.eqb s "BUY" | None => false end.

Definition Qltb (x y : Q) : bool := negb (Qle_bool y x).

(** [String.prototype.toLowerCase] on the ASCII range (transaction hashes
    are hexadecimal). *)
Definition lowerAscii (c : ascii) : ascii :=
  let n := nat_of_ascii c in
  if andb (Nat.leb 65 n) (Nat.leb n 90) then ascii_of_nat (n + 32) else c.

Fixpoint toLowerCase (s : string) : string :=
  match s with
  | EmptyString => EmptyString
  | String c rest => String (lowerAscii c) (toLowerCase rest)
  end.

(** [Array.prototype.join(':')] *)
Fixpoint join (sep : string) (parts : list string) : string :=
  match parts with
  | [] => ""
  | [p] => p
  | p :: rest => String.append p (String.append sep (join sep rest))
  end.

(** ** Activities *)

(** [activity.timestamp] as delivered by the feed: a number (an epoch
    count, taken as an integer), a string, or anything else. *)
Inductive JsTimestamp : Type :=
| TsNumber (n : Z)
| TsString (s : string)
| TsOther.

(** An element of the array returned by the activity feed. *)
Record ApiActivity : Type := {
  api_transactionHash : option string;
  api_conditionId : string;
  api_asset : string;
  api_side : option string;
  api_price : option Q;
  api_size : option Q;
  api_usdcSize : option Q;
  api_timestamp : JsTimestamp;
  api_slug : option string;
  api_eventSlug : option string
}.

(** [QueueActivity]: the activity with its timestamp normalised to
    milliseconds, the leader address and the detection time. *)
Record QueueActivity : Type := {
  transactionHash : option string;
  userAddress : string;
  conditionId : string;
  asset : string;
  side : option string;
  price : option Q;
  size : option Q;
  usdcSize : option Q;
  timestamp : Z;
  slug : option string;
  eventSlug : option string;
  _detectedAt : option Z
}.

(** The same feed element with another [transactionHash]. *)
Definition withTransactionHash (h : option string) (a : ApiActivity) : ApiActivity :=
  {| api_transactionHash := h;
     api_conditionId := api_conditionId a;
     api_asset := api_asset a;
     api_side := api_side a;
     api_price := api_price a;
     api_size := api_size a;
     api_usdcSize := api_usdcSize a;
     api_timestamp := api_timestamp a;
     api_slug := api_slug a;
     api_eventSlug := api_eventSlug a |}.

(** ** services/activityQueue.ts — the dedup cache and the dedup key *)

Module Dedup.

Record InMemoryDedupCache : Type := {
  cache : JsMap.t Z;
  ttlMs : Z;
  maxEntries : Z
}.

Definition DEFAULT_MAX_ENTRIES : Z := 5000.

(** [constructor(ttlMs, maxEntries = 5000)] *)
Definition new (ttl maxE : Z) : InMemoryDedupCache :=
  {| cache := JsMap.empty; ttlMs := Z.max ttl 1; maxEntries := Z.max maxE 1 |}.

Definition withCache (c : InMemoryDedupCache) (m : JsMap.t Z) : InMemoryDedupCache :=
  {| cache := m; ttlMs := ttlMs c; maxEntries := maxEntries c |}.

(** An entry survives the sweep unless [now - timestamp > ttlMs]. *)
Definition expired (ttl now ts : Z) : bool := ttl <? now - ts.

Definition evictExpired (now : Z) (c : InMemoryDedupCache) : InMemoryDedupCache :=
  withCache c (filter (fun e => negb (expired (ttlMs c) now (snd e))) (cache c)).

(** The capacity step of [checkAndRemember]: the oldest key is read and
    deleted only when it is truthy. *)
Definition evictOldest (m : JsMap.t Z) : JsMap.t Z :=
  match JsMap.firstKey m with
  | Some oldestKey => if truthy oldestKey then JsMap.delete oldestKey m else m
  | None => m
  end.

Definition checkAndRemember (key : string) (now : Z) (c : InMemoryDedupCache)
  : bool * InMemoryDedupCache :=
  let c1 := evictExpired now c in
  if JsMap.has key (cache c1) then (false, c1)
  else
    let m := JsMap.set key now (cache c1) in
    let m' := if maxEntries c1 <? Z.of_nat (JsMap.size m) then evictOldest m else m in
    (true, withCache c1 m').

Definition size (now : Z) (c : InMemoryDedupCache) : nat * InMemoryDedupCache :=
  let c1 := evictExpired now c in
  (JsMap.size (cache c1), c1).

(** [activityDedupCache]: the exported instance, from the configured TTL. *)
Definition activityDedupCache (DEDUP_CACHE_TTL_SECONDS : Z) : InMemoryDedupCache :=
  new (Z.max DEDUP_CACHE_TTL_SECONDS 1 * 1000) 5000.

(** A run of [checkAndRemember] calls, results discarded. *)
Fixpoint runCalls (calls : list (string * Z)) (c : InMemoryDedupCache)
  : InMemoryDedupCache :=
  match calls with
  | [] => c
  | (k, now) :: rest => runCalls rest (snd (checkAndRemember k now c))
  end.

Section Key.
(** [Number.prototype.toString], a language builtin. *)
Variable numberToString : Q -> string.

Definition showNum (x : option Q) : string :=
  match x with Some q => numberToString q | None => "" end.

Definition showStr (x : option string) : string :=
  match x with Some s => s | None => "" end.

Definition compositeKey (activity : QueueActivity) : string :=
  join ":" [ userAddress activity;
             conditionId activity;
             numberToString (inject_Z (timestamp activity));
             showStr (side activity);
             showNum (usdcSize activity);
             showNum (price activity) ].

Definition buildActivityDedupKey (activity : QueueActivity) : string :=
  match transactionHash activity with
  | Some h => if truthy h then toLowerCase h else compositeKey activity
  | None => compositeKey activity
  end.
End Key.

End Dedup.

(** ** services/activityDistributor.ts *)

Module Distributor.

(** A worker endpoint ([MessagePort | Worker]) is identified by a handle;
    both alternatives carry [postMessage], so [send] always posts. *)
Definition WorkerEndpoint : Type := nat.

Record WorkerPort : Type := { id : Z; endpoint : WorkerEndpoint }.

Inductive Message : Type :=
| MsgActivity (payload : QueueActivity)
| MsgShutdown.

(** The module state, with the messages posted so far ([posted], oldest
    first, each with the endpoint it was posted to). *)
Record State : Type := {
  workerPorts : list WorkerPort;
  roundRobinIndex : nat;
  backlog : list QueueActivity;
  posted : list (WorkerEndpoint * Message)
}.

Definition initial : State :=
  {| workerPorts := []; roundRobinIndex := 0; backlog := []; posted := [] |}.

Definition send (e : WorkerEndpoint) (m : Message) (st : State) : State :=
  {| workerPorts := workerPorts st;
     roundRobinIndex := roundRobinIndex st;
     backlog := backlog st;
     posted := posted st ++ [(e, m)] |}.

Definition pickWorker (st : State) : option WorkerPort * State :=
  match workerPorts st with
  | [] => (None, st)
  | w0 :: _ =>
      let n := List.length (workerPorts st) in
      (Some (nth (roundRobinIndex st mod n) (workerPorts st) w0),
       {| workerPorts := workerPorts st;
          roundRobinIndex := (roundRobinIndex st + 1) mod n;
          backlog := backlog st;
          posted := posted st |})
  end.

Definition setBacklog (b : list QueueActivity) (st : State) : State :=
  {| workerPorts := workerPorts st;
     roundRobinIndex := roundRobinIndex st;
     backlog := b;
     posted := posted st |}.

(** The [while] loop of [flushBacklog]; it recurses on the backlog, which
    loses its head at every turn. *)
Fixpoint flushLoop (pending : list QueueActivity) (st : State) : State :=
  match pending with
  | [] => st
  | activity :: rest =>
      match workerPorts st with
      | [] => st
      | _ :: _ =>
          let st1 := setBacklog rest st in
          match pickWorker st1 with
          | (Some worker, st2) =>
              flushLoop rest (send (endpoint worker) (MsgActivity activity) st2)
          | (None, st2) => flushLoop rest st2
          end
      end
  end.

Definition flushBacklog (st : State) : State := flushLoop (backlog st) st.

Definition registerWorkerEndpoint (i : Z) (e : WorkerEndpoint) (st : State) : State :=
  flushBacklog
    {| workerPorts := workerPorts st ++ [{| id := i; endpoint := e |}];
       roundRobinIndex := roundRobinIndex st;
       backlog := backlog st;
       posted := posted st |}.

Fixpoint removeAt {A : Type} (n : nat) (l : list A) : list A :=
  match l, n with
  | [], _ => []
  | _ :: rest, O => rest
  | x :: rest, S n' => x :: removeAt n' rest
  end.

Fixpoint findIndex {A : Type} (p : A -> bool) (l : list A) : option nat :=
  match l with
  | [] => None
  | x :: rest =>
      if p x then Some O
      else match findIndex p rest with Some n => Some (S n) | None => None end
  end.

Definition unregisterWorkerEndpoint (i : Z) (st : State) : State :=
  match findIndex (fun w => Z.eqb (id w) i) (workerPorts st) with
  | Some idx =>
      {| workerPorts := removeAt idx (workerPorts st);
         roundRobinIndex := roundRobinIndex st;
         backlog := backlog st;
         posted := posted st |}
  | None => st
  end.

Definition publishActivityToWorkers (activity : QueueActivity) (st : State) : State :=
  match pickWorker st with
  | (None, st1) => setBacklog (backlog st1 ++ [activity]) st1
  | (Some worker, st1) => send (endpoint worker) (MsgActivity activity) st1
  end.

Definition broadcastShutdown (st : State) : State :=
  fold_left (fun s w => send (endpoint w) MsgShutdown s) (workerPorts st) st.

Definition resetDistributor (st : State) : State :=
  {| workerPorts := []; roundRobinIndex := 0; backlog := []; posted := posted st |}.

End Distributor.

(** ** services/tradeMonitor.ts — the per-activity body of [fetchTradeData] *)

Module Monitor.

Section FetchTradeData.
(** [Date.parse], a language builtin; [None] stands for [NaN]. *)
Variable dateParse : string -> option Z.
Variable numberToString : Q -> string.
(** [ENV.TOO_OLD_SECONDS] *)
Variable TOO_OLD_SECONDS : Z.

(** [activityMs], whose initial value [0] also marks an unknown timestamp. *)
Definition normalizeTimestamp (ts : JsTimestamp) : Z :=
  match ts with
  | TsNumber n => if 1000000000000 <? n then n else n * 1000
  | TsString s => match dateParse s with Some parsed => parsed | None => 0 end
  | TsOther => 0
  end.

Definition tooOldMs : Z := TOO_OLD_SECONDS * 1000.

(** The guard of the first [continue]. *)
Definition skipped (nowMs activityMs : Z) : bool :=
  (activityMs =? 0) || (tooOldMs <? nowMs - activityMs).

Definition toQueueActivity (activity : ApiActivity) (activityMs : Z)
           (address : string) (detectedAt : Z) : QueueActivity :=
  {| transactionHash := api_transactionHash activity;
     userAddress := address;
     conditionId := api_conditionId activity;
     asset := api_asset activity;
     side := api_side activity;
     price := api_price activity;
     size := api_size activity;
     usdcSize := api_usdcSize activity;
     timestamp := activityMs;
     slug := api_slug activity;
     eventSlug := api_eventSlug activity;
     _detectedAt := Some detectedAt |}.

(** The monitor's view of the main thread: the dedup cache, the
    distributor and the cycle's counter. *)
Record State : Type := {
  dedup : Dedup.InMemoryDedupCache;
  distributor : Distributor.State;
  enqueuedCount : nat
}.

(** The three clock readings taken while one activity is processed:
    [nowMs], [detectedAt] and the one inside [checkAndRemember]. *)
Record Clock : Type := { nowMs : Z; detectedAt : Z; cacheNow : Z }.

Inductive Outcome : Type :=
| DroppedTimestamp   (* unknown timestamp or older than the threshold *)
| DroppedDuplicate
| Published (q : QueueActivity).

Definition processActivity (address : string) (clk : Clock)
           (activity : ApiActivity) (st : State) : Outcome * State :=
  let activityMs := normalizeTimestamp (api_timestamp activity) in
  if skipped (nowMs clk) activityMs then (DroppedTimestamp, st)
  else
    let queueActivity := toQueueActivity activity activityMs address (detectedAt clk) in
    let dedupKey := Dedup.buildActivityDedupKey numberToString queueActivity in
    let (fresh, cache') := Dedup.checkAndRemember dedupKey (cacheNow clk) (dedup st) in
    if fresh then
      (Published queueActivity,
       {| dedup := cache';
          distributor := Distributor.publishActivityToWorkers queueActivity (distributor st);
          enqueuedCount := S (enqueuedCount st) |})
    else
      (DroppedDuplicate,
       {| dedup := cache';
          distributor := distributor st;
          enqueuedCount := enqueuedCount st |}).

(** The [for (const activity of activities)] loop for one address. *)
Fixpoint processActivities (address : string)
         (feed : list (Clock * ApiActivity)) (st : State) : State :=
  match feed with
  | [] => st
  | (clk, activity) :: rest =>
      processActivities address rest (snd (processActivity address clk activity st))
  end.
End FetchTradeData.

End Monitor.

(** ** workers/executorWorker.ts — paper trader *)

Module Paper.

Record Position : Type := {
  pos_conditionId : string;
  pos_asset : string;
  pos_size : Q;
  pos_invested : Q;
  pos_avgPrice : Q
}.

Record PaperTrader : Type := {
  balance : Q;
  positions : JsMap.t Position
}.

(** [constructor(initialUsd)] *)
Definition new (initialUsd : Q) : PaperTrader :=
  {| balance := initialUsd; positions := JsMap.empty |}.

Definition getBalance (pt : PaperTrader) : Q := balance pt.

(** The position object taken from the map is updated in place and put
    back under the same key; the embedding writes the updated record with
    [JsMap.set], which keeps the entry where it was. *)
Definition executeTrade (trade : QueueActivity) (pt : PaperTrader)
  : bool * PaperTrader :=
  let usdc := orZero (usdcSize trade) in
  let sz := orZero (size trade) in
  let pr := orZero (price trade) in
  let cid := conditionId trade in
  if isBuy (side trade) then
    if Qltb (balance pt) usdc then (false, pt)
    else
      let existing :=
        match JsMap.get cid (positions pt) with
        | Some e => e
        | None => {| pos_conditionId := cid; pos_asset := asset trade;
                     pos_size := 0; pos_invested := 0; pos_avgPrice := 0 |}
        end in
      let size' := (pos_size existing + sz)%Q in
      let invested' := (pos_invested existing + usdc)%Q in
      let avg' := if Qltb 0 size' then (invested' / size')%Q else pr in
      (true,
       {| balance := (balance pt - usdc)%Q;
          positions :=
            JsMap.set cid
              {| pos_conditionId := pos_conditionId existing;
                 pos_asset := pos_asset existing;
                 pos_size := size'; pos_invested := invested';
                 pos_avgPrice := avg' |}
              (positions pt) |})
  else
    match JsMap.get cid (positions pt) with
    | None => (false, pt)
    | Some existing =>
        if Qltb (pos_size existing) sz then (false, pt)
        else
          let size' := (pos_size existing - sz)%Q in
          let invested' := (pos_invested existing - usdc)%Q in
          (true,
           {| balance := (balance pt + usdc)%Q;
              positions :=
                if Qeq_bool size' 0 then JsMap.delete cid (positions pt)
                else
                  JsMap.set cid
                    {| pos_conditionId := pos_conditionId existing;
                       pos_asset := pos_asset existing;
                       pos_size := size'; pos_invested := invested';
                       pos_avgPrice := pos_avgPrice existing |}
                    (positions pt) |})
    end.

(** Sum of [invested] over a list of positions, in iteration order. *)
Definition sumInvested (ps : list Position) : Q :=
  fold_left (fun total p => (total + pos_invested p)%Q) ps 0%Q.

Definition getUserPortfolioValue (pt : PaperTrader) : Q :=
  sumInvested (JsMap.values (positions pt)).

End Paper.

(** ** workers/executorWorker.ts — aggregation buffer, flusher, dequeue loop *)

Module Executor.

Record AggregatedTrade : Type := {
  agg_userAddress : string;
  agg_conditionId : string;
  agg_asset : string;
  agg_side : string;
  agg_slug : option string;
  agg_eventSlug : option string;
  trades : list QueueActivity;
  totalUsdcSize : Q;
  averagePrice : Q;
  firstTradeTime : Z;
  lastTradeTime : Z
}.

Definition Buffer : Type := JsMap.t AggregatedTrade.

Definition TRADE_AGGREGATION_MIN_TOTAL_USD : Q := 1.
Definition AGGREGATION_CHECK_INTERVAL_MS : Z := 500.

Definition getAggregationKey (trade : QueueActivity) : string :=
  join ":" [ userAddress trade; conditionId trade; asset trade; showOpt (side trade) ].

(** [Σ (usdcSize || 0) * (price || 0)], the [reduce] of the update branch. *)
Definition totalValue (ts : list QueueActivity) : Q :=
  fold_left (fun sum t => (sum + orZero (usdcSize t) * orZero (price t))%Q) ts 0%Q.

(** The update branch changes the record object held by the map in place;
    the embedding writes the changed record back under its key. *)
Definition addToAggregationBuffer (trade : QueueActivity) (now : Z) (buffer : Buffer)
  : Buffer :=
  let key := getAggregationKey trade in
  match JsMap.get key buffer with
  | Some existing =>
      let trades' := (trades existing ++ [trade])%list in
      let total' := (totalUsdcSize existing + orZero (usdcSize trade))%Q in
      let avg' := if Qltb 0 total' then (totalValue trades' / total')%Q
                  else orZero (price trade) in
      JsMap.set key
        {| agg_userAddress := agg_userAddress existing;
           agg_conditionId := agg_conditionId existing;
           agg_asset := agg_asset existing;
           agg_side := agg_side existing;
           agg_slug := agg_slug existing;
           agg_eventSlug := agg_eventSlug existing;
           trades := trades';
           totalUsdcSize := total';
           averagePrice := avg';
           firstTradeTime := firstTradeTime existing;
           lastTradeTime := now |}
        buffer
  | None =>
      JsMap.set key
        {| agg_userAddress := userAddress trade;
           agg_conditionId := conditionId trade;
           agg_asset := asset trade;
           agg_side := orString (side trade) "BUY";
           agg_slug := slug trade;
           agg_eventSlug := eventSlug trade;
           trades := [trade];
           totalUsdcSize := orZero (usdcSize trade);
           averagePrice := orZero (price trade);
           firstTradeTime := now;
           lastTradeTime := now |}
        buffer
  end.

Section Worker.
(** [ENV] as read by the worker *)
Variable TRADE_AGGREGATION_ENABLED : bool.
Variable TRADE_AGGREGATION_WINDOW_SECONDS : Z.
Variable PAPER_TRADING_ENABLED : bool.
Variable PAPER_TRADING_BALANCE_USD : Q.

Definition windowMs : Z := TRADE_AGGREGATION_WINDOW_SECONDS * 1000.

Definition windowElapsed (now : Z) (agg : AggregatedTrade) : bool :=
  windowMs <=? now - firstTradeTime agg.

Definition meetsMinimum (agg : AggregatedTrade) : bool :=
  Qle_bool TRADE_AGGREGATION_MIN_TOTAL_USD (totalUsdcSize agg).

(** One turn of the [for ... of buffer.entries()] loop. *)
Definition readyStep (now : Z) (acc : list AggregatedTrade * Buffer)
           (entry : string * AggregatedTrade) : list AggregatedTrade * Buffer :=
  let (key, agg) := entry in
  if windowElapsed now agg then
    ((if meetsMinimum agg then fst acc ++ [agg] else fst acc)%list,
     JsMap.delete key (snd acc))
  else acc.

(** Returns [ready] and the buffer as the loop leaves it. *)
Definition getReadyAggregatedTrades (now : Z) (buffer : Buffer)
  : list AggregatedTrade * Buffer :=
  fold_left (readyStep now) buffer ([], buffer).

(** A call of the submission collaborator [postOrder]. The positions and
    balances fetched for it come from outside the pipeline and are not
    part of the record. *)
Record PostedOrder : Type := {
  order_sideWord : string;
  order_trade : QueueActivity;
  order_leader : string
}.

(** [{ ...agg.trades[0], usdcSize, price, side }] *)
Definition syntheticTrade (first : QueueActivity) (agg : AggregatedTrade)
  : QueueActivity :=
  {| transactionHash := transactionHash first;
     userAddress := userAddress first;
     conditionId := conditionId first;
     asset := asset first;
     side := Some (agg_side agg);
     price := Some (averagePrice agg);
     size := size first;
     usdcSize := Some (totalUsdcSize agg);
     timestamp := timestamp first;
     slug := slug first;
     eventSlug := eventSlug first;
     _detectedAt := _detectedAt first |}.

Definition aggregatedOrder (first : QueueActivity) (agg : AggregatedTrade)
  : PostedOrder :=
  {| order_sideWord := if String.eqb (agg_side agg) "BUY" then "buy" else "sell";
     order_trade := syntheticTrade first agg;
     order_leader := agg_userAddress agg |}.

(** The orders handed to [postOrder], oldest first, when every awaited
    call returns ([ExecutorAsync.doAggregatedTrading] has the calls that
    throw). A record without a first trade makes [firstTrade.timestamp]
    throw, which ends the batch. The positions and balances fetched for
    [postOrder] come from outside the pipeline and are not recorded. *)
Fixpoint doAggregatedTrading (aggregatedTrades : list AggregatedTrade)
  : list PostedOrder :=
  match aggregatedTrades with
  | [] => []
  | agg :: rest =>
      match trades agg with
      | [] => []
      | first :: _ => aggregatedOrder first agg :: doAggregatedTrading rest
      end
  end.

(** The worker's module state. *)
Record Worker : Type := {
  localQueue : list QueueActivity;
  tradeAggregationBuffer : Buffer;
  paperTrader : option Paper.PaperTrader;
  isRunning : bool;
  aggregationFlushInProgress : bool;
  orders : list PostedOrder
}.

Definition initial : Worker :=
  {| localQueue := [];
     tradeAggregationBuffer := JsMap.empty;
     paperTrader := if PAPER_TRADING_ENABLED
                    then Some (Paper.new PAPER_TRADING_BALANCE_USD) else None;
     isRunning := true;
     aggregationFlushInProgress := false;
     orders := [] |}.

Definition withQueue (q : list QueueActivity) (w : Worker) : Worker :=
  {| localQueue := q;
     tradeAggregationBuffer := tradeAggregationBuffer w;
     paperTrader := paperTrader w;
     isRunning := isRunning w;
     aggregationFlushInProgress := aggregationFlushInProgress w;
     orders := orders w |}.

Definition withBuffer (b : Buffer) (w : Worker) : Worker :=
  {| localQueue := localQueue w;
     tradeAggregationBuffer := b;
     paperTrader := paperTrader w;
     isRunning := isRunning w;
     aggregationFlushInProgress := aggregationFlushInProgress w;
     orders := orders w |}.

Definition withPaperTrader (pt : Paper.PaperTrader) (w : Worker) : Worker :=
  {| localQueue := localQueue w;
     tradeAggregationBuffer := tradeAggregationBuffer w;
     paperTrader := Some pt;
     isRunning := isRunning w;
     aggregationFlushInProgress := aggregationFlushInProgress w;
     orders := orders w |}.

Definition withOrders (os : list PostedOrder) (w : Worker) : Worker :=
  {| localQueue := localQueue w;
     tradeAggregationBuffer := tradeAggregationBuffer w;
     paperTrader := paperTrader w;
     isRunning := isRunning w;
     aggregationFlushInProgress := aggregationFlushInProgress w;
     orders := os |}.

Definition stopped (w : Worker) : Worker :=
  {| localQueue := localQueue w;
     tradeAggregationBuffer := tradeAggregationBuffer w;
     paperTrader := paperTrader w;
     isRunning := false;
     aggregationFlushInProgress := aggregationFlushInProgress w;
     orders := orders w |}.

Definition immediateOrder (trade : QueueActivity) : PostedOrder :=
  {| order_sideWord := if isBuy (side trade) then "buy" else "sell";
     order_trade := trade;
     order_leader := userAddress trade |}.

(** [doTrading]: the paper trader when it is enabled, [postOrder]
    otherwise, when every awaited call returns ([ExecutorAsync.tradeCall]
    has the calls that throw). *)
Fixpoint doTrading (batch : list QueueActivity) (w : Worker) : Worker :=
  match batch with
  | [] => w
  | trade :: rest =>
      match (if PAPER_TRADING_ENABLED then paperTrader w else None) with
      | Some pt =>
          let (executed, pt') := Paper.executeTrade trade pt in
          doTrading rest (withPaperTrader pt' w)
      | None =>
          doTrading rest (withOrders (orders w ++ [immediateOrder trade]) w)
      end
  end.

(** The routing test of the dequeue loop. *)
Definition aggregationCandidate (activity : QueueActivity) : bool :=
  TRADE_AGGREGATION_ENABLED
  && isBuy (side activity)
  && Qltb (orZero (usdcSize activity)) TRADE_AGGREGATION_MIN_TOTAL_USD.

(** What one turn of the [while (isRunning)] loop did. *)
Inductive Turn : Type :=
| Idle
| Buffered (activity : QueueActivity)
| Traded (activity : QueueActivity).

(** One turn of [dequeueLoop], entered with [isRunning] true. *)
Definition dequeueTurn (now : Z) (w : Worker) : Turn * Worker :=
  match localQueue w with
  | [] => (Idle, w)
  | activity :: rest =>
      let w1 := withQueue rest w in
      if aggregationCandidate activity then
        (Buffered activity,
         withBuffer (addToAggregationBuffer activity now (tradeAggregationBuffer w1)) w1)
      else (Traded activity, doTrading [activity] w1)
  end.

(** The flusher's interval callback run to its end, when every awaited
    call returns and no other event comes in between: the in-progress flag
    is back to false when it ends. [ExecutorAsync] has the callback event
    by event, with the flag set while the batch is handled. *)
Definition flusherTick (now : Z) (w : Worker) : Worker :=
  if negb (isRunning w) || aggregationFlushInProgress w then w
  else
    let (ready, buffer') := getReadyAggregatedTrades now (tradeAggregationBuffer w) in
    let w1 := withBuffer buffer' w in
    match ready with
    | [] => w1
    | _ :: _ => withOrders (orders w1 ++ doAggregatedTrading ready) w1
    end.

(** [parentPort.on('message', ...)] *)
Definition onMessage (m : Distributor.Message) (w : Worker) : Worker :=
  match m with
  | Distributor.MsgActivity payload => withQueue (localQueue w ++ [payload]) w
  | Distributor.MsgShutdown => stopped w
  end.

End Worker.

End Executor.

(** ** services/activityDistributor.ts — sequences of the exported calls *)

Module DistributorRun.

(** One call of an exported function of the distributor. *)
Inductive Op : Type :=
| OpPublish (activity : QueueActivity)
| OpRegister (i : Z) (e : Distributor.WorkerEndpoint)
| OpUnregister (i : Z)
| OpBroadcastShutdown.

Definition step (op : Op) (st : Distributor.State) : Distributor.State :=
  match op with
  | OpPublish activity => Distributor.publishActivityToWorkers activity st
  | OpRegister i e => Distributor.registerWorkerEndpoint i e st
  | OpUnregister i => Distributor.unregisterWorkerEndpoint i st
  | OpBroadcastShutdown => Distributor.broadcastShutdown st
  end.

Definition run (ops : list Op) (st : Distributor.State) : Distributor.State :=
  fold_left (fun s op => step op s) ops st.

Definition publishAll (activities : list QueueActivity) (st : Distributor.State)
  : Distributor.State :=
  fold_left (fun s a => Distributor.publishActivityToWorkers a s) activities st.

(** The payloads of the activity messages among [msgs], in order. *)
Definition activityPayloads (msgs : list (Distributor.WorkerEndpoint * Distributor.Message))
  : list QueueActivity :=
  flat_map (fun m => match snd m with
                     | Distributor.MsgActivity a => [a]
                     | Distributor.MsgShutdown => []
                     end) msgs.

(** The activities passed to [publishActivityToWorkers] by [ops], in order. *)
Definition publishedBy (ops : list Op) : list QueueActivity :=
  flat_map (fun op => match op with OpPublish a => [a] | _ => [] end) ops.

End DistributorRun.

(** ** services/activityQueue.ts — [AsyncActivityQueue]

    A pending [dequeue] is the promise it returned, named here by a
    number. The [settled] flag of its closure is membership in
    [settledWaiters]; the timeout and the abort listener it registered are
    its entries in [timers] and [abortListeners]; a call of the promise's
    [resolve] is an entry of [resolutions]. The firing of a timeout and of
    an abort signal are steps of their own. *)

Module AsyncQueue.
Section WithItem.
Context {T : Type}.

Record State : Type := {
  queue : list T;
  waiters : list nat;
  closed : bool;
  settledWaiters : list nat;
  timers : list nat;
  abortListeners : list nat;
  resolutions : list (nat * option T);
  nextWaiter : nat
}.

Definition empty : State :=
  {| queue := []; waiters := []; closed := false; settledWaiters := [];
     timers := []; abortListeners := []; resolutions := []; nextWaiter := 0 |}.

Definition mem (w : nat) (l : list nat) : bool := existsb (Nat.eqb w) l.

Definition without (w : nat) (l : list nat) : list nat :=
  filter (fun x => negb (Nat.eqb w x)) l.

Definition withWaiters (ws : list nat) (st : State) : State :=
  {| queue := queue st; waiters := ws; closed := closed st;
     settledWaiters := settledWaiters st; timers := timers st;
     abortListeners := abortListeners st; resolutions := resolutions st;
     nextWaiter := nextWaiter st |}.

Definition withItems (q : list T) (st : State) : State :=
  {| queue := q; waiters := waiters st; closed := closed st;
     settledWaiters := settledWaiters st; timers := timers st;
     abortListeners := abortListeners st; resolutions := resolutions st;
     nextWaiter := nextWaiter st |}.

(** [settle(value)] of waiter [w]: nothing when already settled; otherwise
    mark it, run [cleanup] and resolve the promise. *)
Definition settle (w : nat) (value : option T) (st : State) : State :=
  if mem w (settledWaiters st) then st
  else
    {| queue := queue st; waiters := waiters st; closed := closed st;
       settledWaiters := w :: settledWaiters st;
       timers := without w (timers st);
       abortListeners := without w (abortListeners st);
       resolutions := (resolutions st ++ [(w, value)])%list;
       nextWaiter := nextWaiter st |}.

Definition enqueue (item : T) (st : State) : State :=
  if closed st then st
  else
    match waiters st with
    | w :: rest => settle w (Some item) (withWaiters rest st)
    | [] => withItems (queue st ++ [item])%list st
    end.

Record DequeueOptions : Type := { timeoutMs : option Z; signal : bool }.

(** What the call of [dequeue] gives back at once: a value, or a promise
    still pending. *)
Inductive Dequeued : Type :=
| Ready (value : option T)
| Pending (waiter : nat).

(** [options?.timeoutMs ?? 1000] *)
Definition timeoutOf (options : option DequeueOptions) : Z :=
  match options with
  | Some o => match timeoutMs o with Some t => t | None => 1000 end
  | None => 1000
  end.

Definition dequeue (options : option DequeueOptions) (st : State) : Dequeued * State :=
  let timeout := timeoutOf options in
  let hasSignal := match options with Some o => signal o | None => false end in
  match queue st with
  | item :: rest => (Ready (Some item), withItems rest st)
  | [] =>
      if closed st then (Ready None, st)
      else
        let w := nextWaiter st in
        (Pending w,
         {| queue := queue st;
            waiters := (waiters st ++ [w])%list;
            closed := closed st;
            settledWaiters := settledWaiters st;
            timers := if 0 <? timeout then w :: timers st else timers st;
            abortListeners := if hasSignal then w :: abortListeners st
                              else abortListeners st;
            resolutions := resolutions st;
            nextWaiter := S w |})
  end.

(** The timer of waiter [w] fires. *)
Definition timeoutFires (w : nat) (st : State) : State :=
  if mem w (timers st) then settle w None st else st.

(** The abort signal given with waiter [w] fires. *)
Definition abortFires (w : nat) (st : State) : State :=
  if mem w (abortListeners st) then settle w None st else st.

Fixpoint closeLoop (ws : list nat) (st : State) : State :=
  match ws with
  | [] => st
  | w :: rest => closeLoop rest (settle w None (withWaiters rest st))
  end.

Definition close (st : State) : State :=
  closeLoop (waiters st)
    {| queue := queue st; waiters := waiters st; closed := true;
       settledWaiters := settledWaiters st; timers := timers st;
       abortListeners := abortListeners st; resolutions := resolutions st;
       nextWaiter := nextWaiter st |}.

Definition size (st : State) : nat := List.length (queue st).

Definition isClosed (st : State) : bool := closed st.

(** One step of the queue's life. *)
Inductive Op : Type :=
| OpEnqueue (item : T)
| OpDequeue (options : option DequeueOptions)
| OpTimeout (w : nat)
| OpAbort (w : nat)
| OpClose.

Definition step (op : Op) (st : State) : State :=
  match op with
  | OpEnqueue item => enqueue item st
  | OpDequeue options => snd (dequeue options st)
  | OpTimeout w => timeoutFires w st
  | OpAbort w => abortFires w st
  | OpClose => close st
  end.

Definition run (ops : list Op) (st : State) : State :=
  fold_left (fun s op => step op s) ops st.

Definition enqueueAll (items : list T) (st : State) : State :=
  fold_left (fun s x => enqueue x s) items st.

(** [n] calls of [dequeue] in a row, with what each gave back. *)
Fixpoint dequeueMany (n : nat) (options : option DequeueOptions) (st : State)
  : list Dequeued * State :=
  match n with
  | O => ([], st)
  | S n' =>
      let (d, st1) := dequeue options st in
      let (ds, st2) := dequeueMany n' options st1 in
      (d :: ds, st2)
  end.
End WithItem.
Arguments State : clear implicits.
Arguments Dequeued : clear implicits.
Arguments Op : clear implicits.
End AsyncQueue.

(** ** services/tradeMonitor.ts — one cycle of [fetchTradeData] *)

Module MonitorCycle.
Section Cycle.
Variable dateParse : string -> option Z.
Variable numberToString : Q -> string.
Variable TOO_OLD_SECONDS : Z.
(** An element of the positions feed, with [JSON.stringify] and the two
    fields the cache key is built from (as the template renders them). *)
Variable Position : Type.
Variable stringify : Position -> string.
Variable positionAsset : Position -> string.
Variable positionConditionId : Position -> string.

Record CacheEntry : Type := { data : Position; cachedAt : Z }.

Definition PositionCache : Type := JsMap.t CacheEntry.

(** The sweep at the top of [fetchTradeData]: entries a minute old go. *)
Definition expireCache (now : Z) (cache : PositionCache) : PositionCache :=
  filter (fun e => negb (60000 <=? now - cachedAt (snd e))) cache.

Definition positionKey (address : string) (position : Position) : string :=
  join "-" [ address; positionAsset position; positionConditionId position ].

(** The body of the loop over the fetched positions. *)
Definition cachePosition (address : string) (now : Z) (position : Position)
           (cache : PositionCache) : PositionCache :=
  let key := positionKey address position in
  let needsUpdate :=
    match JsMap.get key cache with
    | Some cached =>
        if now - cachedAt cached <? 60000
        then negb (String.eqb (stringify (data cached)) (stringify position))
        else true
    | None => true
    end in
  if needsUpdate then JsMap.set key {| data := position; cachedAt := now |} cache
  else cache.

(** What [fetchData] gave: it threw, it returned something that is not an
    array, or it returned an array. *)
Inductive Fetched (A : Type) : Type :=
| FetchThrew
| FetchedOther
| FetchedArray (items : list A).
Arguments FetchThrew {A}.
Arguments FetchedOther {A}.
Arguments FetchedArray {A} items.

(** The two fetches for one address, the elements of each array paired
    with the clock readings taken while they are processed. *)
Record AddressPoll : Type := {
  address : string;
  activities : Fetched (Monitor.Clock * ApiActivity);
  positions : Fetched (Z * Position)
}.

Record State : Type := {
  monitor : Monitor.State;
  positionCache : PositionCache
}.

(** The body of the loop over [USER_ADDRESSES], with its [try]/[catch]. *)
Definition pollAddress (p : AddressPoll) (st : State) : State :=
  match activities p with
  | FetchThrew => st
  | FetchedOther => st
  | FetchedArray [] => st
  | FetchedArray feed =>
      let m := Monitor.processActivities dateParse numberToString TOO_OLD_SECONDS
                 (address p) feed (monitor st) in
      match positions p with
      | FetchedArray ps =>
          {| monitor := m;
             positionCache :=
               fold_left (fun c e => cachePosition (address p) (fst e) (snd e) c)
                 ps (positionCache st) |}
      | _ => {| monitor := m; positionCache := positionCache st |}
      end
  end.

(** Returns [enqueuedCount] and the state the cycle leaves. *)
Definition fetchTradeData (now : Z) (polls : list AddressPoll) (st : State)
  : nat * State :=
  let st0 :=
    {| monitor := {| Monitor.dedup := Monitor.dedup (monitor st);
                     Monitor.distributor := Monitor.distributor (monitor st);
                     Monitor.enqueuedCount := 0 |};
       positionCache := expireCache now (positionCache st) |} in
  let st1 := fold_left (fun s p => pollAddress p s) polls st0 in
  (Monitor.enqueuedCount (monitor st1), st1).
End Cycle.
Arguments FetchThrew {A}.
Arguments FetchedOther {A}.
Arguments FetchedArray {A} items.
End MonitorCycle.

(** ** workers/executorWorker.ts — runs of the worker *)

Module ExecutorRun.
Section Run.
Variable TRADE_AGGREGATION_ENABLED : bool.
Variable PAPER_TRADING_ENABLED : bool.

(** The [while (isRunning)] loop, one clock reading per turn; the loop
    ends when the readings do. *)
Fixpoint dequeueLoop (clocks : list Z) (w : Executor.Worker)
  : list Executor.Turn * Executor.Worker :=
  match clocks with
  | [] => ([], w)
  | now :: rest =>
      if Executor.isRunning w then
        let (turn, w1) :=
          Executor.dequeueTurn TRADE_AGGREGATION_ENABLED PAPER_TRADING_ENABLED now w in
        let (turns, w2) := dequeueLoop rest w1 in
        (turn :: turns, w2)
      else ([], w)
  end.
End Run.

End ExecutorRun.

(** ** workers/executorWorker.ts — the worker from one event to the next

    [doAggregatedTrading] and the live branch of [doTrading] await the
    position and balance fetches and then [postOrder]. While they wait
    the message handler and the timers run, and any of the awaited calls
    can throw. [ExecutorAsync] follows the worker from one turn of the
    event loop to the next: besides the module state it holds what is
    being awaited, and the way the awaited calls end is part of the
    event. [Executor.flusherTick] and [Executor.dequeueTurn] are the runs
    in which every call returns before anything else happens. *)

Module ExecutorAsync.

(** How the awaited calls made for one record or one trade end: the
    [Promise.all] of the two position fetches and the balance fetch, with
    the [find] and [reduce] on what they return, then [postOrder].
    [FetchThrew]: a fetch is rejected or returns something [find] throws
    on, [postOrder] is not called. [PostThrew]: [postOrder] is called and
    throws. *)
Inductive CallOutcome : Type :=
| Returned
| FetchThrew
| PostThrew.

(** [doAggregatedTrading] on a batch whose successive records' calls end
    as [calls] says; the orders handed to [postOrder], oldest first. A
    throw leaves the [for] loop. Nothing more is posted while a call is
    still awaited ([calls] used up). *)
Fixpoint doAggregatedTrading (calls : list CallOutcome)
         (aggregatedTrades : list Executor.AggregatedTrade)
  : list Executor.PostedOrder :=
  match aggregatedTrades, calls with
  | agg :: rest, outcome :: calls' =>
      match Executor.trades agg with
      | [] => []
      | first :: _ =>
          match outcome with
          | FetchThrew => []
          | PostThrew => [Executor.aggregatedOrder first agg]
          | Returned =>
              Executor.aggregatedOrder first agg :: doAggregatedTrading calls' rest
          end
      end
  | _, _ => []
  end.

(** The first [n] calls all returned. *)
Fixpoint allReturned (n : nat) (calls : list CallOutcome) : bool :=
  match n, calls with
  | O, _ => true
  | S n', Returned :: calls' => allReturned n' calls'
  | S _, _ => false
  end.

(** [postOrder] was called for the record whose calls end this way. *)
Definition posted (outcome : option CallOutcome) : bool :=
  match outcome with
  | Some Returned | Some PostThrew => true
  | Some FetchThrew | None => false
  end.

Section Loop.
Variable TRADE_AGGREGATION_ENABLED : bool.
Variable TRADE_AGGREGATION_WINDOW_SECONDS : Z.
Variable PAPER_TRADING_ENABLED : bool.

(** The worker between two events: the module state, the records that
    the running [doAggregatedTrading] has still to handle (the calls of
    the first one are being awaited), and the activity whose [doTrading]
    the dequeue loop is awaiting. *)
Record State : Type := {
  worker : Executor.Worker;
  flushing : list Executor.AggregatedTrade;
  trading : option QueueActivity
}.

Definition idle (w : Executor.Worker) : State :=
  {| worker := w; flushing := []; trading := None |}.

Definition withWorker (w : Executor.Worker) (s : State) : State :=
  {| worker := w; flushing := flushing s; trading := trading s |}.

Definition withTrading (t : option QueueActivity) (s : State) : State :=
  {| worker := worker s; flushing := flushing s; trading := t |}.

(** [aggregationFlushInProgress] and the batch in flight. *)
Definition withFlushing (inProgress : bool) (batch : list Executor.AggregatedTrade)
           (s : State) : State :=
  {| worker :=
       {| Executor.localQueue := Executor.localQueue (worker s);
          Executor.tradeAggregationBuffer := Executor.tradeAggregationBuffer (worker s);
          Executor.paperTrader := Executor.paperTrader (worker s);
          Executor.isRunning := Executor.isRunning (worker s);
          Executor.aggregationFlushInProgress := inProgress;
          Executor.orders := Executor.orders (worker s) |};
     flushing := batch;
     trading := trading s |}.

(** A call of [postOrder]. *)
Definition post (o : Executor.PostedOrder) (s : State) : State :=
  withWorker (Executor.withOrders (Executor.orders (worker s) ++ [o]) (worker s)) s.

(** [doAggregatedTrading] comes to the next record of its batch: it
    reads the record's first trade and starts the fetches. At the end of
    the batch, and when a record has no first trade
    ([firstTrade.timestamp] throws), the [finally] block of the flusher
    clears the flag. *)
Definition awaitRecord (batch : list Executor.AggregatedTrade) (s : State) : State :=
  match batch with
  | [] => withFlushing false [] s
  | agg :: _ =>
      match Executor.trades agg with
      | [] => withFlushing false [] s
      | _ :: _ => withFlushing true batch s
      end
  end.

(** The flusher's interval callback, up to its first [await]. *)
Definition flusherTick (now : Z) (s : State) : State :=
  let w := worker s in
  if negb (Executor.isRunning w) || Executor.aggregationFlushInProgress w then s
  else
    let (ready, buffer') :=
      Executor.getReadyAggregatedTrades TRADE_AGGREGATION_WINDOW_SECONDS now
        (Executor.tradeAggregationBuffer w) in
    let s1 := withWorker (Executor.withBuffer buffer' w) s in
    match ready with
    | [] => s1
    | _ :: _ => awaitRecord ready s1
    end.

(** The calls awaited for the first record of the batch in flight end. *)
Definition flushCall (outcome : CallOutcome) (s : State) : State :=
  match flushing s with
  | [] => s
  | agg :: rest =>
      match Executor.trades agg with
      | [] => withFlushing false [] s
      | first :: _ =>
          match outcome with
          | FetchThrew => withFlushing false [] s
          | PostThrew =>
              withFlushing false [] (post (Executor.aggregatedOrder first agg) s)
          | Returned =>
              awaitRecord rest (post (Executor.aggregatedOrder first agg) s)
          end
      end
  end.

(** The dequeue loop comes to its [while (isRunning)] test (after its
    nap, or after the [doTrading] it awaited) and runs to its next
    [await]. The paper branch of [doTrading] awaits nothing. *)
Definition loopTurn (now : Z) (s : State) : State :=
  let w := worker s in
  match trading s with
  | Some _ => s
  | None =>
      if negb (Executor.isRunning w) then s
      else
        match Executor.localQueue w with
        | [] => s
        | activity :: rest =>
            let w1 := Executor.withQueue rest w in
            if Executor.aggregationCandidate TRADE_AGGREGATION_ENABLED activity then
              withWorker
                (Executor.withBuffer
                   (Executor.addToAggregationBuffer activity now
                      (Executor.tradeAggregationBuffer w1)) w1) s
            else
              match (if PAPER_TRADING_ENABLED then Executor.paperTrader w1 else None) with
              | Some pt =>
                  withWorker
                    (Executor.withPaperTrader (snd (Paper.executeTrade activity pt)) w1) s
              | None => withTrading (Some activity) (withWorker w1 s)
              end
        end
  end.

(** The calls awaited by the live branch of [doTrading] end; a throw is
    caught by the loop. *)
Definition tradeCall (outcome : CallOutcome) (s : State) : State :=
  match trading s with
  | None => s
  | Some activity =>
      match outcome with
      | FetchThrew => withTrading None s
      | PostThrew | Returned =>
          post (Executor.immediateOrder activity) (withTrading None s)
      end
  end.

Inductive Event : Type :=
| Message (m : Distributor.Message)
| FlusherTick (now : Z)
| FlushCall (outcome : CallOutcome)
| LoopTurn (now : Z)
| TradeCall (outcome : CallOutcome).

Definition step (e : Event) (s : State) : State :=
  match e with
  | Message m => withWorker (Executor.onMessage m (worker s)) s
  | FlusherTick now => flusherTick now s
  | FlushCall outcome => flushCall outcome s
  | LoopTurn now => loopTurn now s
  | TradeCall outcome => tradeCall outcome s
  end.

Definition run (events : list Event) (s : State) : State :=
  fold_left (fun st e => step e st) events s.

(** The orders [postOrder] will still be called with if every call in
    flight returns. *)
Definition pendingOrders (s : State) : list Executor.PostedOrder :=
  (match trading s with
   | Some activity => [Executor.immediateOrder activity]
   | None => []
   end ++ Executor.doAggregatedTrading (flushing s))%list.

(** The activities carried by the messages among the events. *)
Definition arrivals (events : list Event) : list QueueActivity :=
  flat_map (fun e => match e with
                     | Message (Distributor.MsgActivity payload) => [payload]
                     | _ => []
                     end) events.
End Loop.

End ExecutorAsync.

(** ** workers/executorWorker.ts — runs of the paper trader *)

Module PaperRun.

(** Trades offered to the trader one after the other; refused ones leave
    it as it is. *)
Definition executeAll (ts : list QueueActivity) (pt : Paper.PaperTrader)
  : Paper.PaperTrader :=
  fold_left (fun p t => snd (Paper.executeTrade t p)) ts pt.

End PaperRun.

(** ** The history exporter (src/unnamed/part_000) — [chunk] *)

Module HistoryExport.
Section Chunk.
Context {T : Type}.

(** The [for] loop of [chunk], entered at its test with the index [i] and
    the [result] built so far. [array.slice(i, i + size)] is
    [firstn size (skipn i array)]. The loop is followed for [turns] tests
    at most: [None] says that it is still running after that many. The
    size is a whole number, as [MAX_PARALLEL] is. *)
Fixpoint chunkLoop (turns : nat) (array : list T) (size i : nat)
         (result : list (list T)) : option (list (list T)) :=
  match turns with
  | O => None
  | S turns' =>
      if Nat.ltb i (List.length array)
      then chunkLoop turns' array size (i + size)
             (result ++ [firstn size (skipn i array)])
      else Some result
  end.

Definition chunk (turns : nat) (array : list T) (size : nat)
  : option (list (list T)) :=
  chunkLoop turns array size 0 [].
End Chunk.

(** [MAX_PARALLEL], the size [chunk] is called with. [Number(raw)] is a
    builtin: [None] stands for a result that [Number.isFinite] rejects
    (NaN or an infinity). An unset or empty variable gives the default 4. *)
Section MaxParallel.
Variable Number : string -> option Q.

Definition MAX_PARALLEL (raw : option string) : Z :=
  let value :=
    match raw with
    | Some r => if truthy r then Number r else Some 4%Q
    | None => Some 4%Q
    end in
  match value with
  | Some v => if Qltb 0 v then Z.min (Qfloor v) 10 else 4
  | None => 4
  end.
End MaxParallel.
End HistoryExport.

(** ** Amounts as JavaScript numbers

    The modules above compute amounts as exact rationals: they carry the
    statements that rest on comparisons and on which fields are read and
    written. A JavaScript number is an IEEE-754 binary64 float, and the
    result of an addition, a subtraction, a product or a quotient is
    rounded (to nearest, ties to even). [Binary64] holds [executeTrade] and
    [addToAggregationBuffer] with amounts as Rocq's primitive [float],
    which is that format with that rounding, for the statements that
    depend on what the arithmetic returns. A literal such as [0.1] is the
    double nearest to it, as in JavaScript. *)

#[local] Set Warnings "-inexact-float".

Module Binary64.

(** A number is falsy when it is [0], [-0] or [NaN]. *)
Definition falsy (v : float) : bool := ((v =? 0) || is_nan v)%float.

(** [v || 0] on a number. *)
Definition numberOrZero (v : float) : float := if falsy v then 0%float else v.

(** [x || 0] on a field that may be missing. *)
Definition orZero (x : option float) : float :=
  match x with
  | Some v => numberOrZero v
  | None => 0%float
  end.

(** A field read as it is: arithmetic on [undefined] gives [NaN]. *)
Definition asNumber (x : option float) : float :=
  match x with
  | Some v => v
  | None => nan
  end.

(** The real number a finite double stands for (0 for [NaN] and the
    infinities, which stand for none). *)
Definition realValue (x : float) : Q :=
  match Prim2SF x with
  | S754_finite s m e =>
      ((if s then -1 else 1) * inject_Z (Zpos m) * Qpower 2 e)%Q
  | _ => 0%Q
  end.

(** What the rounding of a sum and of a difference adds to the exact
    result. *)
Definition addError (x y : float) : Q :=
  (realValue (x + y)%float - (realValue x + realValue y))%Q.

Definition subError (x y : float) : Q :=
  (realValue (x - y)%float - (realValue x - realValue y))%Q.

(** [QueueActivity] with its amounts as doubles. *)
Record QueueActivity : Type := {
  transactionHash : option string;
  userAddress : string;
  conditionId : string;
  asset : string;
  side : option string;
  price : option float;
  size : option float;
  usdcSize : option float;
  timestamp : Z;
  slug : option string;
  eventSlug : option string;
  _detectedAt : option Z
}.

(** *** workers/executorWorker.ts and services/tradeExecutor.ts —
    [PaperTrader] (the two classes are the same text) *)

Module Paper.

Record Position : Type := {
  pos_conditionId : string;
  pos_asset : string;
  pos_size : float;
  pos_invested : float;
  pos_avgPrice : float
}.

Record PaperTrader : Type := {
  balance : float;
  positions : JsMap.t Position
}.

Definition new (initialUsd : float) : PaperTrader :=
  {| balance := initialUsd; positions := JsMap.empty |}.

(** The position object taken from the map is updated in place and put
    back under the same key; [JsMap.set] keeps the entry where it was. *)
Definition executeTrade (trade : QueueActivity) (pt : PaperTrader)
  : bool * PaperTrader :=
  let usdc := orZero (usdcSize trade) in
  let sz := orZero (size trade) in
  let pr := orZero (price trade) in
  let cid := conditionId trade in
  if isBuy (side trade) then
    if (balance pt <? usdc)%float then (false, pt)
    else
      let existing :=
        match JsMap.get cid (positions pt) with
        | Some e => e
        | None => {| pos_conditionId := cid; pos_asset := asset trade;
                     pos_size := 0; pos_invested := 0; pos_avgPrice := 0 |}
        end in
      let size' := (pos_size existing + sz)%float in
      let invested' := (pos_invested existing + usdc)%float in
      let avg' := if (0 <? size')%float then (invested' / size')%float else pr in
      (true,
       {| balance := (balance pt - usdc)%float;
          positions :=
            JsMap.set cid
              {| pos_conditionId := pos_conditionId existing;
                 pos_asset := pos_asset existing;
                 pos_size := size'; pos_invested := invested';
                 pos_avgPrice := avg' |}
              (positions pt) |})
  else
    match JsMap.get cid (positions pt) with
    | None => (false, pt)
    | Some existing =>
        if (pos_size existing <? sz)%float then (false, pt)
        else
          let size' := (pos_size existing - sz)%float in
          let invested' := (pos_invested existing - usdc)%float in
          (true,
           {| balance := (balance pt + usdc)%float;
              positions :=
                if (size' =? 0)%float then JsMap.delete cid (positions pt)
                else
                  JsMap.set cid
                    {| pos_conditionId := pos_conditionId existing;
                       pos_asset := pos_asset existing;
                       pos_size := size'; pos_invested := invested';
                       pos_avgPrice := pos_avgPrice existing |}
                    (positions pt) |})
    end.

(** [getUserPortfolioValue]: the sum of [invested || 0], in doubles and
    in iteration order. *)
Definition getUserPortfolioValue (pt : PaperTrader) : float :=
  fold_left (fun total p => (total + numberOrZero (pos_invested p))%float)
    (JsMap.values (positions pt)) 0%float.

(** [balance + Σ invested] as a real number: the sum of the reals the
    stored doubles stand for. *)
Definition realInvested (ps : JsMap.t Position) : Q :=
  fold_right (fun e acc => (realValue (pos_invested (snd e)) + acc)%Q) 0%Q ps.

Definition realEquity (pt : PaperTrader) : Q :=
  (realValue (balance pt) + realInvested (positions pt))%Q.

End Paper.

(** *** workers/executorWorker.ts — the aggregation buffer *)

Module Executor.

Record AggregatedTrade : Type := {
  agg_userAddress : string;
  agg_conditionId : string;
  agg_asset : string;
  agg_side : string;
  agg_slug : option string;
  agg_eventSlug : option string;
  trades : list QueueActivity;
  totalUsdcSize : float;
  averagePrice : float;
  firstTradeTime : Z;
  lastTradeTime : Z
}.

Definition Buffer : Type := JsMap.t AggregatedTrade.

Definition getAggregationKey (trade : QueueActivity) : string :=
  join ":" [ userAddress trade; conditionId trade; asset trade; showOpt (side trade) ].

(** [trades.reduce((sum, t) => sum + (t.usdcSize || 0) * (t.price || 0), 0)] *)
Definition totalValue (ts : list QueueActivity) : float :=
  fold_left (fun sum t => (sum + orZero (usdcSize t) * orZero (price t))%float)
    ts 0%float.

Definition addToAggregationBuffer (trade : QueueActivity) (now : Z) (buffer : Buffer)
  : Buffer :=
  let key := getAggregationKey trade in
  match JsMap.get key buffer with
  | Some existing =>
      let trades' := (trades existing ++ [trade])%list in
      let total' := (totalUsdcSize existing + orZero (usdcSize trade))%float in
      let avg' := if (0 <? total')%float then (totalValue trades' / total')%float
                  else orZero (price trade) in
      JsMap.set key
        {| agg_userAddress := agg_userAddress existing;
           agg_conditionId := agg_conditionId existing;
           agg_asset := agg_asset existing;
           agg_side := agg_side existing;
           agg_slug := agg_slug existing;
           agg_eventSlug := agg_eventSlug existing;
           trades := trades';
           totalUsdcSize := total';
           averagePrice := avg';
           firstTradeTime := firstTradeTime existing;
           lastTradeTime := now |}
        buffer
  | None =>
      JsMap.set key
        {| agg_userAddress := userAddress trade;
           agg_conditionId := conditionId trade;
           agg_asset := asset trade;
           agg_side := orString (side trade) "BUY";
           agg_slug := slug trade;
           agg_eventSlug := eventSlug trade;
           trades := [trade];
           totalUsdcSize := orZero (usdcSize trade);
           averagePrice := orZero (price trade);
           firstTradeTime := now;
           lastTradeTime := now |}
        buffer
  end.

(** The buffer is changed by [addToAggregationBuffer] and by the
    [delete(key)] of [getReadyAggregatedTrades], and by nothing else. *)
Inductive reachable : Buffer -> Prop :=
| reach_empty : reachable JsMap.empty
| reach_add : forall trade now b,
    reachable b -> reachable (addToAggregationBuffer trade now b)
| reach_delete : forall key b,
    reachable b -> reachable (JsMap.delete key b).

(** What the fields of a record are, given its contributors in arrival
    order: [totalUsdcSize] is their [usdcSize || 0] added up one by one. *)
Definition runningTotal (first : QueueActivity) (others : list QueueActivity) : float :=
  fold_left (fun total t => (total + orZero (usdcSize t))%float) others
    (orZero (usdcSize first)).

End Executor.

(** *** services/tradeExecutor.ts — the service's copy of
    [addToAggregationBuffer]

    It reads [usdcSize] and [price] without the [|| 0] default and takes
    the quotient whatever the total. A missing field is [undefined]
    there; the record field then holds [undefined] where the model holds
    the [NaN] that any arithmetic on it gives. *)

Module Service.

Definition totalValue (ts : list QueueActivity) : float :=
  fold_left (fun sum t => (sum + asNumber (usdcSize t) * asNumber (price t))%float)
    ts 0%float.

Definition addToAggregationBuffer (trade : QueueActivity) (now : Z)
           (buffer : Executor.Buffer) : Executor.Buffer :=
  let key := Executor.getAggregationKey trade in
  match JsMap.get key buffer with
  | Some existing =>
      let trades' := (Executor.trades existing ++ [trade])%list in
      let total' := (Executor.totalUsdcSize existing + asNumber (usdcSize trade))%float in
      JsMap.set key
        {| Executor.agg_userAddress := Executor.agg_userAddress existing;
           Executor.agg_conditionId := Executor.agg_conditionId existing;
           Executor.agg_asset := Executor.agg_asset existing;
           Executor.agg_side := Executor.agg_side existing;
           Executor.agg_slug := Executor.agg_slug existing;
           Executor.agg_eventSlug := Executor.agg_eventSlug existing;
           Executor.trades := trades';
           Executor.totalUsdcSize := total';
           Executor.averagePrice := (totalValue trades' / total')%float;
           Executor.firstTradeTime := Executor.firstTradeTime existing;
           Executor.lastTradeTime := now |}
        buffer
  | None =>
      JsMap.set key
        {| Executor.agg_userAddress := userAddress trade;
           Executor.agg_conditionId := conditionId trade;
           Executor.agg_asset := asset trade;
           Executor.agg_side := orString (side trade) "BUY";
           Executor.agg_slug := slug trade;
           Executor.agg_eventSlug := eventSlug trade;
           Executor.trades := [trade];
           Executor.totalUsdcSize := asNumber (usdcSize trade);
           Executor.averagePrice := asNumber (price trade);
           Executor.firstTradeTime := now;
           Executor.lastTradeTime := now |}
        buffer
  end.

Inductive reachable : Executor.Buffer -> Prop :=
| reach_empty : reachable JsMap.empty
| reach_add : forall trade now b,
    reachable b -> reachable (addToAggregationBuffer trade now b)
| reach_delete : forall key b,
    reachable b -> reachable (JsMap.delete key b).

Definition runningTotal (first : QueueActivity) (others : list QueueActivity) : float :=
  fold_left (fun total t => (total + asNumber (usdcSize t))%float) others
    (asNumber (usdcSize first)).

End Service.

(** A trade of the given side, market, quantity, notional and price. *)
Definition sample_trade (sd cid : string) (sz usdc pr : float) : QueueActivity :=
  {| transactionHash := Some "0xabc"%string;
     userAddress := "0xleader";
     conditionId := cid;
     asset := "asset-1";
     side := Some sd;
     price := Some pr;
     size := Some sz;
     usdcSize := Some usdc;
     timestamp := 1762128000000;
     slug := None;
     eventSlug := None;
     _detectedAt := None |}.

End Binary64.

(** ** Sample data used by the examples *)

(** A concrete feed element and monitor state for the examples: no worker
    is registered yet, the cache is the default one. *)
Definition sample_activity : ApiActivity :=
  {| api_transactionHash := None;
     api_conditionId := "cond-1";
     api_asset := "asset-1";
     api_side := Some "BUY"%string;
     api_price := Some (1 # 2)%Q;
     api_size := Some 10%Q;
     api_usdcSize := Some 5%Q;
     api_timestamp := TsNumber 1762128000;
     api_slug := None;
     api_eventSlug := None |}.

Definition sample_monitor : Monitor.State :=
  {| Monitor.dedup := Dedup.activityDedupCache 60;
     Monitor.distributor := Distributor.initial;
     Monitor.enqueuedCount := 0 |}.

Definition sample_clock (t : Z) : Monitor.Clock :=
  {| Monitor.nowMs := t; Monitor.detectedAt := t; Monitor.cacheNow := t |}.

(** A trade of the given side, market, quantity, notional and price. *)
Definition sample_trade (sd cid : string) (sz usdc pr : Q) : QueueActivity :=
  {| transactionHash := Some "0xabc"%string;
     userAddress := "0xleader";
     conditionId := cid;
     asset := "asset-1";
     side := Some sd;
     price := Some pr;
     size := Some sz;
     usdcSize := Some usdc;
     timestamp := 1762128000000;
     slug := None;
     eventSlug := None;
     _detectedAt := None |}.

(* ===================================================================== *)
(** * Part II — properties                                               *)
(* ===================================================================== *)

(** ** Facts about [JsMap] *)

Section JsMapFacts.
Context {V : Type}.
Implicit Types (m : JsMap.t V) (k : string) (v : V).

Lemma get_none_iff k m : JsMap.get k m = None <-> ~ In k (JsMap.keys m).
Proof.
  induction m as [|[k' v'] m IH]; simpl.
  - tauto.
  - destruct (String.eqb_spec k k') as [->|Hne].
    + split; [discriminate | intros H; exfalso; apply H; now left].
    + rewrite IH. split; intros H.
      * intros [E|Hin]; [congruence | tauto].
      * intros Hin; apply H; now right.
Qed.

Lemma get_some_in k v m : JsMap.get k m = Some v -> In (k, v) m.
Proof.
  induction m as [|[k' v'] m IH]; simpl; [discriminate|].
  destruct (String.eqb_spec k k') as [->|Hne].
  - intros [= ->]. now left.
  - intros H. right. auto.
Qed.

Lemma has_false_iff k m : JsMap.has k m = false <-> JsMap.get k m = None.
Proof. unfold JsMap.has. destruct (JsMap.get k m); split; congruence. Qed.

Lemma set_absent k v m :
  JsMap.get k m = None -> JsMap.set k v m = (m ++ [(k, v)])%list.
Proof.
  induction m as [|[k' v'] m IH]; simpl; [reflexivity|].
  destruct (String.eqb_spec k k') as [->|Hne]; [discriminate|].
  intros H. now rewrite IH.
Qed.

Lemma get_set_same k v m : JsMap.get k (JsMap.set k v m) = Some v.
Proof.
  induction m as [|[k' v'] m IH]; simpl.
  - now rewrite String.eqb_refl.
  - destruct (String.eqb_spec k k') as [->|Hne]; simpl.
    + now rewrite String.eqb_refl.
    + destruct (String.eqb_spec k k'); [contradiction | exact IH].
Qed.

Lemma get_set_other k k' v m :
  k <> k' -> JsMap.get k' (JsMap.set k v m) = JsMap.get k' m.
Proof.
  intros Hne. induction m as [|[k0 v0] m IH]; simpl.
  - destruct (String.eqb_spec k' k); [congruence | reflexivity].
  - destruct (String.eqb_spec k k0) as [->|Hk]; simpl.
    + destruct (String.eqb_spec k' k0); [congruence | reflexivity].
    + destruct (String.eqb_spec k' k0); [reflexivity | exact IH].
Qed.

Lemma keys_set_present k v m :
  In k (JsMap.keys m) -> JsMap.keys (JsMap.set k v m) = JsMap.keys m.
Proof.
  induction m as [|[k0 v0] m IH]; simpl; [tauto|].
  destruct (String.eqb_spec k k0) as [->|Hk]; simpl; [reflexivity|].
  intros [E|Hin]; [congruence|]. f_equal. now apply IH.
Qed.

Lemma get_delete_same k m : JsMap.get k (JsMap.delete k m) = None.
Proof.
  apply get_none_iff. unfold JsMap.delete, JsMap.keys.
  rewrite in_map_iff. intros [[k' v'] [E Hin]]. simpl in E. subst k'.
  apply filter_In in Hin. destruct Hin as [_ Hb]. simpl in Hb.
  now rewrite String.eqb_refl in Hb.
Qed.

Lemma get_delete_other k k' m :
  k <> k' -> JsMap.get k' (JsMap.delete k m) = JsMap.get k' m.
Proof.
  intros Hne. induction m as [|[k0 v0] m IH]; simpl; [reflexivity|].
  destruct (String.eqb_spec k k0) as [->|Hk]; simpl.
  - destruct (String.eqb_spec k' k0); [congruence | exact IH].
  - destruct (String.eqb_spec k' k0); [reflexivity | exact IH].
Qed.

Lemma delete_absent k m : ~ In k (JsMap.keys m) -> JsMap.delete k m = m.
Proof.
  induction m as [|[k0 v0] m IH]; simpl; [reflexivity|].
  intros H. destruct (String.eqb_spec k k0) as [->|Hk]; simpl.
  - exfalso. apply H. now left.
  - f_equal. apply IH. tauto.
Qed.

Lemma delete_head k v m :
  JsMap.wf ((k, v) :: m) -> JsMap.delete k ((k, v) :: m) = m.
Proof.
  unfold JsMap.wf. simpl. intros H. inversion H; subst.
  rewrite String.eqb_refl. simpl. now apply delete_absent.
Qed.

Lemma delete_app k m1 m2 :
  JsMap.delete k (m1 ++ m2) = (JsMap.delete k m1 ++ JsMap.delete k m2)%list.
Proof. unfold JsMap.delete. apply filter_app. Qed.

Lemma keys_app m1 m2 :
  JsMap.keys (m1 ++ m2) = (JsMap.keys m1 ++ JsMap.keys m2)%list.
Proof. unfold JsMap.keys. apply map_app. Qed.

Lemma keys_filter_in (p : string * V -> bool) k m :
  In k (JsMap.keys (filter p m)) -> In k (JsMap.keys m).
Proof.
  unfold JsMap.keys. rewrite !in_map_iff.
  intros [e [E Hin]]. exists e. split; [exact E|].
  apply filter_In in Hin. tauto.
Qed.

Lemma wf_filter (p : string * V -> bool) m : JsMap.wf m -> JsMap.wf (filter p m).
Proof.
  unfold JsMap.wf. induction m as [|[k0 v0] m IH]; simpl; [auto|].
  intros H. inversion H; subst.
  destruct (p (k0, v0)); simpl; [|auto].
  constructor; [|auto]. intros Hin. apply keys_filter_in in Hin. contradiction.
Qed.

Lemma wf_delete k m : JsMap.wf m -> JsMap.wf (JsMap.delete k m).
Proof. apply wf_filter. Qed.

Lemma wf_set k v m : JsMap.wf m -> JsMap.wf (JsMap.set k v m).
Proof.
  intros Hwf. destruct (JsMap.get k m) eqn:G.
  - unfold JsMap.wf. rewrite keys_set_present; [exact Hwf|].
    apply get_some_in in G. unfold JsMap.keys.
    apply in_map_iff. now exists (k, v0).
  - rewrite set_absent by exact G. unfold JsMap.wf. rewrite keys_app. simpl.
    apply get_none_iff in G.
    apply NoDup_app.
    + exact Hwf.
    + constructor; [simpl; tauto | constructor].
    + intros x Hx [E|[]]. subst. contradiction.
Qed.

Lemma get_app_absent k m1 m2 :
  ~ In k (JsMap.keys m1) -> JsMap.get k (m1 ++ m2) = JsMap.get k m2.
Proof.
  induction m1 as [|[k0 v0] m1 IH]; simpl; [reflexivity|].
  intros H. destruct (String.eqb_spec k k0) as [->|Hk]; [tauto|].
  apply IH. tauto.
Qed.

(** In a well-formed map the entry of a key is found wherever it sits. *)
Lemma get_in_wf k v m : JsMap.wf m -> In (k, v) m -> JsMap.get k m = Some v.
Proof.
  unfold JsMap.wf. induction m as [|[k0 v0] m IH]; simpl; [tauto|].
  intros Hnd [E|Hin]; inversion Hnd; subst.
  - inversion E; subst. now rewrite String.eqb_refl.
  - destruct (String.eqb_spec k k0) as [->|Hk].
    + exfalso. match goal with H : ~ In _ _ |- _ => apply H end.
      unfold JsMap.keys. apply in_map_iff. now exists (k0, v).
    + auto.
Qed.
End JsMapFacts.

(** ** Entries of a [JsMap] *)

Lemma in_set_inv {V : Type} (k key : string) (x v : V) (m : JsMap.t V) :
  In (k, x) (JsMap.set key v m) -> (k = key /\ x = v) \/ In (k, x) m.
Proof.
  induction m as [|[k0 v0] m IH]; simpl.
  - intros [[= <- <-]|[]]. now left.
  - destruct (String.eqb_spec key k0) as [->|Hne]; simpl.
    + intros [[= <- <-]|H]; [now left | right; now right].
    + intros [E|H]; [right; now left|].
      destruct (IH H) as [?|?]; [now left | right; now right].
Qed.

Lemma delete_middle {V : Type} (k : string) (v : V) (m1 m2 : JsMap.t V) :
  JsMap.wf (m1 ++ (k, v) :: m2) ->
  JsMap.delete k (m1 ++ (k, v) :: m2) = (m1 ++ m2)%list
  /\ JsMap.wf (m1 ++ m2)
  /\ ~ In k (JsMap.keys m1) /\ ~ In k (JsMap.keys m2).
Proof.
  unfold JsMap.wf. rewrite keys_app. cbn [JsMap.keys map fst].
  intros Hnd. apply NoDup_remove in Hnd. destruct Hnd as [Hnd Hnot].
  assert (H1 : ~ In k (JsMap.keys m1)) by (intros H; apply Hnot, in_or_app; now left).
  assert (H2 : ~ In k (JsMap.keys m2)) by (intros H; apply Hnot, in_or_app; now right).
  split; [|split; [now rewrite keys_app | split; assumption]].
  rewrite delete_app. unfold JsMap.delete at 2. cbn [filter fst].
  rewrite String.eqb_refl. cbn [negb].
  fold (JsMap.delete k m2). now rewrite !delete_absent.
Qed.



(** ** The dedup cache *)

Section DedupFacts.
Implicit Types (c : Dedup.InMemoryDedupCache) (m : JsMap.t Z).

Lemma evictExpired_cache now c :
  Dedup.cache (Dedup.evictExpired now c)
  = filter (fun e => now - snd e <=? Dedup.ttlMs c) (Dedup.cache c).
Proof.
  unfold Dedup.evictExpired, Dedup.expired. simpl.
  apply filter_ext. intros e. now rewrite Z.leb_antisym.
Qed.

Lemma evictOldest_wf_cons k ts m :
  JsMap.wf ((k, ts) :: m) -> k <> ""%string ->
  Dedup.evictOldest ((k, ts) :: m) = m.
Proof.
  intros Hwf Hk. unfold Dedup.evictOldest. cbn [JsMap.firstKey].
  unfold truthy. destruct (String.eqb_spec k ""); [contradiction|].
  cbn [negb]. now apply delete_head.
Qed.

(** The sweep keeps an unexpired entry and what precedes and follows it. *)
Lemma sweep_split now ttl (pre post : JsMap.t Z) K t1 :
  now - t1 <= ttl ->
  filter (fun e => now - snd e <=? ttl) (pre ++ (K, t1) :: post)
  = (filter (fun e => now - snd e <=? ttl) pre
     ++ (K, t1) :: filter (fun e => now - snd e <=? ttl) post)%list.
Proof.
  intros H. rewrite filter_app. cbn [filter snd].
  destruct (Z.leb_spec (now - t1) ttl); [reflexivity | lia].
Qed.

(** A key that [checkAndRemember] accepts sits at the end of the map. *)
Lemma fresh_key_is_last K t1 c :
  1 <= Dedup.maxEntries c ->
  fst (Dedup.checkAndRemember K t1 c) = true ->
  exists pre,
    Dedup.cache (snd (Dedup.checkAndRemember K t1 c)) = (pre ++ [(K, t1)])%list
    /\ ~ In K (JsMap.keys pre).
Proof.
  intros Hmax. unfold Dedup.checkAndRemember.
  destruct (JsMap.has K (Dedup.cache (Dedup.evictExpired t1 c))) eqn:Hhas;
    [discriminate|]. intros _. cbn [snd fst Dedup.withCache Dedup.cache].
  apply has_false_iff in Hhas.
  rewrite (set_absent _ _ _ Hhas).
  pose proof (proj1 (get_none_iff _ _) Hhas) as Hnot.
  set (swept := Dedup.cache (Dedup.evictExpired t1 c)) in *.
  change (Dedup.maxEntries (Dedup.evictExpired t1 c)) with (Dedup.maxEntries c).
  destruct (Z.ltb_spec (Dedup.maxEntries c)
              (Z.of_nat (JsMap.size (swept ++ [(K, t1)])))) as [Hbig|_];
    [|exists swept; auto].
  destruct swept as [|[k0 v0] s'].
  - simpl in Hbig. lia.
  - unfold Dedup.evictOldest. cbn [app JsMap.firstKey].
    destruct (truthy k0); [|exists ((k0, v0) :: s'); auto].
    change ((k0, v0) :: (s' ++ [(K, t1)]))%list
      with (((k0, v0) :: s') ++ [(K, t1)])%list.
    rewrite delete_app.
    assert (Hk : k0 <> K) by (intros ->; apply Hnot; now left).
    exists (JsMap.delete k0 ((k0, v0) :: s')). split.
    + f_equal. unfold JsMap.delete. cbn [filter fst].
      destruct (String.eqb_spec k0 K); [contradiction | reflexivity].
    + intros Hin. apply keys_filter_in in Hin. contradiction.
Qed.

(** One further call leaves an unexpired key in place as long as the
    entries behind it cannot fill the cache. *)
Lemma call_keeps_key K t1 k now c (pre post : JsMap.t Z) :
  Dedup.cache c = (pre ++ (K, t1) :: post)%list ->
  ~ In K (JsMap.keys pre) ->
  now - t1 <= Dedup.ttlMs c ->
  Z.of_nat (List.length post) + 2 <= Dedup.maxEntries c ->
  exists pre' post',
    Dedup.cache (snd (Dedup.checkAndRemember k now c))
    = (pre' ++ (K, t1) :: post')%list
    /\ ~ In K (JsMap.keys pre')
    /\ (List.length post' <= S (List.length post))%nat.
Proof.
  intros Hc Hpre Hlive Hroom.
  unfold Dedup.checkAndRemember.
  pose proof (evictExpired_cache now c) as Hs.
  rewrite Hc, (sweep_split _ _ _ _ _ _ Hlive) in Hs.
  set (p := fun e : string * Z => now - snd e <=? Dedup.ttlMs c) in *.
  assert (Hpre1 : ~ In K (JsMap.keys (filter p pre)))
    by (intros Hin; apply keys_filter_in in Hin; contradiction).
  assert (Hlen : (List.length (filter p post) <= List.length post)%nat)
    by apply filter_length_le.
  destruct (JsMap.has k (Dedup.cache (Dedup.evictExpired now c))) eqn:Hhas.
  - cbn [snd]. rewrite Hs. exists (filter p pre), (filter p post).
    repeat split; auto.
  - cbn [snd Dedup.withCache Dedup.cache].
    change (Dedup.maxEntries (Dedup.evictExpired now c)) with (Dedup.maxEntries c).
    apply has_false_iff in Hhas.
    rewrite (set_absent _ _ _ Hhas). rewrite Hs in *.
    assert (HkK : k <> K).
    { intros ->. rewrite get_app_absent in Hhas by exact Hpre1.
      simpl in Hhas. now rewrite String.eqb_refl in Hhas. }
    rewrite <- app_assoc. cbn [app].
    destruct (Z.ltb_spec (Dedup.maxEntries c)
                (Z.of_nat (JsMap.size
                   (filter p pre ++ (K, t1) :: filter p post ++ [(k, now)]))))
      as [Hbig|_].
    + destruct (filter p pre) as [|[k0 v0] pre1] eqn:Epre.
      * exfalso. unfold JsMap.size in Hbig. cbn [app List.length] in Hbig.
        rewrite length_app in Hbig. cbn [List.length] in Hbig. lia.
      * unfold Dedup.evictOldest. cbn [app JsMap.firstKey].
        destruct (truthy k0).
        -- assert (Hk0 : k0 <> K) by (intros ->; apply Hpre1; now left).
           change ((k0, v0) :: (pre1 ++ (K, t1) :: filter p post ++ [(k, now)]))%list
             with (((k0, v0) :: pre1) ++ (K, t1) :: filter p post ++ [(k, now)])%list.
           rewrite delete_app.
           exists (JsMap.delete k0 ((k0, v0) :: pre1)),
                  (JsMap.delete k0 (filter p post ++ [(k, now)])).
           split; [|split].
           ++ f_equal. unfold JsMap.delete at 1. cbn [filter fst].
              destruct (String.eqb_spec k0 K); [contradiction | reflexivity].
           ++ intros Hin. apply keys_filter_in in Hin. contradiction.
           ++ unfold JsMap.delete.
              etransitivity; [apply filter_length_le|].
              rewrite length_app. cbn [List.length]. lia.
        -- exists ((k0, v0) :: pre1), (filter p post ++ [(k, now)])%list.
           split; [reflexivity | split; [exact Hpre1|]].
           rewrite length_app. cbn [List.length]. lia.
    + exists (filter p pre), (filter p post ++ [(k, now)])%list.
      split; [reflexivity | split; [exact Hpre1|]].
      rewrite length_app. cbn [List.length]. lia.
Qed.

Lemma checkAndRemember_config k now c :
  Dedup.ttlMs (snd (Dedup.checkAndRemember k now c)) = Dedup.ttlMs c
  /\ Dedup.maxEntries (snd (Dedup.checkAndRemember k now c)) = Dedup.maxEntries c.
Proof.
  unfold Dedup.checkAndRemember.
  destruct (JsMap.has k (Dedup.cache (Dedup.evictExpired now c))); split; reflexivity.
Qed.

Lemma run_keeps_key K t1 (mids : list (string * Z)) :
  forall c (pre post : JsMap.t Z),
    Dedup.cache c = (pre ++ (K, t1) :: post)%list ->
    ~ In K (JsMap.keys pre) ->
    (forall k t, In (k, t) mids -> t - t1 <= Dedup.ttlMs c) ->
    Z.of_nat (List.length post) + Z.of_nat (List.length mids) < Dedup.maxEntries c ->
    exists pre' post',
      Dedup.cache (Dedup.runCalls mids c) = (pre' ++ (K, t1) :: post')%list
      /\ ~ In K (JsMap.keys pre')
      /\ Dedup.ttlMs (Dedup.runCalls mids c) = Dedup.ttlMs c.
Proof.
  induction mids as [|[k t] rest IH]; intros c pre post Hc Hpre Hlive Hroom.
  - exists pre, post. auto.
  - cbn [Dedup.runCalls].
    destruct (checkAndRemember_config k t c) as [Httl Hmax].
    destruct (call_keeps_key K t1 k t c pre post Hc Hpre) as (pre1 & post1 & Hc1 & Hpre1 & Hlen1).
    + apply (Hlive k t). now left.
    + cbn [List.length] in Hroom. lia.
    + destruct (IH _ pre1 post1 Hc1 Hpre1) as (pre2 & post2 & Hc2 & Hpre2 & Httl2).
      * intros k' t' Hin. rewrite Httl. apply (Hlive k' t'). now right.
      * rewrite Hmax. cbn [List.length] in Hroom. lia.
      * exists pre2, post2. repeat split; auto. now rewrite Httl2.
Qed.

Lemma present_is_refused K t1 t2 c (pre post : JsMap.t Z) :
  Dedup.cache c = (pre ++ (K, t1) :: post)%list ->
  ~ In K (JsMap.keys pre) ->
  t2 - t1 <= Dedup.ttlMs c ->
  fst (Dedup.checkAndRemember K t2 c) = false.
Proof.
  intros Hc Hpre Hlive. unfold Dedup.checkAndRemember.
  rewrite evictExpired_cache, Hc, (sweep_split _ _ _ _ _ _ Hlive).
  unfold JsMap.has. rewrite get_app_absent.
  - simpl. now rewrite String.eqb_refl.
  - intros Hin. apply keys_filter_in in Hin. contradiction.
Qed.
End DedupFacts.

(** ** Claims about the dedup cache *)

(** A cache as the first test of the suite leaves it: one transaction hash
    remembered at time 0, TTL 60 s, capacity 5000. *)
Example cache_after_first_call :
  Dedup.cache (snd (Dedup.checkAndRemember "0xabc" 0 (Dedup.new 60000 5000)))
  = [("0xabc"%string, 0)].
Proof. reflexivity. Qed.

(** C3, as written, fails: a call on a key that is present returns false
    and does not insert [(key, now)]; the entry keeps its first timestamp
    (here 0, not 500), so it expires 60 s after the first call whatever
    the later calls were. *)
Lemma checkAndRemember_present_key_not_refreshed :
  let c0 := snd (Dedup.checkAndRemember "0xabc" 0 (Dedup.new 60000 5000)) in
  let r := Dedup.checkAndRemember "0xabc" 500 c0 in
  fst r = false
  /\ JsMap.get "0xabc" (Dedup.cache (snd r)) = Some 0
  /\ JsMap.get "0xabc" (Dedup.cache (snd r)) <> Some 500
  /\ fst (Dedup.checkAndRemember "0xabc" 60001 (snd r)) = true.
Proof. vm_compute. repeat split; congruence. Qed.

(** The capacity step reads the oldest key and deletes it only when it is
    truthy: with the empty string as oldest key a cache of capacity 1
    holds two entries. *)
Example empty_oldest_key_is_not_evicted :
  let c1 := snd (Dedup.checkAndRemember "" 0 (Dedup.new 60000 1)) in
  let c2 := snd (Dedup.checkAndRemember "0xabc" 1 c1) in
  Dedup.cache c2 = [(""%string, 0); ("0xabc"%string, 1)]
  /\ Dedup.maxEntries c2 = 1.
Proof. split; reflexivity. Qed.

(** C3 (amended). [checkAndRemember key] at time [now] first removes
    exactly the entries with [now - timestamp > ttlMs]; it returns true if
    and only if [key] is absent from what remains. When it returns false
    the swept cache is left as it is (the entry of [key] keeps its
    timestamp). When it returns true, [(key, now)] is appended as the
    newest entry and, if the count then exceeds [maxEntries] and the
    oldest key is not the empty string, the oldest-inserted entry is
    removed. [size()] sweeps in the same way and returns the number of
    entries that remain. *)
Theorem checkAndRemember_contract
  (c : Dedup.InMemoryDedupCache) (key : string) (now : Z)
  (Hwf : JsMap.wf (Dedup.cache c)) :
  let swept := filter (fun e => now - snd e <=? Dedup.ttlMs c) (Dedup.cache c) in
  let r := Dedup.checkAndRemember key now c in
  (fst r = true <-> JsMap.get key swept = None)
  /\ (fst r = false -> Dedup.cache (snd r) = swept)
  /\ (fst r = true ->
      Z.of_nat (S (List.length swept)) <= Dedup.maxEntries c ->
      Dedup.cache (snd r) = (swept ++ [(key, now)])%list)
  /\ (fst r = true ->
      Dedup.maxEntries c < Z.of_nat (S (List.length swept)) ->
      forall oldestKey ts rest,
        (swept ++ [(key, now)])%list = (oldestKey, ts) :: rest ->
        oldestKey <> ""%string ->
        Dedup.cache (snd r) = rest)
  /\ Dedup.ttlMs (snd r) = Dedup.ttlMs c
  /\ Dedup.maxEntries (snd r) = Dedup.maxEntries c
  /\ JsMap.wf (Dedup.cache (snd r))
  /\ Dedup.size now c = (List.length swept, Dedup.withCache c swept).
Proof.
  intros swept r.
  assert (Hswept : Dedup.cache (Dedup.evictExpired now c) = swept)
    by apply evictExpired_cache.
  assert (Hwfs : JsMap.wf swept) by (apply wf_filter; exact Hwf).
  assert (Hsize : Dedup.size now c = (List.length swept, Dedup.withCache c swept)).
  { unfold Dedup.size. rewrite Hswept. unfold JsMap.size. f_equal.
    unfold Dedup.evictExpired. f_equal. rewrite <- Hswept. reflexivity. }
  subst r. unfold Dedup.checkAndRemember. rewrite Hswept.
  change (Dedup.maxEntries (Dedup.evictExpired now c)) with (Dedup.maxEntries c).
  destruct (JsMap.has key swept) eqn:Hhas.
  - cbn [fst snd]. rewrite Hswept.
    assert (Hget : JsMap.get key swept <> None).
    { unfold JsMap.has in Hhas. destruct (JsMap.get key swept); congruence. }
    repeat split; try congruence; auto; try (intros; contradiction).
  - cbn [fst snd Dedup.withCache Dedup.cache Dedup.ttlMs Dedup.maxEntries].
    apply has_false_iff in Hhas. rewrite (set_absent _ _ _ Hhas).
    assert (Hlen : JsMap.size (swept ++ [(key, now)]) = S (List.length swept)).
    { unfold JsMap.size. rewrite length_app. simpl. lia. }
    rewrite Hlen.
    assert (Hwfi : JsMap.wf (swept ++ [(key, now)])%list).
    { rewrite <- (set_absent _ _ _ Hhas). now apply wf_set. }
    repeat split; try congruence; auto.
    + intros _ Hfit.
      destruct (Z.ltb_spec (Dedup.maxEntries c) (Z.of_nat (S (List.length swept))));
        [lia | reflexivity].
    + intros _ Hbig oldestKey ts rest Hsplit Hne.
      destruct (Z.ltb_spec (Dedup.maxEntries c) (Z.of_nat (S (List.length swept))));
        [|lia].
      rewrite Hsplit in *. now apply evictOldest_wf_cons.
    + destruct (Z.ltb_spec (Dedup.maxEntries c) (Z.of_nat (S (List.length swept))));
        [|exact Hwfi].
      unfold Dedup.evictOldest.
      destruct (JsMap.firstKey (swept ++ [(key, now)])); [|exact Hwfi].
      destruct (truthy s); [now apply wf_delete | exact Hwfi].
Qed.

Lemma checkAndRemember_contract_witness :
  let c := snd (Dedup.checkAndRemember "0xabc" 0 (Dedup.new 60000 5000)) in
  JsMap.wf (Dedup.cache c)
  /\ Dedup.size 70000 c = (0%nat, Dedup.withCache c []).
Proof.
  assert (Hwf : JsMap.wf
            (Dedup.cache (snd (Dedup.checkAndRemember "0xabc" 0 (Dedup.new 60000 5000))))).
  { unfold JsMap.wf. simpl. constructor; [simpl; tauto | constructor]. }
  split; [exact Hwf|].
  exact (proj2 (proj2 (proj2 (proj2 (proj2 (proj2 (proj2
    (checkAndRemember_contract _ "0xdef" 70000 Hwf)))))))).
Defined.

(** C4, as written, fails: with capacity 1, accepting one other key
    between two calls on ["0xabc"] evicts it, and both calls return true
    although only 2 ms of a 60 s TTL have passed. *)
Lemma checkAndRemember_twice_true_after_capacity_eviction :
  let c := Dedup.new 60000 1 in
  let r1 := Dedup.checkAndRemember "0xabc" 0 c in
  let c2 := Dedup.runCalls [("0xdef"%string, 1)] (snd r1) in
  let r2 := Dedup.checkAndRemember "0xabc" 2 c2 in
  0 < 2 /\ 2 - 0 <= Dedup.ttlMs c /\ fst r1 = true /\ fst r2 = true.
Proof. vm_compute. repeat split; congruence. Qed.

(** C4 (amended). For every key [K] and two calls [checkAndRemember K] at
    times [t1 < t2] with [t2 - t1 <= ttlMs], at most one of the two
    returns true, provided that fewer than [maxEntries] calls of
    [checkAndRemember] (on any keys, none later than [t1 + ttlMs]) are
    made between them. *)
Theorem checkAndRemember_true_at_most_once
  (c : Dedup.InMemoryDedupCache) (K : string) (t1 t2 : Z)
  (mids : list (string * Z))
  (Horder : t1 < t2)
  (Hlive : t2 - t1 <= Dedup.ttlMs c)
  (Hmids : forall k t, In (k, t) mids -> t - t1 <= Dedup.ttlMs c)
  (Hroom : Z.of_nat (List.length mids) < Dedup.maxEntries c) :
  let r1 := Dedup.checkAndRemember K t1 c in
  let c2 := Dedup.runCalls mids (snd r1) in
  let r2 := Dedup.checkAndRemember K t2 c2 in
  ~ (fst r1 = true /\ fst r2 = true).
Proof.
  intros r1 c2 r2 [H1 H2].
  destruct (checkAndRemember_config K t1 c) as [Httl Hmax].
  destruct (fresh_key_is_last K t1 c) as (pre & Hc1 & Hpre); [lia | exact H1 |].
  destruct (run_keeps_key K t1 mids (snd r1) pre [] Hc1 Hpre)
    as (pre' & post' & Hc2 & Hpre' & Httl2).
  - intros k t Hin. subst r1. rewrite Httl. exact (Hmids k t Hin).
  - subst r1. rewrite Hmax. simpl. lia.
  - assert (Hr2 : fst r2 = false).
    { subst r2 c2. apply (present_is_refused K t1 t2 _ pre' post' Hc2 Hpre').
      rewrite Httl2. subst r1. rewrite Httl. exact Hlive. }
    congruence.
Qed.

Lemma checkAndRemember_true_at_most_once_witness :
  let c := Dedup.new 60000 5000 in
  let mids := [("0xdef"%string, 10); ("0x123"%string, 20)] in
  let r1 := Dedup.checkAndRemember "0xabc" 0 c in
  let r2 := Dedup.checkAndRemember "0xabc" 30 (Dedup.runCalls mids (snd r1)) in
  ~ (fst r1 = true /\ fst r2 = true).
Proof.
  apply (checkAndRemember_true_at_most_once
           (Dedup.new 60000 5000) "0xabc" 0 30
           [("0xdef"%string, 10); ("0x123"%string, 20)]).
  - lia.
  - vm_compute. congruence.
  - intros k t [E|[E|[]]]; inversion E; subst; vm_compute; congruence.
  - vm_compute. reflexivity.
Defined.

(** ** Claims about the dedup key *)

Section DedupKey.
Variable dateParse : string -> option Z.
Variable numberToString : Q -> string.
Variable TOO_OLD_SECONDS : Z.

Let buildKey := Dedup.buildActivityDedupKey numberToString.
Let process := Monitor.processActivity dateParse numberToString TOO_OLD_SECONDS.

Lemma falsy_hash_composite (q : QueueActivity) :
  transactionHash q = None \/ transactionHash q = Some ""%string ->
  buildKey q = Dedup.compositeKey numberToString q.
Proof.
  unfold buildKey, Dedup.buildActivityDedupKey.
  intros [-> | ->]; reflexivity.
Qed.

(** C10. For every falsy [transactionHash], the empty string included,
    [buildActivityDedupKey] returns the composite key: [userAddress],
    [conditionId], [timestamp], [side], [usdcSize] and [price] in that
    order, numbers rendered by [toString], a missing field rendered as the
    empty string, joined with [':']. Two feed elements that differ only in
    carrying an empty [transactionHash] or none get the same key, and when
    the monitor has published one of them, the other, arriving within the
    TTL, is dropped as a duplicate and not published. *)
Theorem empty_hash_falls_back_to_composite_key
  (a : ApiActivity) (address : string) (clk1 clk2 : Monitor.Clock)
  (st : Monitor.State) :
  (forall q : QueueActivity,
      transactionHash q = None \/ transactionHash q = Some ""%string ->
      let number (x : option Q) :=
        match x with Some n => numberToString n | None => ""%string end in
      buildKey q
      = String.append (userAddress q)
          (String.append ":"
             (String.append (conditionId q)
                (String.append ":"
                   (String.append (numberToString (inject_Z (timestamp q)))
                      (String.append ":"
                         (String.append
                            (match side q with Some s => s | None => ""%string end)
                            (String.append ":"
                               (String.append (number (usdcSize q))
                                  (String.append ":" (number (price q))))))))))))
  /\ (forall h1 h2 : option string,
         h1 = None \/ h1 = Some ""%string ->
         h2 = None \/ h2 = Some ""%string ->
         forall ms det1 det2,
           buildKey (Monitor.toQueueActivity (withTransactionHash h1 a) ms address det1)
           = buildKey (Monitor.toQueueActivity (withTransactionHash h2 a) ms address det2))
  /\ (forall h1 h2 : option string,
         h1 = None \/ h1 = Some ""%string ->
         h2 = None \/ h2 = Some ""%string ->
         1 <= Dedup.maxEntries (Monitor.dedup st) ->
         Monitor.cacheNow clk2 - Monitor.cacheNow clk1 <= Dedup.ttlMs (Monitor.dedup st) ->
         Monitor.skipped TOO_OLD_SECONDS (Monitor.nowMs clk2)
           (Monitor.normalizeTimestamp dateParse (api_timestamp a)) = false ->
         forall q st1,
           process address clk1 (withTransactionHash h1 a) st = (Monitor.Published q, st1) ->
           fst (process address clk2 (withTransactionHash h2 a) st1)
           = Monitor.DroppedDuplicate
           /\ Monitor.distributor (snd (process address clk2 (withTransactionHash h2 a) st1))
              = Monitor.distributor st1).
Proof.
  split; [|split].
  - intros q Hq number. rewrite (falsy_hash_composite q Hq).
    unfold Dedup.compositeKey, Dedup.showNum, Dedup.showStr. subst number.
    cbn [join]. reflexivity.
  - intros h1 h2 [-> | ->] [-> | ->] ms det1 det2; reflexivity.
  - intros h1 h2 Hh1 Hh2 Hmax Hlive Hfresh q st1.
    unfold process, Monitor.processActivity.
    cbn [api_timestamp withTransactionHash].
    destruct (Monitor.skipped TOO_OLD_SECONDS (Monitor.nowMs clk1) _);
      [discriminate|].
    rewrite Hfresh.
    set (ms := Monitor.normalizeTimestamp dateParse (api_timestamp a)).
    set (key := Dedup.buildActivityDedupKey numberToString
                  (Monitor.toQueueActivity (withTransactionHash h1 a) ms address
                     (Monitor.detectedAt clk1))).
    assert (Hkey : Dedup.buildActivityDedupKey numberToString
                     (Monitor.toQueueActivity (withTransactionHash h2 a) ms address
                        (Monitor.detectedAt clk2)) = key).
    { subst key. destruct Hh1 as [-> | ->], Hh2 as [-> | ->]; reflexivity. }
    rewrite Hkey.
    destruct (Dedup.checkAndRemember key (Monitor.cacheNow clk1) (Monitor.dedup st))
      as [fresh cache1] eqn:E1.
    destruct fresh; [|discriminate].
    intros [= _ <-]. cbn [Monitor.dedup Monitor.distributor].
    assert (H1 : fst (Dedup.checkAndRemember key (Monitor.cacheNow clk1) (Monitor.dedup st)) = true)
      by now rewrite E1.
    destruct (fresh_key_is_last _ _ _ Hmax H1) as (pre & Hc & Hpre).
    destruct (checkAndRemember_config key (Monitor.cacheNow clk1) (Monitor.dedup st))
      as [Httl _].
    rewrite E1 in Hc, Httl. cbn [snd] in Hc, Httl.
    assert (H2 : fst (Dedup.checkAndRemember key (Monitor.cacheNow clk2) cache1) = false).
    { apply (present_is_refused key (Monitor.cacheNow clk1) _ _ pre [] Hc Hpre).
      now rewrite Httl. }
    destruct (Dedup.checkAndRemember key (Monitor.cacheNow clk2) cache1) as [fresh2 cache2].
    cbn [fst] in H2. subst fresh2. split; reflexivity.
Qed.
End DedupKey.

Lemma empty_hash_falls_back_to_composite_key_witness :
  let process := Monitor.processActivity (fun _ => None) (fun _ => "n"%string) 3600 in
  let aEmpty := withTransactionHash (Some ""%string) sample_activity in
  let aAbsent := withTransactionHash None sample_activity in
  let st1 := snd (process "0xleader"%string (sample_clock 1762128001000) aEmpty sample_monitor) in
  fst (process "0xleader"%string (sample_clock 1762128002000) aAbsent st1)
  = Monitor.DroppedDuplicate.
Proof.
  intros process aEmpty aAbsent st1.
  refine (proj1 (proj2 (proj2
    (empty_hash_falls_back_to_composite_key (fun _ => None) (fun _ => "n"%string) 3600
       sample_activity "0xleader"%string
       (sample_clock 1762128001000) (sample_clock 1762128002000) sample_monitor))
    (Some ""%string) None (or_intror eq_refl) (or_introl eq_refl) _ _ _
    (Monitor.toQueueActivity aEmpty 1762128000000 "0xleader"%string 1762128001000)
    st1 _)).
  - vm_compute. congruence.
  - vm_compute. congruence.
  - vm_compute. reflexivity.
  - vm_compute. reflexivity.
Defined.

(** ** The activity distributor *)

Section DistributorFacts.
Implicit Types (st : Distributor.State) (a : QueueActivity).

(** [d] is the endpoint of a registered worker. *)
Let registered (st : Distributor.State) (d : Distributor.WorkerEndpoint) : Prop :=
  exists w, In w (Distributor.workerPorts st) /\ Distributor.endpoint w = d.

Lemma pickWorker_some st :
  Distributor.workerPorts st <> [] ->
  exists w st',
    Distributor.pickWorker st = (Some w, st')
    /\ In w (Distributor.workerPorts st)
    /\ Distributor.workerPorts st' = Distributor.workerPorts st
    /\ Distributor.backlog st' = Distributor.backlog st
    /\ Distributor.posted st' = Distributor.posted st.
Proof.
  intros Hne. unfold Distributor.pickWorker.
  destruct (Distributor.workerPorts st) as [|w0 ws] eqn:E; [contradiction|].
  eexists. eexists. split; [reflexivity|].
  split; [|repeat split; simpl; auto].
  apply nth_In. apply Nat.mod_upper_bound. simpl. lia.
Qed.

Lemma pickWorker_none st :
  Distributor.workerPorts st = [] -> Distributor.pickWorker st = (None, st).
Proof. intros E. unfold Distributor.pickWorker. now rewrite E. Qed.

(** The flush loop posts the pending activities in order, one message
    each, every one to a registered endpoint, and leaves no backlog. *)
Lemma flushLoop_delivers (pending : list QueueActivity) :
  forall st,
    Distributor.workerPorts st <> [] ->
    exists dests,
      List.length dests = List.length pending
      /\ Forall (registered st) dests
      /\ Distributor.posted (Distributor.flushLoop pending st)
         = (Distributor.posted st
            ++ combine dests (map Distributor.MsgActivity pending))%list
      /\ Distributor.workerPorts (Distributor.flushLoop pending st)
         = Distributor.workerPorts st
      /\ Distributor.backlog (Distributor.flushLoop pending st)
         = match pending with [] => Distributor.backlog st | _ :: _ => [] end.
Proof.
  induction pending as [|a rest IH]; intros st Hne.
  - exists []. simpl. rewrite app_nil_r. repeat split; auto.
  - cbn [Distributor.flushLoop].
    destruct (Distributor.workerPorts st) as [|w0 ws] eqn:Ews; [contradiction|].
    assert (Hne1 : Distributor.workerPorts (Distributor.setBacklog rest st) <> [])
      by (simpl; rewrite Ews; discriminate).
    destruct (pickWorker_some _ Hne1) as (w & st2 & Hpick & Hin & Hws & Hbl & Hpo).
    rewrite Hpick.
    set (st3 := Distributor.send (Distributor.endpoint w) (Distributor.MsgActivity a) st2).
    assert (Hws3 : Distributor.workerPorts st3 = Distributor.workerPorts st)
      by (subst st3; simpl; rewrite Hws; reflexivity).
    destruct (IH st3) as (dests & Hlen & Hall & Hposted & Hports & Hback).
    { rewrite Hws3, Ews. discriminate. }
    exists (Distributor.endpoint w :: dests).
    split; [simpl; now rewrite Hlen|].
    split.
    { constructor.
      - exists w. split; [|reflexivity]. exact Hin.
      - eapply Forall_impl; [|exact Hall].
        intros d (w' & Hin' & Hd). exists w'. split; [|exact Hd].
        rewrite Hws3 in Hin'. exact Hin'. }
    split.
    { rewrite Hposted. subst st3. cbn [Distributor.send Distributor.posted].
      rewrite Hpo. cbn [Distributor.setBacklog Distributor.posted map combine].
      now rewrite <- app_assoc. }
    split; [now rewrite Hports, Hws3|].
    rewrite Hback. destruct rest; [|reflexivity].
    subst st3. cbn [Distributor.send Distributor.backlog]. rewrite Hbl. reflexivity.
Qed.

(** C1. [publishActivityToWorkers] posts the activity to exactly one
    registered worker and leaves the backlog alone when a worker is
    registered, and appends it to the backlog, posting nothing, when none
    is; [registerWorkerEndpoint] then posts every backlog entry exactly
    once, in backlog order, each to one registered worker, and leaves the
    backlog empty. *)
Theorem publish_delivers_once_or_backlogs st a :
  (Distributor.workerPorts st <> [] ->
   exists w,
     In w (Distributor.workerPorts st)
     /\ Distributor.posted (Distributor.publishActivityToWorkers a st)
        = (Distributor.posted st
           ++ [(Distributor.endpoint w, Distributor.MsgActivity a)])%list
     /\ Distributor.backlog (Distributor.publishActivityToWorkers a st)
        = Distributor.backlog st)
  /\ (Distributor.workerPorts st = [] ->
      Distributor.backlog (Distributor.publishActivityToWorkers a st)
      = (Distributor.backlog st ++ [a])%list
      /\ Distributor.posted (Distributor.publishActivityToWorkers a st)
         = Distributor.posted st)
  /\ (forall i e,
         let st' := Distributor.registerWorkerEndpoint i e st in
         Distributor.backlog st' = []
         /\ Distributor.workerPorts st'
            = (Distributor.workerPorts st
               ++ [{| Distributor.id := i; Distributor.endpoint := e |}])%list
         /\ exists dests,
             List.length dests = List.length (Distributor.backlog st)
             /\ Forall (registered st') dests
             /\ Distributor.posted st'
                = (Distributor.posted st
                   ++ combine dests
                        (map Distributor.MsgActivity (Distributor.backlog st)))%list).
Proof.
  split; [|split].
  - intros Hne. unfold Distributor.publishActivityToWorkers.
    destruct (pickWorker_some st Hne) as (w & st' & Hpick & Hin & _ & Hbl & Hpo).
    rewrite Hpick. exists w. simpl. rewrite Hpo, Hbl. auto.
  - intros Hempty. unfold Distributor.publishActivityToWorkers.
    rewrite (pickWorker_none st Hempty). simpl. auto.
  - intros i e st'. subst st'.
    unfold Distributor.registerWorkerEndpoint, Distributor.flushBacklog.
    cbn [Distributor.backlog].
    set (st1 := {| Distributor.workerPorts :=
                     (Distributor.workerPorts st
                      ++ [{| Distributor.id := i; Distributor.endpoint := e |}])%list;
                   Distributor.roundRobinIndex := Distributor.roundRobinIndex st;
                   Distributor.backlog := Distributor.backlog st;
                   Distributor.posted := Distributor.posted st |}).
    destruct (flushLoop_delivers (Distributor.backlog st) st1)
      as (dests & Hlen & Hall & Hposted & Hports & Hback).
    { subst st1. simpl. intros E. apply app_eq_nil in E. destruct E; discriminate. }
    split.
    { rewrite Hback. destruct (Distributor.backlog st); reflexivity. }
    split; [exact Hports|].
    exists dests. split; [exact Hlen|]. split; [|exact Hposted].
    eapply Forall_impl; [|exact Hall].
    intros d (w & Hin & Hd). exists w. split; [|exact Hd].
    rewrite Hports. exact Hin.
Qed.

(** Scenario: six activities published to three registered workers go
    round-robin, two to each endpoint. *)
Example round_robin_three_workers :
  let q := Monitor.toQueueActivity sample_activity 1762128000000 "0xleader" 1 in
  let st := Distributor.registerWorkerEndpoint 3 30%nat
              (Distributor.registerWorkerEndpoint 2 20%nat
                 (Distributor.registerWorkerEndpoint 1 10%nat Distributor.initial)) in
  let st' := fold_left (fun s _ => Distributor.publishActivityToWorkers q s)
               (seq 0 6) st in
  map fst (Distributor.posted st') = [10; 20; 30; 10; 20; 30]%nat
  /\ Distributor.backlog st' = [].
Proof. split; reflexivity. Qed.

Lemma publish_delivers_once_or_backlogs_witness :
  let st0 := Distributor.publishActivityToWorkers
               (Monitor.toQueueActivity sample_activity 1762128000000 "0xleader" 1)
               Distributor.initial in
  Distributor.backlog (Distributor.registerWorkerEndpoint 1 7%nat st0) = []
  /\ List.length (Distributor.posted (Distributor.registerWorkerEndpoint 1 7%nat st0))
     = 1%nat.
Proof.
  intros st0.
  destruct (proj2 (proj2 (publish_delivers_once_or_backlogs st0
              (Monitor.toQueueActivity sample_activity 0 "0xleader" 1))) 1 7%nat)
    as (Hb & _ & dests & Hlen & _ & Hposted).
  split; [exact Hb|].
  rewrite Hposted, length_app, length_combine, Hlen, length_map. reflexivity.
Defined.
End DistributorFacts.

(** ** The monitor's timestamp normalisation and age filter *)

Section MonitorFacts.
Variable dateParse : string -> option Z.
Variable numberToString : Q -> string.
Variable TOO_OLD_SECONDS : Z.

Let normalize := Monitor.normalizeTimestamp dateParse.
Let process := Monitor.processActivity dateParse numberToString TOO_OLD_SECONDS.

Lemma skipped_true_iff nowMs activityMs :
  Monitor.skipped TOO_OLD_SECONDS nowMs activityMs = true
  <-> activityMs = 0 \/ nowMs - activityMs > TOO_OLD_SECONDS * 1000.
Proof.
  unfold Monitor.skipped, Monitor.tooOldMs.
  rewrite orb_true_iff, Z.eqb_eq, Z.ltb_lt. lia.
Qed.

Lemma process_dropped_iff address clk activity st :
  fst (process address clk activity st) = Monitor.DroppedTimestamp
  <-> Monitor.skipped TOO_OLD_SECONDS (Monitor.nowMs clk)
        (normalize (api_timestamp activity)) = true.
Proof.
  unfold process, normalize, Monitor.processActivity.
  destruct (Monitor.skipped _ _ _); [tauto|].
  destruct (Dedup.checkAndRemember _ _ _) as [[|] cache']; simpl;
    split; discriminate.
Qed.

(** C9 (amended). A numeric timestamp above 10^12 is taken as
    milliseconds, any other number (10^12 included) as seconds and
    multiplied by 1000, a string is parsed as a date, and an unparseable
    string or a value of another type gives 0. An activity whose
    normalised timestamp is 0 is dropped; any other activity is dropped by
    the age filter exactly when [nowMs - activityMs > tooOldSeconds * 1000],
    so one whose age equals the threshold is kept. A dropped activity
    changes nothing: it reaches neither the dedup cache nor the
    distributor; a published one carries the normalised timestamp. *)
Theorem timestamp_normalisation_and_age_filter
  (address : string) (clk : Monitor.Clock) (activity : ApiActivity)
  (st : Monitor.State) :
  let activityMs := normalize (api_timestamp activity) in
  let r := process address clk activity st in
  (forall n, 1000000000000 < n -> normalize (TsNumber n) = n)
  /\ (forall n, n <= 1000000000000 -> normalize (TsNumber n) = n * 1000)
  /\ (forall s parsed, dateParse s = Some parsed -> normalize (TsString s) = parsed)
  /\ (forall s, dateParse s = None -> normalize (TsString s) = 0)
  /\ normalize TsOther = 0
  /\ (activityMs = 0 -> fst r = Monitor.DroppedTimestamp)
  /\ (activityMs <> 0 ->
      (fst r = Monitor.DroppedTimestamp
       <-> Monitor.nowMs clk - activityMs > TOO_OLD_SECONDS * 1000))
  /\ (fst r = Monitor.DroppedTimestamp -> snd r = st)
  /\ (forall q, fst r = Monitor.Published q ->
        timestamp q = activityMs
        /\ Monitor.distributor (snd r)
           = Distributor.publishActivityToWorkers q (Monitor.distributor st)).
Proof.
  intros activityMs r.
  split.
  { intros n Hn. unfold normalize. simpl.
    destruct (Z.ltb_spec 1000000000000 n); [reflexivity | lia]. }
  split.
  { intros n Hn. unfold normalize. simpl.
    destruct (Z.ltb_spec 1000000000000 n); [lia | reflexivity]. }
  split; [intros s parsed E; unfold normalize; simpl; now rewrite E|].
  split; [intros s E; unfold normalize; simpl; now rewrite E|].
  split; [reflexivity|].
  split.
  { intros H0. apply process_dropped_iff. apply skipped_true_iff. now left. }
  split.
  { intros Hne. subst r. rewrite process_dropped_iff, skipped_true_iff.
    fold activityMs. tauto. }
  split.
  { subst r. unfold process, Monitor.processActivity.
    destruct (Monitor.skipped _ _ _); [reflexivity|].
    destruct (Dedup.checkAndRemember _ _ _) as [[|] cache']; simpl; discriminate. }
  intros q. subst r. unfold process, Monitor.processActivity.
  destruct (Monitor.skipped _ _ _); [discriminate|].
  destruct (Dedup.checkAndRemember _ _ _) as [[|] cache']; simpl; [|discriminate].
  intros [= <-]. split; reflexivity.
Qed.
End MonitorFacts.

(** The two boundary readings of a numeric timestamp. *)
Example timestamp_1e12_is_seconds :
  Monitor.normalizeTimestamp (fun _ => None) (TsNumber 1000000000000)
  = 1000000000000000.
Proof. reflexivity. Qed.

Example timestamp_1e12_plus_1_is_ms :
  Monitor.normalizeTimestamp (fun _ => None) (TsNumber 1000000000001)
  = 1000000000001.
Proof. reflexivity. Qed.

(** An activity exactly [TOO_OLD_SECONDS] old passes the age filter. *)
Example age_at_threshold_is_kept :
  Monitor.skipped 3600 (1762128000000 + 3600 * 1000) 1762128000000 = false.
Proof. reflexivity. Qed.

(** C9, as written, fails on a timestamp of 0: it is a number not above
    10^12, so it is taken as 0 seconds, and with a threshold of 2 * 10^9
    seconds its age is within the threshold; the activity is dropped all
    the same, because 0 is also the marker of an unknown timestamp. *)
Lemma epoch_zero_dropped_within_threshold :
  let tooOldSeconds := 2000000000 in
  let nowMs := 1762128000000 in
  let activity := withTransactionHash (Some "0xabc"%string)
                    {| api_transactionHash := None;
                       api_conditionId := "cond-1";
                       api_asset := "asset-1";
                       api_side := Some "BUY"%string;
                       api_price := Some (1 # 2)%Q;
                       api_size := Some 10%Q;
                       api_usdcSize := Some 5%Q;
                       api_timestamp := TsNumber 0;
                       api_slug := None;
                       api_eventSlug := None |} in
  let activityMs := Monitor.normalizeTimestamp (fun _ => None) (api_timestamp activity) in
  activityMs = 0 * 1000
  /\ ~ (nowMs - activityMs > tooOldSeconds * 1000)
  /\ fst (Monitor.processActivity (fun _ => None) (fun _ => "n"%string) tooOldSeconds
            "0xleader" (sample_clock nowMs) activity sample_monitor)
     = Monitor.DroppedTimestamp.
Proof. vm_compute. repeat split. intros H. discriminate H. Qed.

(** ** The paper trader *)

Section PaperFacts.
Local Open Scope Q_scope.
Implicit Types (pt : Paper.PaperTrader) (trade : QueueActivity)
               (m : JsMap.t Paper.Position).

Lemma Qltb_true_iff x y : Qltb x y = true <-> x < y.
Proof.
  unfold Qltb. rewrite negb_true_iff. split.
  - intros H. apply Qnot_le_lt. intros Hle.
    apply Qle_bool_iff in Hle. congruence.
  - intros Hlt. destruct (Qle_bool y x) eqn:E; [|reflexivity].
    apply Qle_bool_iff in E. exfalso. exact (Qlt_not_le _ _ Hlt E).
Qed.

Lemma Qltb_false_iff x y : Qltb x y = false <-> y <= x.
Proof.
  unfold Qltb. rewrite negb_false_iff. apply Qle_bool_iff.
Qed.

End PaperFacts.

(** ** Claims about the paper trader *)

Section PaperClaims.
Local Open Scope Q_scope.

(** C6. [executeTrade] returns false exactly when the trade is a BUY whose
    [usdcSize] exceeds the balance, or is not a BUY (a SELL) and either no
    position exists for its market or its [size] exceeds the position's;
    in that case the trader is left unchanged. A SELL of exactly the
    position's size is accepted and removes the position from the map. *)
Theorem executeTrade_refusal (trade : QueueActivity) (pt : Paper.PaperTrader) :
  let r := Paper.executeTrade trade pt in
  let usdc := orZero (usdcSize trade) in
  let sz := orZero (size trade) in
  let held := JsMap.get (conditionId trade) (Paper.positions pt) in
  (fst r = false <->
   (isBuy (side trade) = true /\ Paper.balance pt < usdc)
   \/ (isBuy (side trade) = false
       /\ (held = None \/ exists existing, held = Some existing
                                           /\ Paper.pos_size existing < sz)))
  /\ (fst r = false -> snd r = pt)
  /\ (isBuy (side trade) = false ->
      forall existing,
        held = Some existing -> Paper.pos_size existing == sz ->
        fst r = true
        /\ JsMap.get (conditionId trade) (Paper.positions (snd r)) = None).
Proof.
  intros r usdc sz held. subst r held.
  unfold Paper.executeTrade. fold usdc sz.
  destruct (isBuy (side trade)).
  - destruct (Qltb (Paper.balance pt) usdc) eqn:Hlt; cbn [fst snd].
    + apply Qltb_true_iff in Hlt. split; [|split; [reflexivity | discriminate]].
      split; [intros _; left; auto | reflexivity].
    + apply Qltb_false_iff in Hlt. split; [|split; discriminate].
      split; [discriminate|].
      intros [[_ H]|[H _]]; [|discriminate].
      exfalso. exact (Qlt_not_le _ _ H Hlt).
  - destruct (JsMap.get (conditionId trade) (Paper.positions pt)) as [e|] eqn:G.
    + destruct (Qltb (Paper.pos_size e) sz) eqn:Hlt; cbn [fst snd].
      * apply Qltb_true_iff in Hlt. split; [|split; [reflexivity|]].
        -- split; [|reflexivity]. intros _. right. split; [reflexivity|].
           right. exists e. auto.
        -- intros _ existing [= <-] E. exfalso.
           rewrite E in Hlt. exact (Qlt_irrefl _ Hlt).
      * apply Qltb_false_iff in Hlt. split; [|split; [discriminate|]].
        -- split; [discriminate|].
           intros [[H _]|[_ [H|(x & [= <-] & H)]]]; try discriminate.
           exfalso. exact (Qlt_not_le _ _ H Hlt).
        -- intros _ existing [= <-] E. split; [reflexivity|].
           cbn [Paper.positions].
           assert (Hz : Qeq_bool (Paper.pos_size e - sz) 0 = true).
           { apply Qeq_bool_iff. rewrite E. ring. }
           rewrite Hz. apply get_delete_same.
    + cbn [fst snd]. split; [|split; [reflexivity|]].
      * split; [|reflexivity]. intros _. right. auto.
      * intros _ existing H. discriminate H.
Qed.
End PaperClaims.

(** ** Signs of double-precision sums and differences *)

Section Binary64Facts.

Let signedAs (s : bool) (x : spec_float) : Prop :=
  match x with
  | S754_zero s' | S754_infinity s' | S754_finite s' _ _ => s' = s
  | S754_nan => False
  end.

Lemma iter_pos_invariant {A : Type} (P : A -> Prop) (f : A -> A) :
  (forall x, P x -> P (f x)) -> forall p x, P x -> P (iter_pos f p x).
Proof.
  intros Hf. induction p as [p IH|p IH|]; intros x Hx; cbn [iter_pos]; auto.
Qed.

Lemma shr_1_nonneg mrs : 0 <= shr_m mrs -> 0 <= shr_m (shr_1 mrs).
Proof.
  destruct mrs as [m r s]. cbn [shr_m]. intros Hm.
  destruct m as [|[p|p|]|p]; cbn; lia.
Qed.

Lemma shr_fexp_nonneg m e l :
  0 <= m -> 0 <= shr_m (fst (shr_fexp prec emax m e l)).
Proof.
  intros Hm. unfold shr_fexp, shr.
  assert (H0 : 0 <= shr_m (shr_record_of_loc m l)).
  { destruct l as [|[| |]]; exact Hm. }
  destruct (fexp prec emax (Zdigits2 m + e) - e); cbn [fst]; try exact H0.
  apply (iter_pos_invariant (fun x => 0 <= shr_m x)); [exact shr_1_nonneg | exact H0].
Qed.

Lemma round_nearest_even_nonneg m l : 0 <= m -> 0 <= round_nearest_even m l.
Proof.
  intros Hm. destruct l as [|[| |]]; cbn; try lia. destruct (Z.even m); lia.
Qed.

(** Rounding keeps the sign it is given. *)
Lemma binary_round_aux_sign s m e l :
  0 <= m -> signedAs s (binary_round_aux prec emax s m e l).
Proof.
  intros Hm. unfold binary_round_aux.
  pose proof (shr_fexp_nonneg m e l Hm) as H1.
  destruct (shr_fexp prec emax m e l) as [mrs' e'] eqn:E1. cbn [fst] in H1.
  pose proof (shr_fexp_nonneg _ e' loc_Exact
                (round_nearest_even_nonneg _ (loc_of_shr_record mrs') H1)) as H2.
  destruct (shr_fexp prec emax _ e' loc_Exact) as [mrs'' e''] eqn:E2. cbn [fst] in H2.
  destruct (shr_m mrs'') as [|p|p]; [reflexivity | | lia].
  destruct (e'' <=? emax - prec); reflexivity.
Qed.

Lemma binary_normalize_nonneg m e :
  0 <= m -> signedAs false (binary_normalize prec emax m e false).
Proof.
  intros Hm. destruct m as [|p|p]; [reflexivity | | lia].
  cbn [binary_normalize]. unfold binary_round.
  destruct (shl_align p e _) as [mz ez]. apply binary_round_aux_sign. lia.
Qed.

Lemma signedAs_not_below_zero x :
  signedAs false x ->
  SFltb x (S754_zero false) = false /\ SFleb (S754_zero false) x = true.
Proof.
  destruct x as [s|s| |s m e]; cbn; intros H; subst; try contradiction;
    split; reflexivity.
Qed.

Lemma digits2_pos_bounds m :
  2 ^ (Zpos (digits2_pos m) - 1) <= Zpos m < 2 ^ Zpos (digits2_pos m).
Proof.
  induction m as [m IH|m IH|]; cbn [digits2_pos].
  - rewrite Pos2Z.inj_succ.
    replace (Z.succ (Zpos (digits2_pos m)) - 1)
      with (Z.succ (Zpos (digits2_pos m) - 1)) by lia.
    rewrite !Z.pow_succ_r by lia. lia.
  - rewrite Pos2Z.inj_succ.
    replace (Z.succ (Zpos (digits2_pos m)) - 1)
      with (Z.succ (Zpos (digits2_pos m) - 1)) by lia.
    rewrite !Z.pow_succ_r by lia. lia.
  - cbn. lia.
Qed.

Lemma iter_xO_value m d : Zpos (Pos.iter xO m d) = Zpos m * 2 ^ Zpos d.
Proof.
  induction d as [|d IH] using Pos.peano_ind.
  - cbn. lia.
  - rewrite Pos.iter_succ, Pos2Z.inj_xO, IH, Pos2Z.inj_succ, Z.pow_succ_r by lia. lia.
Qed.

Lemma shl_align_value m e e' :
  e' <= e -> Zpos (fst (shl_align m e e')) = Zpos m * 2 ^ (e - e').
Proof.
  intros Hle. unfold shl_align.
  destruct (e' - e) as [|d|d] eqn:E; cbn [fst].
  - replace (e - e') with 0 by lia. cbn. lia.
  - lia.
  - rewrite iter_xO_value. f_equal. f_equal. lia.
Qed.

Lemma bounded_inv m e :
  bounded prec emax m e = true ->
  emin <= e /\ Zpos (digits2_pos m) <= prec
  /\ (emin < e -> Zpos (digits2_pos m) = prec).
Proof.
  unfold bounded, canonical_mantissa, fexp. intros H.
  apply andb_prop in H. destruct H as [H _]. apply Z.eqb_eq in H.
  unfold SpecFloat.emin in *. lia.
Qed.

(** Two positive finite doubles, the first not below the second, put on
    their common exponent. *)
Lemma aligned_order m1 e1 m2 e2 :
  bounded prec emax m1 e1 = true -> bounded prec emax m2 e2 = true ->
  match e1 ?= e2 with
  | Lt => Lt | Gt => Gt | Eq => Pos.compare_cont Eq m1 m2
  end <> Lt ->
  Zpos (fst (shl_align m2 e2 (Z.min e1 e2)))
  <= Zpos (fst (shl_align m1 e1 (Z.min e1 e2))).
Proof.
  intros B1 B2 Hcmp.
  rewrite !shl_align_value by lia.
  destruct (Z.compare_spec e1 e2) as [->|Hlt|Hgt].
  - rewrite Z.min_id, Z.sub_diag. cbn.
    fold (Pos.compare m1 m2) in Hcmp. apply Pos.compare_ge_iff in Hcmp. lia.
  - contradiction.
  - rewrite Z.min_r by lia. rewrite Z.sub_diag, Z.pow_0_r, Z.mul_1_r.
    destruct (bounded_inv _ _ B1) as (_ & _ & Hd1).
    destruct (bounded_inv _ _ B2) as (Hmin & Hd2 & _).
    pose proof (digits2_pos_bounds m1) as D1. pose proof (digits2_pos_bounds m2) as D2.
    rewrite Hd1 in D1 by lia.
    assert (Zpos m2 < 2 ^ prec).
    { eapply Z.lt_le_trans; [apply D2|]. apply Z.pow_le_mono_r; lia. }
    assert (2 ^ 1 <= 2 ^ (e1 - e2)) by (apply Z.pow_le_mono_r; lia).
    assert (2 ^ prec = 2 ^ (prec - 1) * 2 ^ 1)
      by (rewrite <- Z.pow_add_r; [f_equal; lia | unfold prec; lia | lia]).
    nia.
Qed.

Lemma SFsub_not_negative x y :
  valid_binary x = true -> valid_binary y = true ->
  SFltb x y = false ->
  SFltb (SF64sub x y) (S754_zero false) = false.
Proof.
  intros Vx Vy Hlt.
  destruct x as [sx|sx| |sx mx ex], y as [sy|sy| |sy my ey];
    try (now destruct sx, sy); try (now destruct sx); try (now destruct sy);
    try reflexivity.
  cbn [valid_binary] in Vx, Vy.
  unfold SF64sub, SFsub.
  apply signedAs_not_below_zero.
  apply binary_normalize_nonneg.
  unfold SFltb, SFcompare in Hlt.
  destruct sx, sy; cbn [cond_Zopp].
  - assert (H := aligned_order my ey mx ex Vy Vx).
    rewrite (Z.min_comm ey ex) in H.
    assert (Hc : match ey ?= ex with
                 | Lt => Lt | Gt => Gt | Eq => Pos.compare_cont Eq my mx
                 end <> Lt).
    { rewrite (Z.compare_antisym ex ey). fold (Pos.compare my mx).
      rewrite (Pos.compare_antisym mx my). fold (Pos.compare mx my) in Hlt.
      destruct (ex ?= ey); cbn in *; try discriminate; try congruence.
      destruct (mx ?= my)%positive; cbn in *; congruence. }
    specialize (H Hc). lia.
  - discriminate.
  - lia.
  - assert (H := aligned_order mx ex my ey Vx Vy).
    assert (Hc : match ex ?= ey with
                 | Lt => Lt | Gt => Gt | Eq => Pos.compare_cont Eq mx my
                 end <> Lt).
    { destruct (ex ?= ey); try discriminate; try congruence.
      destruct (Pos.compare_cont Eq mx my); congruence. }
    specialize (H Hc). lia.
Qed.

Lemma SFadd_nonneg x y :
  SFleb (S754_zero false) x = true -> SFleb (S754_zero false) y = true ->
  SFleb (S754_zero false) (SF64add x y) = true.
Proof.
  intros Hx Hy.
  destruct x as [sx|sx| |sx mx ex], y as [sy|sy| |sy my ey];
    try (now destruct sx, sy); try (now destruct sx); try (now destruct sy);
    try discriminate.
  destruct sx; [discriminate|]. destruct sy; [discriminate|].
  unfold SF64add, SFadd. apply signedAs_not_below_zero. apply binary_normalize_nonneg.
  cbn [cond_Zopp]. lia.
Qed.

(** [x - y] is not negative unless [x < y]: rounding does not change the
    sign of a difference. This holds of every pair of doubles, [NaN] and
    the infinities included. *)
Lemma sub_not_negative (x y : float) :
  (x <? y)%float = false -> (x - y <? 0)%float = false.
Proof.
  rewrite !ltb_spec, sub_spec. intros H.
  apply SFsub_not_negative; [apply Prim2SF_valid | apply Prim2SF_valid | exact H].
Qed.

(** The sum of two doubles that are not negative is not negative. *)
Lemma add_nonneg (x y : float) :
  (0 <=? x)%float = true -> (0 <=? y)%float = true -> (0 <=? x + y)%float = true.
Proof. rewrite !leb_spec, add_spec. apply SFadd_nonneg. Qed.

End Binary64Facts.

(** ** The paper trader in double precision *)

Section Binary64Paper.
Local Open Scope Q_scope.

Let invested (e : string * Binary64.Paper.Position) : Q :=
  Binary64.realValue (Binary64.Paper.pos_invested (snd e)).

Lemma realInvested_set_present k (v old : Binary64.Paper.Position)
      (m : JsMap.t Binary64.Paper.Position) :
  JsMap.get k m = Some old ->
  Binary64.Paper.realInvested (JsMap.set k v m)
  == Binary64.Paper.realInvested m
     - Binary64.realValue (Binary64.Paper.pos_invested old)
     + Binary64.realValue (Binary64.Paper.pos_invested v).
Proof.
  induction m as [|[k' v'] m IH]; cbn [JsMap.get JsMap.set]; [discriminate|].
  destruct (String.eqb k k').
  - intros [= ->]. cbn [Binary64.Paper.realInvested fold_right snd]. ring.
  - intros G. cbn [Binary64.Paper.realInvested fold_right snd].
    fold (Binary64.Paper.realInvested (JsMap.set k v m)).
    fold (Binary64.Paper.realInvested m). rewrite (IH G). ring.
Qed.

Lemma realInvested_set_absent k (v : Binary64.Paper.Position)
      (m : JsMap.t Binary64.Paper.Position) :
  JsMap.get k m = None ->
  Binary64.Paper.realInvested (JsMap.set k v m)
  == Binary64.Paper.realInvested m
     + Binary64.realValue (Binary64.Paper.pos_invested v).
Proof.
  induction m as [|[k' v'] m IH]; cbn [JsMap.get JsMap.set].
  - intros _. cbn [Binary64.Paper.realInvested fold_right snd]. ring.
  - destruct (String.eqb k k'); [discriminate|].
    intros G. cbn [Binary64.Paper.realInvested fold_right snd].
    fold (Binary64.Paper.realInvested (JsMap.set k v m)).
    fold (Binary64.Paper.realInvested m). rewrite (IH G). ring.
Qed.

Lemma realInvested_delete k (old : Binary64.Paper.Position)
      (m : JsMap.t Binary64.Paper.Position) :
  JsMap.wf m -> JsMap.get k m = Some old ->
  Binary64.Paper.realInvested (JsMap.delete k m)
  == Binary64.Paper.realInvested m
     - Binary64.realValue (Binary64.Paper.pos_invested old).
Proof.
  intros Hwf G.
  destruct (in_split _ _ (get_some_in _ _ _ G)) as (m1 & m2 & ->).
  destruct (delete_middle _ _ _ _ Hwf) as (-> & _ & _ & _).
  unfold Binary64.Paper.realInvested. rewrite !fold_right_app.
  cbn [fold_right snd].
  set (f := fun (e : string * Binary64.Paper.Position) acc =>
              Binary64.realValue (Binary64.Paper.pos_invested (snd e)) + acc).
  assert (Hshift : forall l a, fold_right f a l == fold_right f 0 l + a).
  { induction l as [|x l IHl]; intros a; cbn [fold_right]; [ring|].
    unfold f at 1 3. rewrite (IHl a). ring. }
  rewrite (Hshift m1 (fold_right f 0 m2)).
  rewrite (Hshift m1 (_ + fold_right f 0 m2)). ring.
Qed.

(** C5. [executeTrade] in double precision. An accepted BUY sets the
    balance to [balance - usdcSize] and the position's [invested] to
    [invested + usdcSize] (from 0 for a new position), each rounded to a
    double, and changes no other position: [balance + Σ invested] changes
    by exactly the rounding errors of these two operations, and is
    preserved when neither rounds. An accepted SELL sets the balance to
    [balance + usdcSize]; when the position stays open its [invested]
    becomes [invested - usdcSize] and the sum again changes by the two
    rounding errors only; when the position is closed (its size reaches 0
    and it is deleted) the sum grows by [usdcSize - invested_before], plus
    the rounding error of the balance. An accepted BUY never leaves the
    balance negative, and an accepted SELL with a non-negative [usdcSize]
    keeps a non-negative balance non-negative. *)
Theorem executeTrade_equity
  (trade : Binary64.QueueActivity) (pt : Binary64.Paper.PaperTrader)
  (Hwf : JsMap.wf (Binary64.Paper.positions pt))
  (Haccepted : fst (Binary64.Paper.executeTrade trade pt) = true) :
  let usdc := Binary64.orZero (Binary64.usdcSize trade) in
  let sz := Binary64.orZero (Binary64.size trade) in
  let cid := Binary64.conditionId trade in
  let pt' := snd (Binary64.Paper.executeTrade trade pt) in
  let held := JsMap.get cid (Binary64.Paper.positions pt) in
  let invested0 :=
    match held with Some e => Binary64.Paper.pos_invested e | None => 0%float end in
  let balance0 := Binary64.Paper.balance pt in
  (forall c, c <> cid ->
             JsMap.get c (Binary64.Paper.positions pt')
             = JsMap.get c (Binary64.Paper.positions pt))
  /\ (isBuy (Binary64.side trade) = true ->
      Binary64.Paper.balance pt' = (balance0 - usdc)%float
      /\ (exists p,
             JsMap.get cid (Binary64.Paper.positions pt') = Some p
             /\ Binary64.Paper.pos_invested p = (invested0 + usdc)%float)
      /\ Binary64.Paper.realEquity pt'
         == Binary64.Paper.realEquity pt
            + Binary64.subError balance0 usdc + Binary64.addError invested0 usdc
      /\ (Binary64.Paper.balance pt' <? 0)%float = false)
  /\ (isBuy (Binary64.side trade) = false ->
      exists e,
        held = Some e
        /\ Binary64.Paper.balance pt' = (balance0 + usdc)%float
        /\ ((Binary64.Paper.pos_size e - sz =? 0)%float = false ->
            (exists p,
                JsMap.get cid (Binary64.Paper.positions pt') = Some p
                /\ Binary64.Paper.pos_invested p
                   = (Binary64.Paper.pos_invested e - usdc)%float)
            /\ Binary64.Paper.realEquity pt'
               == Binary64.Paper.realEquity pt
                  + Binary64.addError balance0 usdc
                  + Binary64.subError (Binary64.Paper.pos_invested e) usdc)
        /\ ((Binary64.Paper.pos_size e - sz =? 0)%float = true ->
            JsMap.get cid (Binary64.Paper.positions pt') = None
            /\ Binary64.Paper.realEquity pt'
               == Binary64.Paper.realEquity pt
                  + (Binary64.realValue usdc
                     - Binary64.realValue (Binary64.Paper.pos_invested e))
                  + Binary64.addError balance0 usdc)
        /\ ((0 <=? balance0)%float = true -> (0 <=? usdc)%float = true ->
            (0 <=? Binary64.Paper.balance pt')%float = true)).
Proof.
  intros usdc sz cid pt' held invested0 balance0.
  subst pt'. revert Haccepted. unfold Binary64.Paper.executeTrade.
  fold usdc sz cid. fold held. fold balance0.
  destruct (isBuy (Binary64.side trade)) eqn:Hside.
  - (* BUY *)
    destruct (balance0 <? usdc)%float eqn:Hfunds; [discriminate|]. intros _.
    cbn [fst snd Binary64.Paper.positions Binary64.Paper.balance].
    split; [intros c Hc; apply get_set_other; congruence|].
    split; [|discriminate]. intros _.
    split; [reflexivity|].
    split.
    { eexists. split; [apply get_set_same|].
      cbn [Binary64.Paper.pos_invested]. subst invested0. now destruct held. }
    split; [|now apply sub_not_negative].
    unfold Binary64.Paper.realEquity, Binary64.subError, Binary64.addError.
    subst balance0.
    cbn [Binary64.Paper.positions Binary64.Paper.balance].
    subst invested0. destruct held as [e|] eqn:G.
    + rewrite (realInvested_set_present _ _ e _ G).
      cbn [Binary64.Paper.pos_invested]. ring.
    + rewrite (realInvested_set_absent _ _ _ G).
      cbn [Binary64.Paper.pos_invested].
      change (Binary64.realValue 0) with 0. ring.
  - (* SELL *)
    destruct held as [e|] eqn:G; [|discriminate].
    destruct (Binary64.Paper.pos_size e <? sz)%float eqn:Hsz; [discriminate|]. intros _.
    cbn [fst snd Binary64.Paper.positions Binary64.Paper.balance].
    split.
    { intros c Hc. destruct (Binary64.Paper.pos_size e - sz =? 0)%float.
      - apply get_delete_other. congruence.
      - apply get_set_other. congruence. }
    split; [discriminate|]. intros _.
    exists e. split; [reflexivity|]. split; [reflexivity|].
    split; [|split].
    + intros Hopen. rewrite Hopen. split.
      * eexists. split; [apply get_set_same | reflexivity].
      * unfold Binary64.Paper.realEquity, Binary64.subError, Binary64.addError.
        subst balance0.
        cbn [Binary64.Paper.positions Binary64.Paper.balance].
        rewrite (realInvested_set_present _ _ e _ G).
        cbn [Binary64.Paper.pos_invested]. ring.
    + intros Hclosed. rewrite Hclosed. split.
      * apply get_delete_same.
      * unfold Binary64.Paper.realEquity, Binary64.subError, Binary64.addError.
        subst balance0.
        cbn [Binary64.Paper.positions Binary64.Paper.balance].
        rewrite (realInvested_delete _ e _ Hwf G). ring.
    + intros H0 Hu. now apply add_nonneg.
Qed.
End Binary64Paper.

(** The claim fails in three ways. (1) A trader with balance 100 buys 10
    units for 5 and sells 4 of them for 3, every amount a dyadic number
    so that no operation rounds: the SELL is accepted and the sum is what
    it was, where the claim has it grow by [3 - 4 * 0.5 = 1]. (2) A trader
    with balance 81.8 and 9.04 invested buys for 0.59: the BUY is accepted
    and the sum changes, both as the real sum of the stored doubles and as
    [balance + getUserPortfolioValue()] computed in doubles (90.84 before,
    90.83999999999999 after). (3) The trader of (1) sells 4 units for a
    [usdcSize] of -100: the SELL is accepted and takes the balance from 95
    to -5. *)
Lemma equity_laws_fail_in_doubles :
  (let buy := Binary64.sample_trade "BUY" "cond-1" 10 5 0.5 in
   let sell := Binary64.sample_trade "SELL" "cond-1" 4 3 0.75 in
   let pt1 := snd (Binary64.Paper.executeTrade buy (Binary64.Paper.new 100)) in
   let r := Binary64.Paper.executeTrade sell pt1 in
   fst r = true
   /\ (Binary64.Paper.realEquity (snd r) == Binary64.Paper.realEquity pt1)%Q
   /\ JsMap.get "cond-1"%string (Binary64.Paper.positions pt1)
      = Some {| Binary64.Paper.pos_conditionId := "cond-1";
                Binary64.Paper.pos_asset := "asset-1";
                Binary64.Paper.pos_size := 10;
                Binary64.Paper.pos_invested := 5;
                Binary64.Paper.pos_avgPrice := 0.5 |}
   /\ ~ (Binary64.realValue 3 - Binary64.realValue 4 * Binary64.realValue 0.5 == 0)%Q)
  /\ (let pt := {| Binary64.Paper.balance := 81.8;
                   Binary64.Paper.positions :=
                     [("cond-1"%string,
                       {| Binary64.Paper.pos_conditionId := "cond-1";
                          Binary64.Paper.pos_asset := "asset-1";
                          Binary64.Paper.pos_size := 20;
                          Binary64.Paper.pos_invested := 9.04;
                          Binary64.Paper.pos_avgPrice := 0.452 |})] |} in
      let buy := Binary64.sample_trade "BUY" "cond-1" 1 0.59 0.59 in
      let r := Binary64.Paper.executeTrade buy pt in
      fst r = true
      /\ ~ (Binary64.Paper.realEquity (snd r) == Binary64.Paper.realEquity pt)%Q
      /\ (Binary64.Paper.balance (snd r) + Binary64.Paper.getUserPortfolioValue (snd r)
          =? Binary64.Paper.balance pt + Binary64.Paper.getUserPortfolioValue pt)%float
         = false)
  /\ (let buy := Binary64.sample_trade "BUY" "cond-1" 10 5 0.5 in
      let sell := Binary64.sample_trade "SELL" "cond-1" 4 (-100) 0.75 in
      let pt1 := snd (Binary64.Paper.executeTrade buy (Binary64.Paper.new 100)) in
      let r := Binary64.Paper.executeTrade sell pt1 in
      fst r = true
      /\ Binary64.Paper.balance pt1 = 95%float
      /\ Binary64.Paper.balance (snd r) = (-5)%float
      /\ (Binary64.Paper.balance (snd r) <? 0)%float = true).
Proof.
  split; [|split].
  - cbv zeta. split; [reflexivity|]. split; [vm_compute; reflexivity|].
    split; [reflexivity|]. vm_compute. discriminate.
  - cbv zeta. split; [reflexivity|]. split; [vm_compute; discriminate | reflexivity].
  - cbv zeta. repeat split.
Qed.

Lemma executeTrade_equity_witness :
  let buy := Binary64.sample_trade "BUY" "cond-1" 10 5 0.5 in
  let pt := Binary64.Paper.new 100 in
  (Binary64.Paper.realEquity (snd (Binary64.Paper.executeTrade buy pt))
   == Binary64.Paper.realEquity pt + Binary64.subError 100 5 + Binary64.addError 0 5)%Q.
Proof.
  intros buy pt.
  assert (Hwf : JsMap.wf (Binary64.Paper.positions pt)) by constructor.
  exact (proj1 (proj2 (proj2 (proj1 (proj2 (executeTrade_equity buy pt Hwf eq_refl))
                                eq_refl)))).
Defined.

(** ** The aggregation buffer *)

Section AggregationFacts.
Local Open Scope Q_scope.
Variable TRADE_AGGREGATION_WINDOW_SECONDS : Z.

Let elapsed (now : Z) (e : string * Executor.AggregatedTrade) : bool :=
  Executor.windowElapsed TRADE_AGGREGATION_WINDOW_SECONDS now (snd e).
Let getReady := Executor.getReadyAggregatedTrades TRADE_AGGREGATION_WINDOW_SECONDS.
(** The loop of [getReadyAggregatedTrades], entry by entry: [kept] holds
    the entries already passed over, [es] those still to visit. *)
Lemma readyLoop_spec now (es : Executor.Buffer) :
  forall (kept : Executor.Buffer) (ready : list Executor.AggregatedTrade),
    JsMap.wf (kept ++ es) ->
    fold_left (Executor.readyStep TRADE_AGGREGATION_WINDOW_SECONDS now) es
      (ready, (kept ++ es)%list)
    = ((ready ++ filter Executor.meetsMinimum (map snd (filter (elapsed now) es)))%list,
       (kept ++ filter (fun e => negb (elapsed now e)) es)%list).
Proof.
  induction es as [|[k agg] es IH]; intros kept ready Hwf.
  - simpl. now rewrite !app_nil_r.
  - assert (Hel : elapsed now (k, agg)
                  = Executor.windowElapsed TRADE_AGGREGATION_WINDOW_SECONDS now agg)
      by reflexivity.
    cbn [fold_left Executor.readyStep filter]. rewrite !Hel. cbn [snd fst].
    destruct (Executor.windowElapsed TRADE_AGGREGATION_WINDOW_SECONDS now agg) eqn:He.
    + destruct (delete_middle _ _ _ _ Hwf) as (Hdel & Hwf' & _ & _).
      rewrite Hdel. cbn [negb map filter snd].
      rewrite (IH kept _ Hwf').
      destruct (Executor.meetsMinimum agg); [|reflexivity].
      now rewrite <- app_assoc.
    + cbn [negb].
      change (kept ++ (k, agg) :: es)%list with (kept ++ [(k, agg)] ++ es)%list.
      rewrite app_assoc. rewrite IH.
      * now rewrite <- app_assoc.
      * rewrite <- app_assoc. exact Hwf.
Qed.

Lemma getReady_spec now (b : Executor.Buffer) :
  JsMap.wf b ->
  getReady now b
  = (filter Executor.meetsMinimum (map snd (filter (elapsed now) b)),
     filter (fun e => negb (elapsed now e)) b).
Proof.
  intros Hwf. unfold getReady, Executor.getReadyAggregatedTrades.
  exact (readyLoop_spec now b [] [] Hwf).
Qed.

End AggregationFacts.

(** ** The flusher, event by event *)

Section FlusherFacts.
Variable TRADE_AGGREGATION_ENABLED : bool.
Variable TRADE_AGGREGATION_WINDOW_SECONDS : Z.
Variable PAPER_TRADING_ENABLED : bool.

Let step :=
  ExecutorAsync.step TRADE_AGGREGATION_ENABLED TRADE_AGGREGATION_WINDOW_SECONDS
    PAPER_TRADING_ENABLED.
Let run :=
  ExecutorAsync.run TRADE_AGGREGATION_ENABLED TRADE_AGGREGATION_WINDOW_SECONDS
    PAPER_TRADING_ENABLED.
Let elapsed (now : Z) (e : string * Executor.AggregatedTrade) : bool :=
  Executor.windowElapsed TRADE_AGGREGATION_WINDOW_SECONDS now (snd e).

(** The ready records of a buffer: window elapsed and minimum met. *)
Let readyOf (now : Z) (b : Executor.Buffer) : list Executor.AggregatedTrade :=
  filter Executor.meetsMinimum (map snd (filter (elapsed now) b)).

Lemma batch_no_calls (l : list Executor.AggregatedTrade) :
  ExecutorAsync.doAggregatedTrading [] l = [].
Proof. now destruct l. Qed.

Lemma batch_no_records calls :
  ExecutorAsync.doAggregatedTrading calls [] = [].
Proof. now destruct calls. Qed.

Lemma batch_awaited calls (batch : list Executor.AggregatedTrade)
      (s : ExecutorAsync.State) :
  ExecutorAsync.doAggregatedTrading calls
    (ExecutorAsync.flushing (ExecutorAsync.awaitRecord batch s))
  = ExecutorAsync.doAggregatedTrading calls batch.
Proof.
  unfold ExecutorAsync.awaitRecord.
  destruct batch as [|agg rest]; [reflexivity|].
  destruct (Executor.trades agg) eqn:E; [|reflexivity].
  cbn [ExecutorAsync.flushing ExecutorAsync.withFlushing].
  rewrite batch_no_records.
  destruct calls; cbn [ExecutorAsync.doAggregatedTrading]; [reflexivity|].
  now rewrite E.
Qed.

(** What the calls of a batch change: the order log and, at the end, the
    flag. *)
Lemma flushCalls_run (calls : list ExecutorAsync.CallOutcome) :
  forall s : ExecutorAsync.State,
    let s' := run (map ExecutorAsync.FlushCall calls) s in
    Executor.orders (ExecutorAsync.worker s')
    = (Executor.orders (ExecutorAsync.worker s)
       ++ ExecutorAsync.doAggregatedTrading calls (ExecutorAsync.flushing s))%list
    /\ Executor.tradeAggregationBuffer (ExecutorAsync.worker s')
       = Executor.tradeAggregationBuffer (ExecutorAsync.worker s)
    /\ Executor.paperTrader (ExecutorAsync.worker s')
       = Executor.paperTrader (ExecutorAsync.worker s)
    /\ Executor.localQueue (ExecutorAsync.worker s')
       = Executor.localQueue (ExecutorAsync.worker s)
    /\ Executor.isRunning (ExecutorAsync.worker s')
       = Executor.isRunning (ExecutorAsync.worker s)
    /\ ExecutorAsync.trading s' = ExecutorAsync.trading s.
Proof.
  unfold run.
  induction calls as [|o calls IH]; intros s; cbn zeta.
  - cbn [map ExecutorAsync.run fold_left]. rewrite batch_no_calls, app_nil_r.
    repeat split.
  - cbn [map ExecutorAsync.run fold_left ExecutorAsync.step].
    fold (ExecutorAsync.run TRADE_AGGREGATION_ENABLED TRADE_AGGREGATION_WINDOW_SECONDS
            PAPER_TRADING_ENABLED (map ExecutorAsync.FlushCall calls)
            (ExecutorAsync.flushCall o s)).
    specialize (IH (ExecutorAsync.flushCall o s)). cbn zeta in IH.
    destruct IH as (Ho & Hb & Hp & Hq & Hr & Ht).
    rewrite Ho, Hb, Hp, Hq, Hr, Ht. clear Ho Hb Hp Hq Hr Ht.
    unfold ExecutorAsync.flushCall.
    destruct (ExecutorAsync.flushing s) as [|agg rest] eqn:F.
    + rewrite F, batch_no_records. repeat split.
    + cbn [ExecutorAsync.doAggregatedTrading].
      destruct (Executor.trades agg) as [|first others] eqn:T.
      * cbn. rewrite batch_no_records. repeat split.
      * destruct o.
        -- rewrite batch_awaited.
           unfold ExecutorAsync.awaitRecord.
           destruct rest as [|agg' rest'];
             [|destruct (Executor.trades agg')];
             cbn; rewrite <- app_assoc; repeat split.
        -- cbn. rewrite batch_no_records. repeat split.
        -- cbn. rewrite batch_no_records, <- app_assoc. repeat split.
Qed.


Lemma batch_all_return calls (l : list Executor.AggregatedTrade) :
  Forall (eq ExecutorAsync.Returned) calls ->
  (List.length l <= List.length calls)%nat ->
  ExecutorAsync.doAggregatedTrading calls l = Executor.doAggregatedTrading l
  /\ ExecutorAsync.allReturned (List.length l) calls = true.
Proof.
  intros Hall. revert l.
  induction Hall as [|o calls <- _ IH]; intros l Hlen.
  - destruct l; [split; reflexivity | simpl in Hlen; lia].
  - destruct l as [|agg l]; [split; reflexivity|].
    cbn [ExecutorAsync.doAggregatedTrading Executor.doAggregatedTrading
         List.length ExecutorAsync.allReturned].
    destruct (IH l) as [E1 E2]; [simpl in Hlen; lia|].
    rewrite E1, E2. destruct (Executor.trades agg); split; reflexivity.
Qed.

(** The tick on a worker that is running with no flush in progress. *)
Lemma flusherTick_takes now (s : ExecutorAsync.State) :
  Executor.isRunning (ExecutorAsync.worker s) = true ->
  Executor.aggregationFlushInProgress (ExecutorAsync.worker s) = false ->
  ExecutorAsync.flushing s = [] ->
  JsMap.wf (Executor.tradeAggregationBuffer (ExecutorAsync.worker s)) ->
  (forall k a, In (k, a) (Executor.tradeAggregationBuffer (ExecutorAsync.worker s)) ->
               Executor.trades a <> []) ->
  let b := Executor.tradeAggregationBuffer (ExecutorAsync.worker s) in
  let s1 := step (ExecutorAsync.FlusherTick now) s in
  Executor.tradeAggregationBuffer (ExecutorAsync.worker s1)
  = filter (fun e => negb (elapsed now e)) b
  /\ ExecutorAsync.flushing s1 = readyOf now b
  /\ Executor.aggregationFlushInProgress (ExecutorAsync.worker s1)
     = negb (Nat.eqb (List.length (readyOf now b)) 0)
  /\ Executor.orders (ExecutorAsync.worker s1) = Executor.orders (ExecutorAsync.worker s)
  /\ Executor.paperTrader (ExecutorAsync.worker s1)
     = Executor.paperTrader (ExecutorAsync.worker s)
  /\ Executor.localQueue (ExecutorAsync.worker s1)
     = Executor.localQueue (ExecutorAsync.worker s)
  /\ Executor.isRunning (ExecutorAsync.worker s1) = true
  /\ ExecutorAsync.trading s1 = ExecutorAsync.trading s.
Proof.
  intros Hrun Hidle Hnone Hwf Hne b s1. subst s1.
  unfold step. cbn [ExecutorAsync.step]. unfold ExecutorAsync.flusherTick.
  rewrite Hrun, Hidle. cbn [negb orb]. fold b.
  rewrite (getReady_spec TRADE_AGGREGATION_WINDOW_SECONDS now b Hwf).
  fold (elapsed now). fold (readyOf now b).
  destruct (readyOf now b) as [|agg rest] eqn:R.
  - cbn. rewrite Hidle. repeat split; try assumption.
  - assert (Hagg : Executor.trades agg <> []).
    { assert (Hin : In agg (readyOf now b)) by (rewrite R; now left).
      unfold readyOf in Hin. apply filter_In in Hin. destruct Hin as [Hin _].
      apply in_map_iff in Hin. destruct Hin as [[k a] [E Hin]]. cbn [snd] in E. subst a.
      apply filter_In in Hin. destruct Hin as [Hin _]. exact (Hne _ _ Hin). }
    unfold ExecutorAsync.awaitRecord.
    destruct (Executor.trades agg); [contradiction|].
    cbn. repeat split; assumption.
Qed.



Let getReady := Executor.getReadyAggregatedTrades TRADE_AGGREGATION_WINDOW_SECONDS.

End FlusherFacts.



(** ** The aggregation buffer in double precision *)

Section Binary64Buffer.








End Binary64Buffer.



(** ** Claims about the dequeue loop *)

Section DequeueClaims.
Local Open Scope Q_scope.
Variable TRADE_AGGREGATION_ENABLED : bool.
Variable PAPER_TRADING_ENABLED : bool.

Let turn := Executor.dequeueTurn TRADE_AGGREGATION_ENABLED PAPER_TRADING_ENABLED.
Let doTrading := Executor.doTrading PAPER_TRADING_ENABLED.

Lemma doTrading_keeps_buffer (batch : list QueueActivity) :
  forall w,
    Executor.tradeAggregationBuffer (doTrading batch w)
    = Executor.tradeAggregationBuffer w
    /\ Executor.localQueue (doTrading batch w) = Executor.localQueue w.
Proof.
  unfold doTrading.
  induction batch as [|trade rest IH]; intros w; [split; reflexivity|].
  cbn [Executor.doTrading].
  destruct (if PAPER_TRADING_ENABLED then Executor.paperTrader w else None).
  - destruct (Paper.executeTrade trade p) as [executed pt'].
    destruct (IH (Executor.withPaperTrader pt' w)) as [-> ->]. split; reflexivity.
  - destruct (IH (Executor.withOrders
                    (Executor.orders w ++ [Executor.immediateOrder trade]) w))
      as [-> ->].
    split; reflexivity.
Qed.

End DequeueClaims.

(* ===================================================================== *)
(** * Part III — further properties of the code                          *)
(* ===================================================================== *)

(** ** The distributor over sequences of calls *)

Section DistributorRuns.
Implicit Types (st : Distributor.State).

Lemma publish_with_workers st a w0 ws :
  Distributor.workerPorts st = w0 :: ws ->
  Distributor.publishActivityToWorkers a st
  = {| Distributor.workerPorts := Distributor.workerPorts st;
       Distributor.roundRobinIndex :=
         (Distributor.roundRobinIndex st + 1) mod List.length (w0 :: ws);
       Distributor.backlog := Distributor.backlog st;
       Distributor.posted :=
         (Distributor.posted st
          ++ [(Distributor.endpoint
                 (nth (Distributor.roundRobinIndex st mod List.length (w0 :: ws))
                    (w0 :: ws) w0),
               Distributor.MsgActivity a)])%list |}.
Proof.
  intros E. unfold Distributor.publishActivityToWorkers, Distributor.pickWorker.
  rewrite E. reflexivity.
Qed.

Lemma combine_shift {A : Type} (l : list nat) (r : list A) :
  combine (map S l) r = map (fun p => (S (fst p), snd p)) (combine l r).
Proof.
  revert r. induction l as [|x l IH]; intros [|y r]; simpl; try reflexivity.
  now rewrite IH.
Qed.

Lemma publishAll_schedule
  (acts : list QueueActivity) (st : Distributor.State)
  (w0 : Distributor.WorkerPort) (ws : list Distributor.WorkerPort)
  (Hports : Distributor.workerPorts st = w0 :: ws) :
  let n := List.length (w0 :: ws) in
  let st' := DistributorRun.publishAll acts st in
  Distributor.posted st'
  = (Distributor.posted st
     ++ map (fun ia =>
               (Distributor.endpoint
                  (nth ((Distributor.roundRobinIndex st + fst ia) mod n) (w0 :: ws) w0),
                Distributor.MsgActivity (snd ia)))
          (combine (seq 0 (List.length acts)) acts))%list
  /\ Distributor.workerPorts st' = w0 :: ws
  /\ Distributor.backlog st' = Distributor.backlog st.
Proof.
  intros n. revert st Hports.
  induction acts as [|a rest IH]; intros st Hports st'.
  - subst st'. simpl. rewrite app_nil_r. auto.
  - subst st'. cbn [DistributorRun.publishAll fold_left].
    fold (DistributorRun.publishAll rest (Distributor.publishActivityToWorkers a st)).
    rewrite (publish_with_workers st a w0 ws Hports).
    set (st1 := {| Distributor.workerPorts := Distributor.workerPorts st;
                   Distributor.roundRobinIndex := _;
                   Distributor.backlog := Distributor.backlog st;
                   Distributor.posted := _ |}).
    destruct (IH st1) as (Hp & Hw & Hb); [subst st1; simpl; exact Hports|].
    split; [|split; [exact Hw | rewrite Hb; reflexivity]].
    rewrite Hp. subst st1. cbn [Distributor.posted Distributor.roundRobinIndex].
    rewrite <- app_assoc. f_equal.
    cbn [List.length seq combine map fst snd app].
    rewrite Nat.add_0_r. f_equal.
    rewrite <- seq_shift, combine_shift, map_map.
    apply map_ext. intros [i x]. cbn [fst snd]. fold n.
    rewrite Nat.Div0.add_mod_idemp_l.
    replace (Distributor.roundRobinIndex st + 1 + i)%nat
      with (Distributor.roundRobinIndex st + S i)%nat by lia.
    reflexivity.
Qed.

(** X1. With a non-empty registry that does not change, the [i]-th
    activity published (counting from 0) is posted to the worker at index
    [(roundRobinIndex + i) mod n] of the registry; the backlog and the
    registry are untouched, and the index ends at
    [(roundRobinIndex + number published) mod n]. *)
Theorem publishAll_round_robin
  (acts : list QueueActivity) (st : Distributor.State)
  (w0 : Distributor.WorkerPort) (ws : list Distributor.WorkerPort)
  (Hports : Distributor.workerPorts st = w0 :: ws) :
  let n := List.length (w0 :: ws) in
  let st' := DistributorRun.publishAll acts st in
  Distributor.posted st'
  = (Distributor.posted st
     ++ map (fun ia =>
               (Distributor.endpoint
                  (nth ((Distributor.roundRobinIndex st + fst ia) mod n) (w0 :: ws) w0),
                Distributor.MsgActivity (snd ia)))
          (combine (seq 0 (List.length acts)) acts))%list
  /\ Distributor.workerPorts st' = w0 :: ws
  /\ Distributor.backlog st' = Distributor.backlog st
  /\ (acts <> [] ->
      Distributor.roundRobinIndex st'
      = ((Distributor.roundRobinIndex st + List.length acts) mod n)%nat).
Proof.
  intros n st'.
  destruct (publishAll_schedule acts st w0 ws Hports) as (Hp & Hw & Hb).
  split; [exact Hp|]. split; [exact Hw|]. split; [exact Hb|].
  subst st'. clear Hp Hw Hb. revert st Hports.
  induction acts as [|a rest IH]; intros st Hports Hne; [contradiction|].
  cbn [DistributorRun.publishAll fold_left].
  fold (DistributorRun.publishAll rest (Distributor.publishActivityToWorkers a st)).
  rewrite (publish_with_workers st a w0 ws Hports). fold n.
  destruct rest as [|b rest'].
  - cbn. reflexivity.
  - rewrite IH; [|simpl; exact Hports | discriminate].
    cbn [Distributor.roundRobinIndex]. rewrite Nat.Div0.add_mod_idemp_l.
    f_equal. cbn [List.length]. lia.
Qed.

Lemma publishAll_round_robin_witness :
  let q := Monitor.toQueueActivity sample_activity 1762128000000 "0xleader" 1 in
  let st := Distributor.registerWorkerEndpoint 2 20%nat
              (Distributor.registerWorkerEndpoint 1 10%nat Distributor.initial) in
  map fst (Distributor.posted (DistributorRun.publishAll [q; q; q] st))
  = [10; 20; 10]%nat.
Proof.
  intros q st.
  rewrite (proj1 (publishAll_round_robin [q; q; q] st
                    {| Distributor.id := 1; Distributor.endpoint := 10%nat |}
                    [{| Distributor.id := 2; Distributor.endpoint := 20%nat |}]
                    eq_refl)).
  reflexivity.
Defined.

Lemma broadcast_posted (ports : list Distributor.WorkerPort) :
  forall st,
    fold_left (fun s w => Distributor.send (Distributor.endpoint w) Distributor.MsgShutdown s)
      ports st
    = {| Distributor.workerPorts := Distributor.workerPorts st;
         Distributor.roundRobinIndex := Distributor.roundRobinIndex st;
         Distributor.backlog := Distributor.backlog st;
         Distributor.posted :=
           (Distributor.posted st
            ++ map (fun w => (Distributor.endpoint w, Distributor.MsgShutdown)) ports)%list |}.
Proof.
  induction ports as [|w ports IH]; intros st.
  - simpl. rewrite app_nil_r. now destruct st.
  - cbn [fold_left]. rewrite IH. simpl. now rewrite <- app_assoc.
Qed.

(** X2. [broadcastShutdown] posts one [shutdown] message to each
    registered endpoint, in registry order, and nothing else; it leaves
    the registry, the round-robin index and the backlog as they are, so
    an activity published afterwards is still posted to a worker. *)
Theorem broadcastShutdown_posts_one_per_worker (st : Distributor.State) :
  let st' := Distributor.broadcastShutdown st in
  Distributor.posted st'
  = (Distributor.posted st
     ++ map (fun w => (Distributor.endpoint w, Distributor.MsgShutdown))
          (Distributor.workerPorts st))%list
  /\ Distributor.workerPorts st' = Distributor.workerPorts st
  /\ Distributor.roundRobinIndex st' = Distributor.roundRobinIndex st
  /\ Distributor.backlog st' = Distributor.backlog st
  /\ (forall a,
         Distributor.workerPorts st <> [] ->
         exists w,
           In w (Distributor.workerPorts st)
           /\ Distributor.posted (Distributor.publishActivityToWorkers a st')
              = (Distributor.posted st'
                 ++ [(Distributor.endpoint w, Distributor.MsgActivity a)])%list).
Proof.
  intros st'. subst st'. unfold Distributor.broadcastShutdown.
  rewrite broadcast_posted. cbn [Distributor.posted Distributor.workerPorts
    Distributor.roundRobinIndex Distributor.backlog].
  repeat split.
  intros a Hne.
  destruct (Distributor.workerPorts st) as [|w0 ws] eqn:E; [contradiction|].
  erewrite publish_with_workers by (simpl; reflexivity).
  cbn [Distributor.posted Distributor.roundRobinIndex].
  eexists. split; [|reflexivity].
  apply nth_In. apply Nat.mod_upper_bound. simpl. lia.
Qed.

Lemma findIndex_none {A : Type} (p : A -> bool) (l : list A) :
  Distributor.findIndex p l = None <-> forall x, In x l -> p x = false.
Proof.
  induction l as [|y l IH]; simpl.
  - split; [intros _ x [] | reflexivity].
  - destruct (p y) eqn:Hy.
    + split; [discriminate|]. intros H. rewrite (H y) in Hy; [discriminate | now left].
    + destruct (Distributor.findIndex p l).
      * split; [discriminate|]. intros H. exfalso.
        assert (Hc : Some n = None) by (apply IH; intros x Hx; apply H; now right).
        discriminate.
      * split; [|reflexivity]. intros _ x [<-|Hx]; [exact Hy|].
        now apply (proj1 IH).
Qed.

Lemma findIndex_split {A : Type} (p : A -> bool) (l1 l2 : list A) (x : A) :
  (forall y, In y l1 -> p y = false) -> p x = true ->
  Distributor.findIndex p (l1 ++ x :: l2) = Some (List.length l1)
  /\ Distributor.removeAt (List.length l1) (l1 ++ x :: l2) = (l1 ++ l2)%list.
Proof.
  induction l1 as [|y l1 IH]; intros Hno Hx; simpl.
  - now rewrite Hx.
  - rewrite (Hno y) by now left.
    destruct IH as [-> ->]; [intros z Hz; apply Hno; now right | exact Hx |].
    auto.
Qed.

(** X3. [unregisterWorkerEndpoint] removes the first registered port with
    the given id and keeps the others in order; with no such port it
    changes nothing. It never touches the round-robin index, the backlog
    or the posted messages. *)
Theorem unregister_removes_first_match (i : Z) (st : Distributor.State) :
  let st' := Distributor.unregisterWorkerEndpoint i st in
  ((forall w, In w (Distributor.workerPorts st) -> Distributor.id w <> i) ->
   st' = st)
  /\ (forall before w after,
         Distributor.workerPorts st = (before ++ w :: after)%list ->
         (forall x, In x before -> Distributor.id x <> i) ->
         Distributor.id w = i ->
         Distributor.workerPorts st' = (before ++ after)%list)
  /\ Distributor.roundRobinIndex st' = Distributor.roundRobinIndex st
  /\ Distributor.backlog st' = Distributor.backlog st
  /\ Distributor.posted st' = Distributor.posted st.
Proof.
  intros st'. subst st'. unfold Distributor.unregisterWorkerEndpoint.
  split; [|split].
  - intros Hno.
    assert (H : Distributor.findIndex (fun w => Distributor.id w =? i)
                  (Distributor.workerPorts st) = None).
    { apply findIndex_none. intros x Hx. apply Z.eqb_neq. now apply Hno. }
    now rewrite H.
  - intros before w after E Hno Hw. rewrite E.
    destruct (findIndex_split (fun w => Distributor.id w =? i) before after w)
      as [-> Hrem].
    + intros y Hy. apply Z.eqb_neq. now apply Hno.
    + now apply Z.eqb_eq.
    + simpl. exact Hrem.
  - destruct (Distributor.findIndex _ _); repeat split.
Qed.

Lemma activityPayloads_app l1 l2 :
  DistributorRun.activityPayloads (l1 ++ l2)
  = (DistributorRun.activityPayloads l1 ++ DistributorRun.activityPayloads l2)%list.
Proof. unfold DistributorRun.activityPayloads. apply flat_map_app. Qed.

Lemma activityPayloads_combine (dests : list Distributor.WorkerEndpoint)
      (acts : list QueueActivity) :
  List.length dests = List.length acts ->
  DistributorRun.activityPayloads (combine dests (map Distributor.MsgActivity acts))
  = acts.
Proof.
  revert acts. induction dests as [|d dests IH]; intros [|a acts] H;
    simpl in *; try discriminate; [reflexivity|].
  f_equal. apply IH. now injection H.
Qed.

Lemma activityPayloads_shutdowns (ports : list Distributor.WorkerPort) :
  DistributorRun.activityPayloads
    (map (fun w => (Distributor.endpoint w, Distributor.MsgShutdown)) ports) = [].
Proof. induction ports; simpl; auto. Qed.

(** One call keeps the account of the activities: those posted so far
    followed by the backlog are those published so far, in order. *)
Lemma step_conserves (op : DistributorRun.Op) st :
  (Distributor.backlog st = [] \/ Distributor.workerPorts st = []) ->
  let st' := DistributorRun.step op st in
  (Distributor.backlog st' = [] \/ Distributor.workerPorts st' = [])
  /\ (DistributorRun.activityPayloads (Distributor.posted st') ++ Distributor.backlog st')%list
     = (DistributorRun.activityPayloads (Distributor.posted st)
        ++ Distributor.backlog st ++ DistributorRun.publishedBy [op])%list.
Proof.
  intros Hinv st'. subst st'. destruct op as [a|i e|i|]; cbn [DistributorRun.step].
  - cbn [DistributorRun.publishedBy flat_map app].
    destruct (Distributor.workerPorts st) as [|w0 ws] eqn:E.
    + unfold Distributor.publishActivityToWorkers, Distributor.pickWorker.
      rewrite E. simpl. rewrite E. split; [now right | reflexivity].
    + rewrite (publish_with_workers st a w0 ws E).
      cbn [Distributor.posted Distributor.backlog Distributor.workerPorts].
      destruct Hinv as [Hb|Hw]; [|discriminate].
      rewrite Hb. split; [now left|].
      rewrite activityPayloads_app. simpl. now rewrite app_nil_r.
  - unfold Distributor.registerWorkerEndpoint, Distributor.flushBacklog.
    cbn [Distributor.backlog].
    match goal with |- context [Distributor.flushLoop _ ?s] => set (st1 := s) end.
    destruct (flushLoop_delivers (Distributor.backlog st) st1)
      as (dests & Hlen & _ & Hposted & _ & Hback).
    { subst st1. simpl. intros E. apply app_eq_nil in E. destruct E; discriminate. }
    assert (Hb : Distributor.backlog (Distributor.flushLoop (Distributor.backlog st) st1) = []).
    { rewrite Hback. destruct (Distributor.backlog st); reflexivity. }
    rewrite Hb, Hposted. split; [now left|].
    subst st1. cbn [Distributor.posted DistributorRun.publishedBy flat_map].
    rewrite activityPayloads_app, (activityPayloads_combine _ _ Hlen).
    now rewrite !app_nil_r.
  - unfold Distributor.unregisterWorkerEndpoint.
    destruct (Distributor.findIndex _ _) eqn:F;
      cbn [Distributor.backlog Distributor.posted Distributor.workerPorts
           DistributorRun.publishedBy flat_map]; rewrite ?app_nil_r.
    + destruct Hinv as [Hb|Hw].
      * split; [now left | reflexivity].
      * rewrite Hw in F. discriminate.
    + split; [exact Hinv | reflexivity].
  - unfold Distributor.broadcastShutdown. rewrite broadcast_posted.
    cbn [Distributor.backlog Distributor.posted Distributor.workerPorts
         DistributorRun.publishedBy flat_map].
    split; [exact Hinv|].
    rewrite activityPayloads_app, activityPayloads_shutdowns. now rewrite !app_nil_r.
Qed.

Lemma run_conserves (ops : list DistributorRun.Op) :
  forall st,
    (Distributor.backlog st = [] \/ Distributor.workerPorts st = []) ->
    (Distributor.backlog (DistributorRun.run ops st) = []
     \/ Distributor.workerPorts (DistributorRun.run ops st) = [])
    /\ (DistributorRun.activityPayloads (Distributor.posted (DistributorRun.run ops st))
        ++ Distributor.backlog (DistributorRun.run ops st))%list
       = (DistributorRun.activityPayloads (Distributor.posted st)
          ++ Distributor.backlog st ++ DistributorRun.publishedBy ops)%list.
Proof.
  induction ops as [|op ops IH]; intros st Hinv.
  - simpl. rewrite app_nil_r. auto.
  - cbn [DistributorRun.run fold_left].
    fold (DistributorRun.run ops (DistributorRun.step op st)).
    destruct (step_conserves op st Hinv) as [Hinv1 Heq1].
    destruct (IH _ Hinv1) as [Hinv2 Heq2].
    split; [exact Hinv2|].
    rewrite Heq2. rewrite app_assoc, Heq1.
    change (op :: ops) with ([op] ++ ops)%list.
    unfold DistributorRun.publishedBy. rewrite flat_map_app.
    now rewrite <- !app_assoc.
Qed.

(** X4. Whatever sequence of [publishActivityToWorkers],
    [registerWorkerEndpoint], [unregisterWorkerEndpoint] and
    [broadcastShutdown] calls the distributor goes through from its
    initial state, the activities posted to workers followed by those in
    the backlog are exactly the activities published, in publication
    order: none is lost, none is posted twice; and the backlog is
    non-empty only while no worker is registered. *)
Theorem distributor_conserves_activities (ops : list DistributorRun.Op) :
  let st := DistributorRun.run ops Distributor.initial in
  (DistributorRun.activityPayloads (Distributor.posted st) ++ Distributor.backlog st)%list
  = DistributorRun.publishedBy ops
  /\ (Distributor.backlog st = [] \/ Distributor.workerPorts st = []).
Proof.
  intros st. subst st.
  destruct (run_conserves ops Distributor.initial) as [Hinv Heq]; [now left|].
  split; [exact Heq | exact Hinv].
Qed.
End DistributorRuns.

(** ** The dedup cache over sequences of calls *)

Section DedupRuns.
Implicit Types (c : Dedup.InMemoryDedupCache).

Lemma keys_set_absent {V : Type} (k : string) (v : V) (m : JsMap.t V) :
  JsMap.get k m = None -> JsMap.keys (JsMap.set k v m) = (JsMap.keys m ++ [k])%list.
Proof. intros H. rewrite (set_absent _ _ _ H), keys_app. reflexivity. Qed.

(** One call keeps a cache of truthy keys within its capacity. *)
Lemma checkAndRemember_within_capacity key now c :
  key <> ""%string ->
  JsMap.wf (Dedup.cache c) ->
  (forall k, In k (JsMap.keys (Dedup.cache c)) -> k <> ""%string) ->
  Z.of_nat (JsMap.size (Dedup.cache c)) <= Dedup.maxEntries c ->
  let c' := snd (Dedup.checkAndRemember key now c) in
  JsMap.wf (Dedup.cache c')
  /\ (forall k, In k (JsMap.keys (Dedup.cache c')) -> k <> ""%string)
  /\ Z.of_nat (JsMap.size (Dedup.cache c')) <= Dedup.maxEntries c'.
Proof.
  intros Hkey Hwf Hkeys Hsize c'. subst c'.
  destruct (checkAndRemember_config key now c) as [_ Hmax]. rewrite Hmax.
  unfold Dedup.checkAndRemember.
  pose proof (evictExpired_cache now c) as Hs.
  set (swept := Dedup.cache (Dedup.evictExpired now c)) in *.
  assert (Hwfs : JsMap.wf swept) by (rewrite Hs; now apply wf_filter).
  assert (Hks : forall k, In k (JsMap.keys swept) -> k <> ""%string).
  { intros k Hk. rewrite Hs in Hk. apply keys_filter_in in Hk. now apply Hkeys. }
  assert (Hlen : (JsMap.size swept <= JsMap.size (Dedup.cache c))%nat).
  { rewrite Hs. apply filter_length_le. }
  change (Dedup.maxEntries (Dedup.evictExpired now c)) with (Dedup.maxEntries c).
  destruct (JsMap.has key swept) eqn:Hhas; cbn [snd].
  - fold swept. repeat split; auto. lia.
  - cbn [Dedup.withCache Dedup.cache].
    apply has_false_iff in Hhas.
    assert (Hwfi : JsMap.wf (JsMap.set key now swept)) by now apply wf_set.
    assert (Hki : forall k, In k (JsMap.keys (JsMap.set key now swept)) -> k <> ""%string).
    { intros k. rewrite (keys_set_absent _ _ _ Hhas). intros Hin.
      apply in_app_or in Hin. destruct Hin as [Hin|[<-|[]]]; auto. }
    assert (Hsi : JsMap.size (JsMap.set key now swept) = S (JsMap.size swept)).
    { rewrite (set_absent _ _ _ Hhas). unfold JsMap.size. rewrite length_app. simpl. lia. }
    destruct (Z.ltb_spec (Dedup.maxEntries c) (Z.of_nat (JsMap.size (JsMap.set key now swept))))
      as [Hbig|Hfit]; [|repeat split; auto].
    destruct (JsMap.set key now swept) as [|[k0 v0] rest] eqn:E.
    + simpl in Hsi. discriminate.
    + assert (Hk0 : k0 <> ""%string) by (apply Hki; now left).
      rewrite (evictOldest_wf_cons _ _ _ Hwfi Hk0).
      split; [|split].
      * unfold JsMap.wf in *. simpl in Hwfi. now inversion Hwfi.
      * intros k Hk. apply Hki. now right.
      * unfold JsMap.size in *. simpl in Hsi. lia.
Qed.

(** X5. A cache created by the constructor and used with non-empty keys
    only never holds more than [maxEntries] entries, and keeps one entry
    per key, whatever the calls of [checkAndRemember] and their times. *)
Theorem cache_never_exceeds_capacity
  (ttl maxE : Z) (calls : list (string * Z))
  (Hkeys : forall k t, In (k, t) calls -> k <> ""%string) :
  let c := Dedup.runCalls calls (Dedup.new ttl maxE) in
  Z.of_nat (JsMap.size (Dedup.cache c)) <= Dedup.maxEntries c
  /\ JsMap.wf (Dedup.cache c)
  /\ ~ In ""%string (JsMap.keys (Dedup.cache c)).
Proof.
  intros c. subst c.
  assert (Hgen : forall c0,
             JsMap.wf (Dedup.cache c0) ->
             (forall k, In k (JsMap.keys (Dedup.cache c0)) -> k <> ""%string) ->
             Z.of_nat (JsMap.size (Dedup.cache c0)) <= Dedup.maxEntries c0 ->
             let c := Dedup.runCalls calls c0 in
             Z.of_nat (JsMap.size (Dedup.cache c)) <= Dedup.maxEntries c
             /\ JsMap.wf (Dedup.cache c)
             /\ (forall k, In k (JsMap.keys (Dedup.cache c)) -> k <> ""%string)).
  { induction calls as [|[k t] rest IH]; intros c0 Hwf Hks Hsz.
    - simpl. auto.
    - cbn [Dedup.runCalls].
      destruct (checkAndRemember_within_capacity k t c0) as (Hwf1 & Hks1 & Hsz1); auto.
      + apply (Hkeys k t). now left.
      + apply IH; auto. intros k' t' Hin. apply (Hkeys k' t'). now right. }
  destruct (Hgen (Dedup.new ttl maxE)) as (H1 & H2 & H3).
  - constructor.
  - intros k [].
  - simpl. lia.
  - split; [exact H1|]. split; [exact H2|]. intros Hin. now apply (H3 _ Hin).
Qed.

Lemma cache_never_exceeds_capacity_witness :
  let c := Dedup.runCalls [("0xa"%string, 0); ("0xb"%string, 1); ("0xc"%string, 2)]
             (Dedup.new 60000 2) in
  Z.of_nat (JsMap.size (Dedup.cache c)) <= Dedup.maxEntries c.
Proof.
  refine (proj1 (cache_never_exceeds_capacity 60000 2
                   [("0xa"%string, 0); ("0xb"%string, 1); ("0xc"%string, 2)] _)).
  intros k t [E|[E|[E|[]]]]; inversion E; discriminate.
Defined.

Lemma filter_filter_weaker {A : Type} (p q : A -> bool) (l : list A) :
  (forall x, q x = true -> p x = true) ->
  filter q (filter p l) = filter q l.
Proof.
  intros Himp. induction l as [|x l IH]; [reflexivity|].
  cbn [filter]. destruct (p x) eqn:Hp.
  - cbn [filter]. now rewrite IH.
  - destruct (q x) eqn:Hq; [|exact IH].
    rewrite (Himp x Hq) in Hp. discriminate.
Qed.

Lemma sweep_twice (t now : Z) c :
  t <= now ->
  Dedup.evictExpired now (Dedup.evictExpired t c) = Dedup.evictExpired now c.
Proof.
  intros Hle. unfold Dedup.evictExpired, Dedup.withCache.
  cbn [Dedup.cache Dedup.ttlMs Dedup.maxEntries]. f_equal.
  apply filter_filter_weaker. intros [k ts]. unfold Dedup.expired. cbn [snd].
  rewrite !negb_true_iff, !Z.ltb_ge. lia.
Qed.

(** X6. [size()] is transparent to later calls: asking for the size at
    time [t] does not change what [checkAndRemember] and [size()] return
    and leave at any time [now >= t]. *)
Theorem size_is_transparent (k : string) (t now : Z) (c : Dedup.InMemoryDedupCache)
  (Hclock : t <= now) :
  Dedup.checkAndRemember k now (snd (Dedup.size t c)) = Dedup.checkAndRemember k now c
  /\ Dedup.size now (snd (Dedup.size t c)) = Dedup.size now c.
Proof.
  unfold Dedup.checkAndRemember, Dedup.size. cbn [snd].
  rewrite (sweep_twice t now c Hclock). split; reflexivity.
Qed.

Lemma size_is_transparent_witness :
  let c := Dedup.runCalls [("0xa"%string, 0); ("0xb"%string, 50000)] (Dedup.new 60000 5000) in
  Dedup.size 70000 (snd (Dedup.size 65000 c)) = Dedup.size 70000 c.
Proof.
  intros c. refine (proj2 (size_is_transparent "0xa" 65000 70000 c _)). lia.
Defined.
End DedupRuns.

(** ** The monitor over a cycle *)

Section MonitorRuns.
Variable dateParse : string -> option Z.
Variable numberToString : Q -> string.
Variable TOO_OLD_SECONDS : Z.

Let process := Monitor.processActivity dateParse numberToString TOO_OLD_SECONDS.

Lemma toLowerCase_empty (s : string) : toLowerCase s = ""%string -> s = ""%string.
Proof. destruct s; [reflexivity | discriminate]. Qed.

(** X7. Two feed elements with the same non-empty transaction hash, up
    to letter case, are one activity for the dedup cache whatever else
    differs between them, the leader included: once the monitor has
    published the first, the second, arriving within the TTL under any
    leader address, is dropped as a duplicate and not published. *)
Theorem same_hash_is_published_once
  (a b : ApiActivity) (h1 h2 : string) (address1 address2 : string)
  (clk1 clk2 : Monitor.Clock) (st st1 : Monitor.State) (q : QueueActivity)
  (Ha : api_transactionHash a = Some h1)
  (Hb : api_transactionHash b = Some h2)
  (Hh1 : h1 <> ""%string)
  (Hsame : toLowerCase h1 = toLowerCase h2)
  (Hmax : 1 <= Dedup.maxEntries (Monitor.dedup st))
  (Hlive : Monitor.cacheNow clk2 - Monitor.cacheNow clk1 <= Dedup.ttlMs (Monitor.dedup st))
  (Hage : Monitor.skipped TOO_OLD_SECONDS (Monitor.nowMs clk2)
            (Monitor.normalizeTimestamp dateParse (api_timestamp b)) = false)
  (Hfirst : process address1 clk1 a st = (Monitor.Published q, st1)) :
  fst (process address2 clk2 b st1) = Monitor.DroppedDuplicate
  /\ Monitor.distributor (snd (process address2 clk2 b st1)) = Monitor.distributor st1.
Proof.
  assert (Hh2 : h2 <> ""%string).
  { intros ->. apply Hh1. apply toLowerCase_empty. exact Hsame. }
  assert (Hkey : forall (x : ApiActivity) h ms addr det,
             api_transactionHash x = Some h -> h <> ""%string ->
             Dedup.buildActivityDedupKey numberToString
               (Monitor.toQueueActivity x ms addr det) = toLowerCase h).
  { intros x h ms addr det Hx Hne. unfold Dedup.buildActivityDedupKey.
    cbn [transactionHash Monitor.toQueueActivity]. rewrite Hx.
    unfold truthy. destruct (String.eqb_spec h ""); [contradiction | reflexivity]. }
  revert Hfirst. unfold process, Monitor.processActivity.
  destruct (Monitor.skipped TOO_OLD_SECONDS (Monitor.nowMs clk1) _); [discriminate|].
  rewrite Hage, (Hkey a h1 _ _ _ Ha Hh1), (Hkey b h2 _ _ _ Hb Hh2), <- Hsame.
  set (key := toLowerCase h1).
  destruct (Dedup.checkAndRemember key (Monitor.cacheNow clk1) (Monitor.dedup st))
    as [fresh cache1] eqn:E1.
  destruct fresh; [|discriminate].
  intros [= _ <-]. cbn [Monitor.dedup Monitor.distributor].
  assert (H1 : fst (Dedup.checkAndRemember key (Monitor.cacheNow clk1) (Monitor.dedup st)) = true)
    by now rewrite E1.
  destruct (fresh_key_is_last _ _ _ Hmax H1) as (pre & Hc & Hpre).
  destruct (checkAndRemember_config key (Monitor.cacheNow clk1) (Monitor.dedup st))
    as [Httl _].
  rewrite E1 in Hc, Httl. cbn [snd] in Hc, Httl.
  assert (H2 : fst (Dedup.checkAndRemember key (Monitor.cacheNow clk2) cache1) = false).
  { apply (present_is_refused key (Monitor.cacheNow clk1) _ _ pre [] Hc Hpre).
    now rewrite Httl. }
  destruct (Dedup.checkAndRemember key (Monitor.cacheNow clk2) cache1) as [fresh2 cache2].
  cbn [fst] in H2. subst fresh2. split; reflexivity.
Qed.

(** The number of activities a distributor has been handed and still
    accounts for: those posted and those in the backlog. *)
Let handed (m : Monitor.State) : nat :=
  (List.length (Distributor.posted (Monitor.distributor m))
   + List.length (Distributor.backlog (Monitor.distributor m)))%nat.

Lemma publish_hands_one (a : QueueActivity) (d : Distributor.State) :
  (List.length (Distributor.posted (Distributor.publishActivityToWorkers a d))
   + List.length (Distributor.backlog (Distributor.publishActivityToWorkers a d))
   = S (List.length (Distributor.posted d) + List.length (Distributor.backlog d)))%nat.
Proof.
  destruct (Distributor.workerPorts d) as [|w0 ws] eqn:E.
  - unfold Distributor.publishActivityToWorkers, Distributor.pickWorker.
    rewrite E. simpl. rewrite length_app. simpl. lia.
  - rewrite (publish_with_workers d a w0 ws E). simpl.
    rewrite length_app. simpl. lia.
Qed.

Lemma processActivity_counts address clk activity (m : Monitor.State) :
  (handed (snd (process address clk activity m)) + Monitor.enqueuedCount m
   = handed m + Monitor.enqueuedCount (snd (process address clk activity m)))%nat.
Proof.
  unfold process, Monitor.processActivity, handed.
  destruct (Monitor.skipped _ _ _); [reflexivity|].
  destruct (Dedup.checkAndRemember _ _ _) as [[|] cache']; cbn [snd Monitor.distributor
    Monitor.enqueuedCount]; [|reflexivity].
  rewrite publish_hands_one. lia.
Qed.

Lemma processActivities_counts address feed :
  forall m : Monitor.State,
    (handed (Monitor.processActivities dateParse numberToString TOO_OLD_SECONDS address feed m)
     + Monitor.enqueuedCount m
     = handed m
       + Monitor.enqueuedCount
           (Monitor.processActivities dateParse numberToString TOO_OLD_SECONDS address feed m))%nat.
Proof.
  induction feed as [|[clk activity] rest IH]; intros m; [reflexivity|].
  cbn [Monitor.processActivities].
  pose proof (processActivity_counts address clk activity m) as H1.
  pose proof (IH (snd (process address clk activity m))) as H2.
  unfold process in *. lia.
Qed.

Section Positions.
Variable Position : Type.
Variable stringify : Position -> string.
Variable positionAsset : Position -> string.
Variable positionConditionId : Position -> string.

Let poll := MonitorCycle.pollAddress dateParse numberToString TOO_OLD_SECONDS
              Position stringify positionAsset positionConditionId.
Let cycle := MonitorCycle.fetchTradeData dateParse numberToString TOO_OLD_SECONDS
               Position stringify positionAsset positionConditionId.
Let cachePosition := MonitorCycle.cachePosition Position stringify
                       positionAsset positionConditionId.
Let positionKey := MonitorCycle.positionKey Position positionAsset positionConditionId.

Lemma poll_counts (p : MonitorCycle.AddressPoll Position) (st : MonitorCycle.State Position) :
  (handed (MonitorCycle.monitor Position (poll p st))
   + Monitor.enqueuedCount (MonitorCycle.monitor Position st)
   = handed (MonitorCycle.monitor Position st)
     + Monitor.enqueuedCount (MonitorCycle.monitor Position (poll p st)))%nat.
Proof.
  unfold poll, MonitorCycle.pollAddress.
  destruct (MonitorCycle.activities Position p) as [| |[|x feed]]; try reflexivity.
  destruct (MonitorCycle.positions Position p); cbn [MonitorCycle.monitor];
    apply processActivities_counts.
Qed.

(** X8. The count [fetchTradeData] returns is the number of activities
    the cycle handed to the distributor: the posted messages and the
    backlog together grow by exactly that number. *)
Theorem cycle_count_is_what_was_handed_over
  (now : Z) (polls : list (MonitorCycle.AddressPoll Position))
  (st : MonitorCycle.State Position) :
  let r := cycle now polls st in
  let d := Monitor.distributor (MonitorCycle.monitor Position st) in
  let d' := Monitor.distributor (MonitorCycle.monitor Position (snd r)) in
  (List.length (Distributor.posted d') + List.length (Distributor.backlog d')
   = List.length (Distributor.posted d) + List.length (Distributor.backlog d) + fst r)%nat.
Proof.
  intros r d d'. subst r d d'. unfold cycle, MonitorCycle.fetchTradeData. cbn [fst snd].
  match goal with |- context [fold_left _ polls ?s0] => set (st0 := s0) end.
  assert (Hgen : forall s : MonitorCycle.State Position,
             (handed (MonitorCycle.monitor Position (fold_left (fun s p => poll p s) polls s))
              + Monitor.enqueuedCount (MonitorCycle.monitor Position s)
              = handed (MonitorCycle.monitor Position s)
                + Monitor.enqueuedCount
                    (MonitorCycle.monitor Position (fold_left (fun s p => poll p s) polls s)))%nat).
  { induction polls as [|p ps IH]; intros s; [reflexivity|].
    cbn [fold_left]. pose proof (poll_counts p s). pose proof (IH (poll p s)). lia. }
  specialize (Hgen st0). unfold handed in Hgen. subst st0.
  cbn [MonitorCycle.monitor Monitor.distributor Monitor.enqueuedCount] in Hgen.
  unfold poll in Hgen. lia.
Qed.

(** X9. An address whose activity fetch throws, returns something that
    is not an array, or returns an empty array is passed over: the cycle
    goes on to the next address and ends as if that address had not been
    polled, and in particular its positions are not cached, whatever the
    positions fetch would have returned. A failure of the positions fetch
    does not undo what the activities of the address did to the dedup
    cache and the distributor. *)
Theorem quiet_or_failing_address_is_passed_over
  (now : Z) (before after : list (MonitorCycle.AddressPoll Position))
  (p : MonitorCycle.AddressPoll Position) (st : MonitorCycle.State Position) :
  (MonitorCycle.activities Position p = MonitorCycle.FetchThrew
   \/ MonitorCycle.activities Position p = MonitorCycle.FetchedOther
   \/ MonitorCycle.activities Position p = MonitorCycle.FetchedArray [] ->
   cycle now (before ++ p :: after) st = cycle now (before ++ after) st)
  /\ (forall ps,
         MonitorCycle.monitor Position
           (poll {| MonitorCycle.address := MonitorCycle.address Position p;
                    MonitorCycle.activities := MonitorCycle.activities Position p;
                    MonitorCycle.positions := MonitorCycle.FetchThrew |} st)
         = MonitorCycle.monitor Position
             (poll {| MonitorCycle.address := MonitorCycle.address Position p;
                      MonitorCycle.activities := MonitorCycle.activities Position p;
                      MonitorCycle.positions := MonitorCycle.FetchedArray ps |} st)).
Proof.
  split.
  - intros Hquiet.
    assert (Hskip : forall s, poll p s = s).
    { intros s. unfold poll, MonitorCycle.pollAddress.
      destruct Hquiet as [-> | [-> | ->]]; reflexivity. }
    unfold cycle, MonitorCycle.fetchTradeData.
    rewrite !fold_left_app. cbn [fold_left]. fold poll. rewrite Hskip. reflexivity.
  - intros ps. unfold poll, MonitorCycle.pollAddress. cbn [MonitorCycle.activities
      MonitorCycle.positions MonitorCycle.address].
    destruct (MonitorCycle.activities Position p) as [| |[|x feed]]; reflexivity.
Qed.

(** X10. After [cachePosition] the cache holds, under the position's
    key, an entry whose data serialises as the fetched position; the
    entry is either the one written now or an untouched one less than a
    minute old with the same serialisation. No other key is affected. An
    entry left untouched keeps its first timestamp, so the sweep removes
    it one minute after it was first cached. *)
Theorem cachePosition_caches_current_data
  (address : string) (now : Z) (position : Position)
  (cache : MonitorCycle.PositionCache Position) :
  let key := positionKey address position in
  let cache' := cachePosition address now position cache in
  (exists e,
      JsMap.get key cache' = Some e
      /\ stringify (MonitorCycle.data Position e) = stringify position
      /\ (e = {| MonitorCycle.data := position; MonitorCycle.cachedAt := now |}
          \/ (JsMap.get key cache = Some e
              /\ now - MonitorCycle.cachedAt Position e < 60000
              /\ cache' = cache)))
  /\ (forall k, k <> key -> JsMap.get k cache' = JsMap.get k cache)
  /\ (forall e later,
         JsMap.wf cache ->
         JsMap.get key cache = Some e ->
         stringify (MonitorCycle.data Position e) = stringify position ->
         now - MonitorCycle.cachedAt Position e < 60000 ->
         60000 <= later - MonitorCycle.cachedAt Position e ->
         JsMap.get key (MonitorCycle.expireCache Position later cache') = None).
Proof.
  intros key cache'. subst cache'. unfold cachePosition, MonitorCycle.cachePosition.
  fold (positionKey address position). fold key.
  split; [|split].
  - destruct (JsMap.get key cache) as [cached|] eqn:G.
    + destruct (Z.ltb_spec (now - MonitorCycle.cachedAt Position cached) 60000) as [Hfresh|Hold].
      * destruct (String.eqb_spec (stringify (MonitorCycle.data Position cached))
                    (stringify position)) as [Heq|Hne]; cbn [negb].
        -- exists cached. split; [exact G|]. split; [exact Heq|]. right. auto.
        -- eexists. rewrite get_set_same. split; [reflexivity|].
           split; [reflexivity | now left].
      * eexists. rewrite get_set_same. split; [reflexivity|].
        split; [reflexivity | now left].
    + eexists. rewrite get_set_same. split; [reflexivity|].
      split; [reflexivity | now left].
  - intros k Hk.
    destruct (match JsMap.get key cache with
              | Some cached => _
              | None => true
              end); [|reflexivity].
    apply get_set_other. congruence.
  - intros e later Hwf G Hsame Hfresh Hold. rewrite G.
    destruct (Z.ltb_spec (now - MonitorCycle.cachedAt Position e) 60000); [|lia].
    rewrite Hsame, String.eqb_refl. cbn [negb].
    apply get_none_iff. unfold MonitorCycle.expireCache, JsMap.keys.
    rewrite in_map_iff. intros [[k x] [E Hin]]. cbn [fst] in E. subst k.
    apply filter_In in Hin. destruct Hin as [Hin Hkeep].
    rewrite (get_in_wf _ _ _ Hwf Hin) in G. injection G as ->.
    cbn [snd] in Hkeep.
    destruct (Z.leb_spec 60000 (later - MonitorCycle.cachedAt Position e)); [discriminate | lia].
Qed.
End Positions.
End MonitorRuns.

Lemma same_hash_is_published_once_witness :
  let process := Monitor.processActivity (fun _ => None) (fun _ => "n"%string) 3600 in
  let a := withTransactionHash (Some "0xABC"%string) sample_activity in
  let b := withTransactionHash (Some "0xabc"%string) sample_activity in
  let st1 := snd (process "0xleader1"%string (sample_clock 1762128001000) a sample_monitor) in
  fst (process "0xleader2"%string (sample_clock 1762128002000) b st1)
  = Monitor.DroppedDuplicate.
Proof.
  intros process a b st1.
  refine (proj1 (same_hash_is_published_once (fun _ => None) (fun _ => "n"%string) 3600
                   a b "0xABC" "0xabc" "0xleader1" "0xleader2"
                   (sample_clock 1762128001000) (sample_clock 1762128002000)
                   sample_monitor st1
                   (Monitor.toQueueActivity a 1762128000000 "0xleader1" 1762128001000)
                   eq_refl eq_refl _ eq_refl _ _ eq_refl eq_refl)).
  - discriminate.
  - vm_compute. congruence.
  - vm_compute. congruence.
Defined.

(** ** The paper trader over sequences of trades *)

Section PaperRuns.
Local Open Scope Q_scope.
Implicit Types (pt : Paper.PaperTrader) (trade : QueueActivity).

(** X11. [executeTrade] only ever touches the position of the trade's own
    market: the position stored under any other [conditionId] is the same
    before and after, whether the trade is accepted or refused. *)
Theorem executeTrade_leaves_other_markets (trade : QueueActivity)
  (pt : Paper.PaperTrader) (cid : string) :
  cid <> conditionId trade ->
  JsMap.get cid (Paper.positions (snd (Paper.executeTrade trade pt)))
  = JsMap.get cid (Paper.positions pt).
Proof.
  intros Hne. unfold Paper.executeTrade.
  destruct (isBuy (side trade)).
  - destruct (Qltb _ _); cbn [snd Paper.positions]; [reflexivity|].
    apply get_set_other. congruence.
  - destruct (JsMap.get (conditionId trade) (Paper.positions pt)); [|reflexivity].
    destruct (Qltb _ _); cbn [snd Paper.positions]; [reflexivity|].
    destruct (Qeq_bool _ _).
    + apply get_delete_other. congruence.
    + apply get_set_other. congruence.
Qed.

Lemma executeTrade_leaves_other_markets_witness :
  let pt := snd (Paper.executeTrade (sample_trade "BUY" "cond-1" 10 5 (1 # 2))
                   (Paper.new 15)) in
  JsMap.get "cond-1" (Paper.positions
                        (snd (Paper.executeTrade (sample_trade "BUY" "cond-2" 4 3 (3 # 4)) pt)))
  = JsMap.get "cond-1" (Paper.positions pt).
Proof.
  intros pt.
  apply (executeTrade_leaves_other_markets (sample_trade "BUY" "cond-2" 4 3 (3 # 4)) pt "cond-1").
  discriminate.
Defined.

Lemma in_positions_after trade pt cid (p : Paper.Position) :
  In (cid, p) (Paper.positions (snd (Paper.executeTrade trade pt))) ->
  In (cid, p) (Paper.positions pt)
  \/ (cid = conditionId trade
      /\ fst (Paper.executeTrade trade pt) = true
      /\ exists sz0 inv0,
          (JsMap.get cid (Paper.positions pt) = None /\ sz0 = 0 /\ inv0 = 0
           \/ exists e, JsMap.get cid (Paper.positions pt) = Some e
                        /\ sz0 = Paper.pos_size e /\ inv0 = Paper.pos_invested e)
          /\ (isBuy (side trade) = true
              /\ Paper.pos_size p = sz0 + orZero (size trade)
              /\ Paper.pos_invested p = inv0 + orZero (usdcSize trade)
              /\ Paper.pos_avgPrice p
                 = (if Qltb 0 (Paper.pos_size p)
                    then Paper.pos_invested p / Paper.pos_size p
                    else orZero (price trade))
              \/ isBuy (side trade) = false
                 /\ orZero (size trade) <= sz0
                 /\ Paper.pos_size p = sz0 - orZero (size trade)
                 /\ Paper.pos_invested p = inv0 - orZero (usdcSize trade))).
Proof.
  unfold Paper.executeTrade.
  destruct (isBuy (side trade)) eqn:Hside.
  - destruct (Qltb _ _); cbn [snd fst Paper.positions]; [now left|].
    intros Hin. apply in_set_inv in Hin. destruct Hin as [[-> ->]|Hin]; [|now left].
    right. split; [reflexivity|]. split; [reflexivity|].
    destruct (JsMap.get (conditionId trade) (Paper.positions pt)) as [e|] eqn:G.
    + exists (Paper.pos_size e), (Paper.pos_invested e). split.
      * right. exists e. auto.
      * left. cbn. auto.
    + exists 0, 0. split; [left; auto|]. left. cbn. auto.
  - destruct (JsMap.get (conditionId trade) (Paper.positions pt)) as [e|] eqn:G;
      [|now left].
    destruct (Qltb (Paper.pos_size e) (orZero (size trade))) eqn:Hlt;
      cbn [snd fst Paper.positions]; [now left|].
    apply Qltb_false_iff in Hlt.
    destruct (Qeq_bool _ _).
    + intros Hin. left. unfold JsMap.delete in Hin. apply filter_In in Hin. tauto.
    + intros Hin. apply in_set_inv in Hin. destruct Hin as [[-> ->]|Hin]; [|now left].
      right. split; [reflexivity|]. split; [reflexivity|].
      exists (Paper.pos_size e), (Paper.pos_invested e). split.
      * right. exists e. auto.
      * right. cbn. auto.
Qed.

(** X12. Starting from a non-negative balance, whatever trades with
    non-negative [size] and [usdcSize] the trader is offered, its balance
    never becomes negative and no position ever has a negative size. *)
Theorem paper_trader_stays_solvent
  (initialUsd : Q) (ts : list QueueActivity)
  (Hinit : 0 <= initialUsd)
  (Hts : forall t, In t ts -> 0 <= orZero (size t) /\ 0 <= orZero (usdcSize t)) :
  let pt := PaperRun.executeAll ts (Paper.new initialUsd) in
  0 <= Paper.balance pt
  /\ forall cid p, JsMap.get cid (Paper.positions pt) = Some p -> 0 <= Paper.pos_size p.
Proof.
  intros pt. subst pt.
  assert (Hgen : forall pt0,
             0 <= Paper.balance pt0 ->
             (forall cid p, In (cid, p) (Paper.positions pt0) -> 0 <= Paper.pos_size p) ->
             0 <= Paper.balance (PaperRun.executeAll ts pt0)
             /\ forall cid p, In (cid, p) (Paper.positions (PaperRun.executeAll ts pt0)) ->
                              0 <= Paper.pos_size p).
  { induction ts as [|t rest IH]; intros pt0 Hb Hp; [split; assumption|].
    cbn [PaperRun.executeAll fold_left].
    fold (PaperRun.executeAll rest (snd (Paper.executeTrade t pt0))).
    destruct (Hts t) as [Hsz Hus]; [now left|].
    apply IH.
    - intros t' Hin. apply Hts. now right.
    - unfold Paper.executeTrade.
      destruct (isBuy (side t)).
      + destruct (Qltb _ _) eqn:Hlt; cbn [snd Paper.balance]; [exact Hb|].
        apply Qltb_false_iff in Hlt. unfold Qminus. rewrite <- Qle_minus_iff. exact Hlt.
      + destruct (JsMap.get _ _); [|exact Hb].
        destruct (Qltb _ _); cbn [snd Paper.balance]; [exact Hb|].
        rewrite <- (Qplus_0_l 0). now apply Qplus_le_compat.
    - intros cid p Hin. apply in_positions_after in Hin.
      destruct Hin as [Hin|(_ & _ & sz0 & inv0 & Hsrc & Hnew)]; [now apply (Hp cid)|].
      assert (Hsz0 : 0 <= sz0).
      { destruct Hsrc as [(_ & -> & _)|(e & G & -> & _)]; [apply Qle_refl|].
        apply (Hp _ _ (get_some_in _ _ _ G)). }
      destruct Hnew as [(_ & -> & _)|(_ & Hle & -> & _)].
      + rewrite <- (Qplus_0_l 0). now apply Qplus_le_compat.
      + unfold Qminus. rewrite <- Qle_minus_iff. exact Hle. }
  destruct (Hgen (Paper.new initialUsd)) as [Hb Hp].
  - exact Hinit.
  - intros cid p [].
  - split; [exact Hb|]. intros cid p G. apply (Hp cid). now apply get_some_in.
Qed.

Lemma paper_trader_stays_solvent_witness :
  0 <= Paper.balance
         (PaperRun.executeAll [sample_trade "BUY" "cond-1" 10 5 (1 # 2);
                               sample_trade "SELL" "cond-1" 4 3 (3 # 4)]
            (Paper.new 15)).
Proof.
  refine (proj1 (paper_trader_stays_solvent 15
                   [sample_trade "BUY" "cond-1" 10 5 (1 # 2);
                    sample_trade "SELL" "cond-1" 4 3 (3 # 4)] _ _)).
  - discriminate.
  - intros t [<-|[<-|[]]]; split; discriminate.
Defined.

End PaperRuns.

(** ** A round trip of the paper trader, in double precision *)

Section Binary64RoundTrip.

Lemma finite_cases (s : float) :
  is_finite s = true ->
  match Prim2SF s with
  | S754_zero _ | S754_finite _ _ _ => True
  | S754_infinity _ | S754_nan => False
  end.
Proof.
  unfold is_finite. rewrite negb_true_iff, orb_false_iff.
  unfold is_nan, is_infinity. rewrite negb_false_iff, !eqb_spec, abs_spec.
  intros [Hnan Hinf].
  destruct (Prim2SF s) as [sg|sg| |sg m e]; try exact I.
  - destruct sg; discriminate Hinf.
  - discriminate Hnan.
Qed.

(** A quantity bought into an empty position and sold back leaves a size
    of exactly zero: [0 + s] is [s] and [s - s] is 0 for every finite [s]. *)
Lemma bought_and_sold_back (s : float) :
  is_finite s = true ->
  (0 + s <? s)%float = false /\ (0 + s - s =? 0)%float = true.
Proof.
  intros Hfin. pose proof (finite_cases s Hfin) as Hs.
  rewrite ltb_spec, eqb_spec, sub_spec, add_spec.
  change (Prim2SF 0) with (S754_zero false).
  destruct (Prim2SF s) as [sg|sg| |sg m e]; try contradiction.
  - destruct sg; split; reflexivity.
  - cbn [SF64add SFadd]. split.
    + unfold SFltb, SFcompare. rewrite Z.compare_refl.
      fold (Pos.compare m m). rewrite Pos.compare_refl. now destruct sg.
    + unfold SF64sub, SFsub. rewrite Z.sub_diag. reflexivity.
Qed.

(** X14. Buying into a market in which the trader holds nothing and
    selling the same quantity back for the same notional are both accepted
    (given the balance covers the purchase) and leave no position behind:
    the positions are exactly those before, whatever the rounding. The
    balance is [(balance - usdcSize) + usdcSize] in doubles, which is the
    balance before only up to the rounding of the two operations. *)
Theorem buy_then_sell_back_restores_trader
  (buy sell : Binary64.QueueActivity) (pt : Binary64.Paper.PaperTrader)
  (Hbuy : isBuy (Binary64.side buy) = true)
  (Hsell : isBuy (Binary64.side sell) = false)
  (Hmarket : Binary64.conditionId sell = Binary64.conditionId buy)
  (Hsize : Binary64.orZero (Binary64.size sell) = Binary64.orZero (Binary64.size buy))
  (Husdc : Binary64.orZero (Binary64.usdcSize sell)
           = Binary64.orZero (Binary64.usdcSize buy))
  (Hfinite : is_finite (Binary64.orZero (Binary64.size buy)) = true)
  (Hnone : JsMap.get (Binary64.conditionId buy) (Binary64.Paper.positions pt) = None)
  (Hfunds : (Binary64.Paper.balance pt <? Binary64.orZero (Binary64.usdcSize buy))%float
            = false) :
  let r1 := Binary64.Paper.executeTrade buy pt in
  let r2 := Binary64.Paper.executeTrade sell (snd r1) in
  let usdc := Binary64.orZero (Binary64.usdcSize buy) in
  fst r1 = true /\ fst r2 = true
  /\ Binary64.Paper.positions (snd r2) = Binary64.Paper.positions pt
  /\ Binary64.Paper.balance (snd r2) = (Binary64.Paper.balance pt - usdc + usdc)%float
  /\ (Binary64.realValue (Binary64.Paper.balance (snd r2))
      == Binary64.realValue (Binary64.Paper.balance pt)
         + Binary64.subError (Binary64.Paper.balance pt) usdc
         + Binary64.addError (Binary64.Paper.balance pt - usdc) usdc)%Q.
Proof.
  intros r1 r2 usdc. subst r2 r1.
  destruct (Binary64.Paper.executeTrade buy pt) as [ok1 pt1] eqn:E1.
  unfold Binary64.Paper.executeTrade in E1. rewrite Hbuy, Hnone, Hfunds in E1.
  injection E1 as <- <-. cbn [fst snd].
  unfold Binary64.Paper.executeTrade. rewrite Hsell, Hmarket.
  cbn [Binary64.Paper.positions Binary64.Paper.balance]. rewrite get_set_same.
  cbn [Binary64.Paper.pos_size Binary64.Paper.pos_invested].
  rewrite Hsize, Husdc.
  destruct (bought_and_sold_back _ Hfinite) as [Hlt Hz].
  rewrite Hlt, Hz. cbn [fst snd Binary64.Paper.positions Binary64.Paper.balance].
  split; [reflexivity|]. split; [reflexivity|]. split; [|split].
  - rewrite (set_absent _ _ _ Hnone), delete_app.
    rewrite delete_absent by (now apply get_none_iff).
    unfold JsMap.delete. cbn [filter fst]. rewrite String.eqb_refl. cbn [negb].
    apply app_nil_r.
  - reflexivity.
  - unfold Binary64.subError, Binary64.addError. fold usdc. ring.
Qed.
End Binary64RoundTrip.

Lemma buy_then_sell_back_restores_trader_witness :
  let r1 := Binary64.Paper.executeTrade (Binary64.sample_trade "BUY" "cond-1" 10 0.48 0.048)
              (Binary64.Paper.new 5.88) in
  let r2 := Binary64.Paper.executeTrade (Binary64.sample_trade "SELL" "cond-1" 10 0.48 0.048)
              (snd r1) in
  Binary64.Paper.positions (snd r2) = Binary64.Paper.positions (Binary64.Paper.new 5.88)
  /\ Binary64.Paper.balance (snd r2) = 5.880000000000001%float.
Proof.
  destruct (buy_then_sell_back_restores_trader
       (Binary64.sample_trade "BUY" "cond-1" 10 0.48 0.048)
       (Binary64.sample_trade "SELL" "cond-1" 10 0.48 0.048)
       (Binary64.Paper.new 5.88) eq_refl eq_refl eq_refl eq_refl eq_refl eq_refl
       eq_refl eq_refl) as (_ & _ & Hp & Hb & _).
  split; [exact Hp | exact Hb].
Defined.

(** ** The worker over runs *)

Section WorkerRuns.
Local Open Scope Q_scope.
Variable TRADE_AGGREGATION_ENABLED : bool.
Variable TRADE_AGGREGATION_WINDOW_SECONDS : Z.
Variable PAPER_TRADING_ENABLED : bool.

Let doTrading := Executor.doTrading PAPER_TRADING_ENABLED.
Let tick := Executor.flusherTick TRADE_AGGREGATION_WINDOW_SECONDS.
Let loop := ExecutorRun.dequeueLoop TRADE_AGGREGATION_ENABLED PAPER_TRADING_ENABLED.
Let elapsed (now : Z) (e : string * Executor.AggregatedTrade) : bool :=
  Executor.windowElapsed TRADE_AGGREGATION_WINDOW_SECONDS now (snd e).

(** X15. [doTrading] with paper trading on and a paper trader present
    never posts an order: every trade of the batch goes to the paper
    trader, in order. Otherwise it posts exactly one order per trade, in
    batch order, and leaves the paper trader alone. *)
Theorem doTrading_is_paper_or_live (batch : list QueueActivity) (w : Executor.Worker) :
  (PAPER_TRADING_ENABLED = true ->
   forall pt, Executor.paperTrader w = Some pt ->
              Executor.orders (doTrading batch w) = Executor.orders w
              /\ Executor.paperTrader (doTrading batch w)
                 = Some (PaperRun.executeAll batch pt))
  /\ (PAPER_TRADING_ENABLED = false \/ Executor.paperTrader w = None ->
      Executor.orders (doTrading batch w)
      = (Executor.orders w ++ map Executor.immediateOrder batch)%list
      /\ Executor.paperTrader (doTrading batch w) = Executor.paperTrader w).
Proof.
  unfold doTrading. split.
  - intros Hon. revert w. induction batch as [|trade rest IH]; intros w pt Hpt.
    + split; [reflexivity | exact Hpt].
    + cbn [Executor.doTrading].
      assert (Hsome : (if PAPER_TRADING_ENABLED then Executor.paperTrader w else None)
                      = Some pt) by (rewrite Hon; exact Hpt).
      rewrite Hsome. cbn [PaperRun.executeAll fold_left].
      destruct (Paper.executeTrade trade pt) as [executed pt'] eqn:E.
      cbv beta iota. cbn [snd].
      destruct (IH (Executor.withPaperTrader pt' w) pt' eq_refl) as [Ho Hp].
      rewrite Ho, Hp. split; reflexivity.
  - revert w. induction batch as [|trade rest IH]; intros w Hlive.
    + cbn. now rewrite app_nil_r.
    + cbn [Executor.doTrading].
      assert (Hnone : (if PAPER_TRADING_ENABLED then Executor.paperTrader w else None) = None).
      { destruct Hlive as [-> | ->]; [reflexivity | now destruct PAPER_TRADING_ENABLED]. }
      rewrite Hnone.
      destruct (IH (Executor.withOrders
                      (Executor.orders w ++ [Executor.immediateOrder trade]) w))
        as [Ho Hp]; [exact Hlive|].
      rewrite Ho, Hp. cbn [Executor.orders Executor.paperTrader Executor.withOrders map].
      now rewrite <- app_assoc.
Qed.

Lemma doAggregatedTrading_length (l : list Executor.AggregatedTrade) :
  Forall (fun agg => Executor.trades agg <> []) l ->
  List.length (Executor.doAggregatedTrading l) = List.length l.
Proof.
  induction 1 as [|agg l Hne _ IH]; [reflexivity|].
  cbn [Executor.doAggregatedTrading].
  destruct (Executor.trades agg); [contradiction|]. simpl. now rewrite IH.
Qed.

Lemma filter_map_snd_length {A B : Type} (p : A * B -> bool) (q : B -> bool)
      (l : list (A * B)) :
  List.length (filter q (map snd (filter p l)))
  = List.length (filter (fun e => p e && q (snd e)) l).
Proof.
  induction l as [|e l IH]; [reflexivity|].
  cbn [filter]. destruct (p e); cbn [map filter andb]; [|exact IH].
  destruct (q (snd e)); cbn [List.length]; now rewrite IH.
Qed.

Lemma tick_running now (w : Executor.Worker) :
  Executor.isRunning w = true ->
  Executor.aggregationFlushInProgress w = false ->
  JsMap.wf (Executor.tradeAggregationBuffer w) ->
  tick now w
  = Executor.withOrders
      (Executor.orders w
       ++ Executor.doAggregatedTrading
            (filter Executor.meetsMinimum
               (map snd (filter (elapsed now) (Executor.tradeAggregationBuffer w)))))%list
      (Executor.withBuffer
         (filter (fun e => negb (elapsed now e)) (Executor.tradeAggregationBuffer w)) w).
Proof.
  intros Hrun Hidle Hwf. unfold tick, Executor.flusherTick.
  rewrite Hrun, Hidle. cbn [negb orb].
  rewrite (getReady_spec _ now _ Hwf). fold (elapsed now).
  destruct (filter Executor.meetsMinimum _); [|reflexivity].
  cbn [Executor.doAggregatedTrading]. rewrite app_nil_r.
  unfold Executor.withOrders, Executor.withBuffer. reflexivity.
Qed.

Lemma get_filter_wf {V : Type} (p : string * V -> bool) (k : string) (v : V)
      (m : JsMap.t V) :
  JsMap.wf m -> JsMap.get k m = Some v -> p (k, v) = true ->
  JsMap.get k (filter p m) = Some v.
Proof.
  intros Hwf G Hp. apply get_in_wf; [now apply wf_filter|].
  apply filter_In. split; [now apply get_some_in | exact Hp].
Qed.

Lemma filter_none {A : Type} (p q : A -> bool) (l : list A) :
  (forall x, q x = true -> p x = false) -> filter p (filter q l) = [].
Proof.
  intros H. induction l as [|x l IH]; [reflexivity|].
  cbn [filter]. destruct (q x) eqn:Hq; [|exact IH].
  cbn [filter]. now rewrite (H x Hq).
Qed.

(** X17. A flusher tick repeated at the same time changes nothing
    further, and a tick never touches a record whose window has not
    expired. *)
Theorem flusher_tick_is_idempotent (now : Z) (w : Executor.Worker)
  (Hwf : JsMap.wf (Executor.tradeAggregationBuffer w)) :
  tick now (tick now w) = tick now w
  /\ forall key agg,
      JsMap.get key (Executor.tradeAggregationBuffer w) = Some agg ->
      Executor.windowElapsed TRADE_AGGREGATION_WINDOW_SECONDS now agg = false ->
      JsMap.get key (Executor.tradeAggregationBuffer (tick now w)) = Some agg.
Proof.
  destruct (Executor.isRunning w) eqn:Hrun;
    [destruct (Executor.aggregationFlushInProgress w) eqn:Hidle|].
  - assert (E : tick now w = w)
      by (unfold tick, Executor.flusherTick; now rewrite Hrun, Hidle).
    rewrite !E. split; [reflexivity | auto].
  - rewrite (tick_running now w Hrun Hidle Hwf). split.
    + rewrite tick_running; cbn [Executor.isRunning Executor.aggregationFlushInProgress
        Executor.tradeAggregationBuffer Executor.withOrders Executor.withBuffer
        Executor.orders]; auto; [|now apply wf_filter].
      rewrite (filter_none (elapsed now) (fun e => negb (elapsed now e))).
      * cbn [map filter Executor.doAggregatedTrading]. rewrite app_nil_r.
        rewrite (filter_filter_weaker (fun e => negb (elapsed now e))) by auto.
        reflexivity.
      * intros x Hx. now apply negb_true_iff.
    + intros key agg G He.
      cbn [Executor.tradeAggregationBuffer Executor.withOrders Executor.withBuffer].
      apply get_filter_wf; auto. unfold elapsed. cbn [snd]. now rewrite He.
  - assert (E : tick now w = w)
      by (unfold tick, Executor.flusherTick; now rewrite Hrun).
    rewrite !E. split; [reflexivity | auto].
Qed.

Lemma doTrading_keeps_running (batch : list QueueActivity) :
  forall w,
    Executor.isRunning (doTrading batch w) = Executor.isRunning w
    /\ Executor.aggregationFlushInProgress (doTrading batch w)
       = Executor.aggregationFlushInProgress w.
Proof.
  unfold doTrading.
  induction batch as [|trade rest IH]; intros w; [split; reflexivity|].
  cbn [Executor.doTrading].
  destruct (if PAPER_TRADING_ENABLED then Executor.paperTrader w else None).
  - destruct (Paper.executeTrade trade p) as [executed pt'].
    destruct (IH (Executor.withPaperTrader pt' w)) as [-> ->]. split; reflexivity.
  - destruct (IH (Executor.withOrders
                    (Executor.orders w ++ [Executor.immediateOrder trade]) w))
      as [-> ->].
    split; reflexivity.
Qed.

(** X18. The dequeue loop handles the local queue first in, first out:
    run for as many turns as the queue is long, it takes the activities
    in arrival order, each one buffered or traded according to the
    routing test, and leaves the queue empty. *)
Theorem dequeue_loop_is_fifo (clocks : list Z) (w : Executor.Worker)
  (Hrun : Executor.isRunning w = true)
  (Hlen : List.length clocks = List.length (Executor.localQueue w)) :
  fst (loop clocks w)
  = map (fun a => if Executor.aggregationCandidate TRADE_AGGREGATION_ENABLED a
                  then Executor.Buffered a else Executor.Traded a)
      (Executor.localQueue w)
  /\ Executor.localQueue (snd (loop clocks w)) = []
  /\ Executor.isRunning (snd (loop clocks w)) = true.
Proof.
  unfold loop. revert w Hrun Hlen.
  induction clocks as [|now rest IH]; intros w Hrun Hlen.
  - destruct (Executor.localQueue w) eqn:Q; [|discriminate]. cbn. auto.
  - destruct (Executor.localQueue w) as [|a q] eqn:Q; [discriminate|].
    cbn [ExecutorRun.dequeueLoop]. rewrite Hrun.
    unfold Executor.dequeueTurn. rewrite Q.
    destruct (Executor.aggregationCandidate TRADE_AGGREGATION_ENABLED a) eqn:Hc.
    + match goal with |- context [ExecutorRun.dequeueLoop _ _ rest ?x] => set (w1 := x) end.
      destruct (IH w1) as (Ht & Hq & Hr); [exact Hrun | simpl in *; lia |].
      destruct (ExecutorRun.dequeueLoop _ _ rest w1) as [turns w2].
      cbn [fst snd map] in *. rewrite Ht, Hc.
      change (Executor.localQueue w1) with q. auto.
    + match goal with |- context [ExecutorRun.dequeueLoop _ _ rest ?x] => set (w1 := x) end.
      assert (Hq1 : Executor.localQueue w1 = q).
      { subst w1. fold doTrading.
        now rewrite (proj2 (doTrading_keeps_buffer PAPER_TRADING_ENABLED [a] _)). }
      assert (Hr1 : Executor.isRunning w1 = true).
      { subst w1. fold doTrading.
        now rewrite (proj1 (doTrading_keeps_running [a] _)). }
      destruct (IH w1) as (Ht & Hq & Hr); [exact Hr1 | rewrite Hq1; simpl in *; lia |].
      destruct (ExecutorRun.dequeueLoop _ _ rest w1) as [turns w2].
      cbn [fst snd map] in *. rewrite Ht, Hq1, Hc. auto.
Qed.

End WorkerRuns.

Lemma flusher_tick_is_idempotent_witness :
  let t := sample_trade "BUY" "cond-1" 2 1 (1 # 2) in
  let w := Executor.withBuffer (Executor.addToAggregationBuffer t 0 JsMap.empty)
             (Executor.initial false 0) in
  Executor.flusherTick 2 2000 (Executor.flusherTick 2 2000 w) = Executor.flusherTick 2 2000 w.
Proof.
  intros t w.
  refine (proj1 (flusher_tick_is_idempotent 2 2000 w _)).
  unfold JsMap.wf. simpl. constructor; [simpl; tauto | constructor].
Defined.

Lemma dequeue_loop_is_fifo_witness :
  let small := sample_trade "BUY" "cond-1" (4 # 5) (2 # 5) (1 # 2) in
  let big := sample_trade "SELL" "cond-1" 4 3 (3 # 4) in
  let w := Executor.withQueue [small; big] (Executor.initial false 0) in
  fst (ExecutorRun.dequeueLoop true false [10; 20] w)
  = [Executor.Buffered small; Executor.Traded big].
Proof.
  intros small big w.
  exact (proj1 (dequeue_loop_is_fifo true false [10; 20] w eq_refl eq_refl)).
Defined.

(** ** The worker, event by event *)

Section WorkerEvents.
Variable TRADE_AGGREGATION_ENABLED : bool.
Variable TRADE_AGGREGATION_WINDOW_SECONDS : Z.
Variable PAPER_TRADING_ENABLED : bool.

Let step :=
  ExecutorAsync.step TRADE_AGGREGATION_ENABLED TRADE_AGGREGATION_WINDOW_SECONDS
    PAPER_TRADING_ENABLED.
Let run :=
  ExecutorAsync.run TRADE_AGGREGATION_ENABLED TRADE_AGGREGATION_WINDOW_SECONDS
    PAPER_TRADING_ENABLED.
Let elapsed (now : Z) (e : string * Executor.AggregatedTrade) : bool :=
  Executor.windowElapsed TRADE_AGGREGATION_WINDOW_SECONDS now (snd e).

Lemma batch_at_most calls (l : list Executor.AggregatedTrade) :
  (List.length (ExecutorAsync.doAggregatedTrading calls l) <= List.length l)%nat.
Proof.
  revert calls. induction l as [|agg l IH]; intros calls.
  - now rewrite batch_no_records.
  - destruct calls as [|o calls]; [simpl; lia|].
    cbn [ExecutorAsync.doAggregatedTrading].
    destruct (Executor.trades agg); [simpl; lia|].
    destruct o; cbn [List.length]; [specialize (IH calls)|..]; lia.
Qed.

(** X16. The flusher does not look at the paper-trading switch: with
    paper trading on or off, a tick and the calls of its batch leave the
    paper trader and the local queue as they are and hand orders to
    [postOrder]: at most one for every record whose window has expired and
    whose total reaches the minimum, and exactly one for each of them when
    every call returns. *)
Theorem flusher_posts_orders_in_any_mode
  (now : Z) (calls : list ExecutorAsync.CallOutcome) (s : ExecutorAsync.State)
  (Hrun : Executor.isRunning (ExecutorAsync.worker s) = true)
  (Hidle : Executor.aggregationFlushInProgress (ExecutorAsync.worker s) = false)
  (Hnone : ExecutorAsync.flushing s = [])
  (Hwf : JsMap.wf (Executor.tradeAggregationBuffer (ExecutorAsync.worker s)))
  (Hfirst : forall k a,
      In (k, a) (Executor.tradeAggregationBuffer (ExecutorAsync.worker s)) ->
      Executor.trades a <> []) :
  let s2 := run (ExecutorAsync.FlusherTick now :: map ExecutorAsync.FlushCall calls) s in
  let due :=
    filter (fun e => elapsed now e && Executor.meetsMinimum (snd e))
      (Executor.tradeAggregationBuffer (ExecutorAsync.worker s)) in
  Executor.paperTrader (ExecutorAsync.worker s2)
  = Executor.paperTrader (ExecutorAsync.worker s)
  /\ Executor.localQueue (ExecutorAsync.worker s2)
     = Executor.localQueue (ExecutorAsync.worker s)
  /\ (exists posted,
         Executor.orders (ExecutorAsync.worker s2)
         = (Executor.orders (ExecutorAsync.worker s) ++ posted)%list
         /\ (List.length posted <= List.length due)%nat
         /\ (Forall (eq ExecutorAsync.Returned) calls ->
             (List.length due <= List.length calls)%nat ->
             List.length posted = List.length due)).
Proof.
  intros s2 due.
  set (b := Executor.tradeAggregationBuffer (ExecutorAsync.worker s)) in *.
  set (s1 := step (ExecutorAsync.FlusherTick now) s).
  destruct (flusherTick_takes TRADE_AGGREGATION_ENABLED TRADE_AGGREGATION_WINDOW_SECONDS
              PAPER_TRADING_ENABLED now s Hrun Hidle Hnone Hwf Hfirst)
    as (_ & Hbatch & _ & Hord1 & Hp1 & Hq1 & _).
  fold step s1 b in Hbatch, Hord1, Hp1, Hq1.
  assert (Hs2 : s2 = run (map ExecutorAsync.FlushCall calls) s1) by reflexivity.
  destruct (flushCalls_run TRADE_AGGREGATION_ENABLED TRADE_AGGREGATION_WINDOW_SECONDS
              PAPER_TRADING_ENABLED calls s1) as (Hord2 & _ & Hp2 & Hq2 & _).
  fold run in Hord2, Hp2, Hq2. rewrite <- Hs2 in Hord2, Hp2, Hq2.
  set (batch := filter Executor.meetsMinimum (map snd (filter (elapsed now) b))) in *.
  assert (Hlen : List.length batch = List.length due)
    by (apply filter_map_snd_length).
  split; [now rewrite Hp2|]. split; [now rewrite Hq2|].
  exists (ExecutorAsync.doAggregatedTrading calls batch).
  split; [now rewrite Hord2, Hord1, Hbatch|].
  split; [rewrite <- Hlen; apply batch_at_most|].
  intros Hall Hcalls.
  destruct (batch_all_return calls batch Hall) as [E _]; [lia|].
  rewrite E, doAggregatedTrading_length.
  - exact Hlen.
  - apply Forall_forall. intros a Ha. apply filter_In in Ha. destruct Ha as [Ha _].
    apply in_map_iff in Ha. destruct Ha as [[k x] [Ex Hin]]. cbn [snd] in Ex. subst x.
    apply filter_In in Hin. destruct Hin as [Hin _]. exact (Hfirst _ _ Hin).
Qed.


(** One event on a stopped worker: nothing is taken up, what is in
    flight is carried on. *)
Lemma step_when_stopped (e : ExecutorAsync.Event) (s : ExecutorAsync.State) :
  Executor.isRunning (ExecutorAsync.worker s) = false ->
  let s' := step e s in
  Executor.isRunning (ExecutorAsync.worker s') = false
  /\ Executor.tradeAggregationBuffer (ExecutorAsync.worker s')
     = Executor.tradeAggregationBuffer (ExecutorAsync.worker s)
  /\ Executor.paperTrader (ExecutorAsync.worker s')
     = Executor.paperTrader (ExecutorAsync.worker s)
  /\ Executor.localQueue (ExecutorAsync.worker s')
     = (Executor.localQueue (ExecutorAsync.worker s) ++ ExecutorAsync.arrivals [e])%list
  /\ exists late,
      Executor.orders (ExecutorAsync.worker s')
      = (Executor.orders (ExecutorAsync.worker s) ++ late)%list
      /\ incl late (ExecutorAsync.pendingOrders s)
      /\ incl (ExecutorAsync.pendingOrders s') (ExecutorAsync.pendingOrders s)
      /\ (List.length late + List.length (ExecutorAsync.pendingOrders s')
          <= List.length (ExecutorAsync.pendingOrders s))%nat.
Proof.
  intros Hstop s'. subst s'. unfold step.
  destruct e as [m|now|o|now|o]; cbn [ExecutorAsync.step ExecutorAsync.arrivals flat_map].
  - (* a message *)
    destruct m as [payload|];
      cbn [Executor.onMessage ExecutorAsync.withWorker ExecutorAsync.worker
           Executor.withQueue Executor.stopped Executor.isRunning
           Executor.tradeAggregationBuffer Executor.paperTrader Executor.localQueue
           Executor.orders app];
      rewrite ?app_nil_r;
      (split; [assumption || reflexivity|]); (split; [reflexivity|]);
      (split; [reflexivity|]); (split; [reflexivity|]);
      exists []; rewrite app_nil_r;
      (split; [reflexivity|]); (split; [intros x []|]);
      (split; [apply incl_refl | cbn [List.length Nat.add]; apply Nat.le_refl]).
  - (* a tick *)
    unfold ExecutorAsync.flusherTick. rewrite Hstop. cbn [negb orb]. rewrite app_nil_r.
    repeat (split; [assumption || reflexivity|]).
    exists []. rewrite app_nil_r. split; [reflexivity|]. split; [intros x []|].
    split; [apply incl_refl | simpl; lia].
  - (* the calls of the batch end *)
    rewrite app_nil_r. unfold ExecutorAsync.flushCall, ExecutorAsync.pendingOrders.
    destruct (ExecutorAsync.flushing s) as [|agg rest] eqn:F.
    + rewrite F. repeat (split; [assumption || reflexivity|]).
      exists []. rewrite app_nil_r. split; [reflexivity|]. split; [intros x []|].
      split; [apply incl_refl | simpl; lia].
    + cbn [Executor.doAggregatedTrading].
      destruct (Executor.trades agg) as [|first others] eqn:T.
      * cbn. repeat (split; [assumption || reflexivity|]).
        exists []. rewrite !app_nil_r. split; [reflexivity|]. split; [intros x []|].
        split; [apply incl_refl | cbn [List.length]; lia].
      * set (mine := Executor.aggregatedOrder first agg).
        set (inflight := match ExecutorAsync.trading s with
                         | Some activity => [Executor.immediateOrder activity]
                         | None => []
                         end).
        destruct o.
        -- assert (Hrest : ExecutorAsync.flushing
                             (ExecutorAsync.awaitRecord rest (ExecutorAsync.post mine s))
                           = rest
                           \/ Executor.doAggregatedTrading
                                (ExecutorAsync.flushing
                                   (ExecutorAsync.awaitRecord rest (ExecutorAsync.post mine s)))
                              = [] /\ True).
           { unfold ExecutorAsync.awaitRecord. destruct rest as [|a r]; [now left|].
             destruct (Executor.trades a); [right; now split | now left]. }
           assert (Hfields :
             Executor.isRunning (ExecutorAsync.worker
               (ExecutorAsync.awaitRecord rest (ExecutorAsync.post mine s))) = false
             /\ Executor.tradeAggregationBuffer (ExecutorAsync.worker
                  (ExecutorAsync.awaitRecord rest (ExecutorAsync.post mine s)))
                = Executor.tradeAggregationBuffer (ExecutorAsync.worker s)
             /\ Executor.paperTrader (ExecutorAsync.worker
                  (ExecutorAsync.awaitRecord rest (ExecutorAsync.post mine s)))
                = Executor.paperTrader (ExecutorAsync.worker s)
             /\ Executor.localQueue (ExecutorAsync.worker
                  (ExecutorAsync.awaitRecord rest (ExecutorAsync.post mine s)))
                = Executor.localQueue (ExecutorAsync.worker s)
             /\ Executor.orders (ExecutorAsync.worker
                  (ExecutorAsync.awaitRecord rest (ExecutorAsync.post mine s)))
                = (Executor.orders (ExecutorAsync.worker s) ++ [mine])%list
             /\ ExecutorAsync.trading
                  (ExecutorAsync.awaitRecord rest (ExecutorAsync.post mine s))
                = ExecutorAsync.trading s).
           { unfold ExecutorAsync.awaitRecord. destruct rest as [|a r];
               [|destruct (Executor.trades a)]; cbn; repeat split; assumption. }
           destruct Hfields as (H1 & H2 & H3 & H4 & H5 & H6).
           rewrite H1, H2, H3, H4, H5, H6. fold inflight.
           repeat (split; [reflexivity|]).
           exists [mine]. split; [reflexivity|].
           split; [intros x [<-|[]]; apply in_or_app; right; now left|].
           assert (Hle : incl (Executor.doAggregatedTrading
                                 (ExecutorAsync.flushing
                                    (ExecutorAsync.awaitRecord rest (ExecutorAsync.post mine s))))
                              (Executor.doAggregatedTrading rest)
                         /\ (List.length (Executor.doAggregatedTrading
                                 (ExecutorAsync.flushing
                                    (ExecutorAsync.awaitRecord rest (ExecutorAsync.post mine s))))
                             <= List.length (Executor.doAggregatedTrading rest))%nat).
           { destruct Hrest as [-> | [-> _]]; [split; [apply incl_refl | lia]|].
             split; [intros x [] | simpl; lia]. }
           destruct Hle as [Hincl Hlen].
           split.
           ++ intros x Hx. apply in_app_or in Hx. apply in_or_app.
              destruct Hx as [Hx|Hx]; [now left | right; right; now apply Hincl].
           ++ rewrite !length_app. cbn [List.length]. lia.
        -- cbn. fold inflight. repeat (split; [assumption || reflexivity|]).
           exists []. rewrite !app_nil_r. split; [reflexivity|]. split; [intros x []|].
           split; [intros x Hx; apply in_or_app; now left|].
           rewrite length_app. cbn [List.length]. lia.
        -- cbn. fold inflight. repeat (split; [assumption || reflexivity|]).
           exists [mine]. rewrite !app_nil_r. split; [reflexivity|].
           split; [intros x [<-|[]]; apply in_or_app; right; now left|].
           split; [intros x Hx; apply in_or_app; now left|].
           rewrite length_app. cbn [List.length]. lia.
  - (* the dequeue loop *)
    rewrite app_nil_r. unfold ExecutorAsync.loopTurn. rewrite Hstop. cbn [negb].
    assert (E : match ExecutorAsync.trading s with Some _ => s | None => s end = s)
      by (now destruct (ExecutorAsync.trading s)).
    rewrite E. repeat (split; [assumption || reflexivity|]).
    exists []. rewrite app_nil_r. split; [reflexivity|]. split; [intros x []|].
    split; [apply incl_refl | simpl; lia].
  - (* the calls of [doTrading] end *)
    rewrite app_nil_r. unfold ExecutorAsync.tradeCall, ExecutorAsync.pendingOrders.
    destruct (ExecutorAsync.trading s) as [activity|] eqn:Tr.
    + destruct o; cbn; rewrite ?Tr.
      * repeat (split; [assumption || reflexivity|]).
        exists [Executor.immediateOrder activity]. split; [reflexivity|].
        split; [intros x [<-|[]]; now left|].
        split; [intros x Hx; now right | simpl; lia].
      * repeat (split; [assumption || reflexivity|]).
        exists []. rewrite app_nil_r. split; [reflexivity|]. split; [intros x []|].
        split; [intros x Hx; now right | simpl; lia].
      * repeat (split; [assumption || reflexivity|]).
        exists [Executor.immediateOrder activity]. split; [reflexivity|].
        split; [intros x [<-|[]]; now left|].
        split; [intros x Hx; now right | simpl; lia].
    + rewrite Tr. repeat (split; [assumption || reflexivity|]).
      exists []. rewrite app_nil_r. split; [reflexivity|]. split; [intros x []|].
      split; [apply incl_refl | simpl; lia].
Qed.

Lemma arrivals_cons (e : ExecutorAsync.Event) (events : list ExecutorAsync.Event) :
  ExecutorAsync.arrivals (e :: events)
  = (ExecutorAsync.arrivals [e] ++ ExecutorAsync.arrivals events)%list.
Proof. unfold ExecutorAsync.arrivals. cbn [flat_map]. now rewrite app_nil_r. Qed.

Lemma run_when_stopped (events : list ExecutorAsync.Event) :
  forall s : ExecutorAsync.State,
    Executor.isRunning (ExecutorAsync.worker s) = false ->
    let s' := run events s in
    Executor.isRunning (ExecutorAsync.worker s') = false
    /\ Executor.tradeAggregationBuffer (ExecutorAsync.worker s')
       = Executor.tradeAggregationBuffer (ExecutorAsync.worker s)
    /\ Executor.paperTrader (ExecutorAsync.worker s')
       = Executor.paperTrader (ExecutorAsync.worker s)
    /\ Executor.localQueue (ExecutorAsync.worker s')
       = (Executor.localQueue (ExecutorAsync.worker s)
          ++ ExecutorAsync.arrivals events)%list
    /\ exists late,
        Executor.orders (ExecutorAsync.worker s')
        = (Executor.orders (ExecutorAsync.worker s) ++ late)%list
        /\ incl late (ExecutorAsync.pendingOrders s)
        /\ (List.length late <= List.length (ExecutorAsync.pendingOrders s))%nat.
Proof.
  unfold run.
  induction events as [|e events IH]; intros s Hstop; cbn zeta.
  - cbn. rewrite app_nil_r. repeat (split; [assumption || reflexivity|]).
    exists []. rewrite app_nil_r. split; [reflexivity|]. split; [intros x [] | simpl; lia].
  - cbn [ExecutorAsync.run fold_left].
    fold (ExecutorAsync.run TRADE_AGGREGATION_ENABLED TRADE_AGGREGATION_WINDOW_SECONDS
            PAPER_TRADING_ENABLED events
            (ExecutorAsync.step TRADE_AGGREGATION_ENABLED TRADE_AGGREGATION_WINDOW_SECONDS
               PAPER_TRADING_ENABLED e s)).
    fold (step e s).
    destruct (step_when_stopped e s Hstop)
      as (H1 & H2 & H3 & H4 & late1 & Ho1 & Hin1 & Hpend & Hlen1).
    destruct (IH (step e s) H1) as (K1 & K2 & K3 & K4 & late2 & Ho2 & Hin2 & Hlen2).
    rewrite arrivals_cons.
    rewrite K1, K2, K3, K4, H2, H3, H4, Ho2, Ho1, <- !app_assoc.
    repeat (split; [reflexivity|]).
    exists (late1 ++ late2)%list. split; [reflexivity|].
    split.
    + intros x Hx. apply in_app_or in Hx. destruct Hx as [Hx|Hx];
        [now apply Hin1 | now apply Hpend, Hin2].
    + rewrite length_app. lia.
Qed.

(** X19. Once the worker has handled a [shutdown] message it stays
    stopped, whatever happens next: a flusher tick or a turn of the
    dequeue loop changes nothing, so no record leaves the buffer and no
    activity leaves the local queue any more; activities that still
    arrive are appended to the queue, where they stay. The calls in flight
    at the time are not cancelled: the orders posted afterwards are among
    those of the batch the flusher was handling and of the trade the
    dequeue loop was awaiting, each at most once, and none at all when
    nothing was in flight. *)
Theorem shutdown_stops_the_worker
  (events : list ExecutorAsync.Event) (s : ExecutorAsync.State) :
  let s0 := step (ExecutorAsync.Message Distributor.MsgShutdown) s in
  let s' := run events s0 in
  Executor.isRunning (ExecutorAsync.worker s') = false
  /\ (forall now, step (ExecutorAsync.FlusherTick now) s' = s'
                  /\ step (ExecutorAsync.LoopTurn now) s' = s')
  /\ Executor.tradeAggregationBuffer (ExecutorAsync.worker s')
     = Executor.tradeAggregationBuffer (ExecutorAsync.worker s)
  /\ Executor.paperTrader (ExecutorAsync.worker s')
     = Executor.paperTrader (ExecutorAsync.worker s)
  /\ Executor.localQueue (ExecutorAsync.worker s')
     = (Executor.localQueue (ExecutorAsync.worker s)
        ++ ExecutorAsync.arrivals events)%list
  /\ exists late,
      Executor.orders (ExecutorAsync.worker s')
      = (Executor.orders (ExecutorAsync.worker s) ++ late)%list
      /\ incl late (ExecutorAsync.pendingOrders s)
      /\ (List.length late <= List.length (ExecutorAsync.pendingOrders s))%nat
      /\ (ExecutorAsync.flushing s = [] -> ExecutorAsync.trading s = None -> late = []).
Proof.
  intros s0 s'.
  assert (Hstop : Executor.isRunning (ExecutorAsync.worker s0) = false) by reflexivity.
  destruct (run_when_stopped events s0 Hstop)
    as (H1 & H2 & H3 & H4 & late & Ho & Hin & Hlen).
  fold s' in H1, H2, H3, H4, Ho.
  split; [exact H1|]. split.
  { intros now. unfold step. cbn [ExecutorAsync.step].
    unfold ExecutorAsync.flusherTick, ExecutorAsync.loopTurn. rewrite H1.
    cbn [negb orb]. split; [reflexivity | now destruct (ExecutorAsync.trading s')]. }
  split; [exact H2|]. split; [exact H3|]. split; [exact H4|].
  exists late. split; [exact Ho|]. split; [exact Hin|]. split; [exact Hlen|].
  intros F T. change (ExecutorAsync.pendingOrders s0) with (ExecutorAsync.pendingOrders s) in Hlen.
  unfold ExecutorAsync.pendingOrders in Hlen. rewrite F, T in Hlen. simpl in Hlen.
  destruct late; [reflexivity | simpl in Hlen; lia].
Qed.
End WorkerEvents.

(** ** The one-step functions are runs of events *)

Section AtomicRuns.
Variable TRADE_AGGREGATION_ENABLED : bool.
Variable TRADE_AGGREGATION_WINDOW_SECONDS : Z.
Variable PAPER_TRADING_ENABLED : bool.

Let step :=
  ExecutorAsync.step TRADE_AGGREGATION_ENABLED TRADE_AGGREGATION_WINDOW_SECONDS
    PAPER_TRADING_ENABLED.
Let run :=
  ExecutorAsync.run TRADE_AGGREGATION_ENABLED TRADE_AGGREGATION_WINDOW_SECONDS
    PAPER_TRADING_ENABLED.

(** A batch whose calls all return ends with the flag cleared. *)
Lemma batch_completes (calls : list ExecutorAsync.CallOutcome) :
  Forall (eq ExecutorAsync.Returned) calls ->
  forall s : ExecutorAsync.State,
    (List.length (ExecutorAsync.flushing s) <= List.length calls)%nat ->
    (ExecutorAsync.flushing s = [] ->
     Executor.aggregationFlushInProgress (ExecutorAsync.worker s) = false) ->
    let s' := run (map ExecutorAsync.FlushCall calls) s in
    ExecutorAsync.flushing s' = []
    /\ Executor.aggregationFlushInProgress (ExecutorAsync.worker s') = false.
Proof.
  unfold run.
  induction 1 as [|o calls <- _ IH]; intros s Hlen Hflag; cbn zeta.
  - cbn. destruct (ExecutorAsync.flushing s) eqn:F; [auto | simpl in Hlen; lia].
  - cbn [map ExecutorAsync.run fold_left ExecutorAsync.step].
    fold (ExecutorAsync.run TRADE_AGGREGATION_ENABLED TRADE_AGGREGATION_WINDOW_SECONDS
            PAPER_TRADING_ENABLED (map ExecutorAsync.FlushCall calls)
            (ExecutorAsync.flushCall ExecutorAsync.Returned s)).
    apply IH; unfold ExecutorAsync.flushCall;
      destruct (ExecutorAsync.flushing s) as [|agg rest] eqn:F.
    + rewrite F. simpl. lia.
    + destruct (Executor.trades agg); [simpl; lia|].
      unfold ExecutorAsync.awaitRecord. destruct rest as [|a r]; [simpl; lia|].
      destruct (Executor.trades a); simpl in *; lia.
    + intros _. now apply Hflag.
    + destruct (Executor.trades agg); [reflexivity|].
      unfold ExecutorAsync.awaitRecord. destruct rest as [|a r]; [reflexivity|].
      destruct (Executor.trades a); [reflexivity | discriminate].
Qed.

(** [Executor.flusherTick] is the tick followed by the calls of its
    batch when each of them returns and nothing else happens in between. *)
Lemma flusherTick_is_the_uninterrupted_run
      (now : Z) (calls : list ExecutorAsync.CallOutcome) (w : Executor.Worker) :
  Executor.isRunning w = true ->
  Executor.aggregationFlushInProgress w = false ->
  JsMap.wf (Executor.tradeAggregationBuffer w) ->
  (forall k a, In (k, a) (Executor.tradeAggregationBuffer w) -> Executor.trades a <> []) ->
  Forall (eq ExecutorAsync.Returned) calls ->
  (List.length (fst (Executor.getReadyAggregatedTrades TRADE_AGGREGATION_WINDOW_SECONDS
                       now (Executor.tradeAggregationBuffer w)))
   <= List.length calls)%nat ->
  run (ExecutorAsync.FlusherTick now :: map ExecutorAsync.FlushCall calls)
    (ExecutorAsync.idle w)
  = ExecutorAsync.idle (Executor.flusherTick TRADE_AGGREGATION_WINDOW_SECONDS now w).
Proof.
  intros Hrun Hidle Hwf Hne Hall Hlen.
  set (s := ExecutorAsync.idle w).
  set (s1 := step (ExecutorAsync.FlusherTick now) s).
  change (run (ExecutorAsync.FlusherTick now :: map ExecutorAsync.FlushCall calls) s)
    with (run (map ExecutorAsync.FlushCall calls) s1).
  destruct (flusherTick_takes TRADE_AGGREGATION_ENABLED TRADE_AGGREGATION_WINDOW_SECONDS
              PAPER_TRADING_ENABLED now s Hrun Hidle eq_refl Hwf Hne)
    as (Hb1 & Hf1 & Hg1 & Ho1 & Hp1 & Hq1 & Hr1 & Ht1).
  fold step s1 in Hb1, Hf1, Hg1, Ho1, Hp1, Hq1, Hr1, Ht1.
  rewrite (getReady_spec _ now _ Hwf) in Hlen. cbn [fst] in Hlen.
  destruct (flushCalls_run TRADE_AGGREGATION_ENABLED TRADE_AGGREGATION_WINDOW_SECONDS
              PAPER_TRADING_ENABLED calls s1) as (Ho2 & Hb2 & Hp2 & Hq2 & Hr2 & Ht2).
  destruct (batch_completes calls Hall s1) as [Hf2 Hg2].
  { rewrite Hf1. exact Hlen. }
  { intros E. rewrite Hg1, <- Hf1, E. reflexivity. }
  fold run in Ho2, Hb2, Hp2, Hq2, Hr2, Ht2.
  set (s2 := run (map ExecutorAsync.FlushCall calls) s1) in *.
  assert (Hbatch : ExecutorAsync.doAggregatedTrading calls (ExecutorAsync.flushing s1)
                   = Executor.doAggregatedTrading (ExecutorAsync.flushing s1)).
  { apply (batch_all_return calls _ Hall). rewrite Hf1. exact Hlen. }
  rewrite (tick_running TRADE_AGGREGATION_WINDOW_SECONDS now w Hrun Hidle Hwf).
  destruct s2 as [[q2 b2 p2 r2 g2 o2] f2 t2].
  cbn [ExecutorAsync.worker ExecutorAsync.flushing ExecutorAsync.trading
       Executor.localQueue Executor.tradeAggregationBuffer Executor.paperTrader
       Executor.isRunning Executor.aggregationFlushInProgress Executor.orders] in *.
  subst. unfold ExecutorAsync.idle, Executor.withOrders, Executor.withBuffer.
  cbn [Executor.localQueue Executor.tradeAggregationBuffer Executor.paperTrader
       Executor.isRunning Executor.aggregationFlushInProgress Executor.orders].
  rewrite Hbatch, Hf1, Ho1, Hb1, Hp1, Hq1, Hr1, Ht1, Hrun, Hidle. reflexivity.
Qed.

(** [Executor.dequeueTurn] is a turn of the loop followed by the calls of
    its trade when they return and nothing else happens in between. *)
Lemma dequeueTurn_is_the_uninterrupted_run (now : Z) (w : Executor.Worker) :
  Executor.isRunning w = true ->
  run [ExecutorAsync.LoopTurn now; ExecutorAsync.TradeCall ExecutorAsync.Returned]
    (ExecutorAsync.idle w)
  = ExecutorAsync.idle
      (snd (Executor.dequeueTurn TRADE_AGGREGATION_ENABLED PAPER_TRADING_ENABLED now w)).
Proof.
  intros Hrun. unfold run, ExecutorAsync.run.
  cbn [fold_left ExecutorAsync.step].
  unfold ExecutorAsync.loopTurn, Executor.dequeueTurn.
  cbn [ExecutorAsync.idle ExecutorAsync.trading ExecutorAsync.worker].
  rewrite Hrun. cbn [negb].
  destruct (Executor.localQueue w) as [|activity rest]; [reflexivity|].
  destruct (Executor.aggregationCandidate TRADE_AGGREGATION_ENABLED activity);
    [reflexivity|].
  cbn [Executor.doTrading snd].
  destruct (if PAPER_TRADING_ENABLED
            then Executor.paperTrader (Executor.withQueue rest w) else None) as [pt|].
  - destruct (Paper.executeTrade activity pt) as [executed pt']. reflexivity.
  - reflexivity.
Qed.
End AtomicRuns.

Lemma flusher_posts_orders_in_any_mode_witness :
  let t := sample_trade "BUY" "cond-1" 4 2 (1 # 2) in
  let b := Executor.addToAggregationBuffer t 0 JsMap.empty in
  let s := ExecutorAsync.idle (Executor.withBuffer b (Executor.initial true 100)) in
  let s2 := ExecutorAsync.run true 2 true
              [ExecutorAsync.FlusherTick 2000;
               ExecutorAsync.FlushCall ExecutorAsync.Returned] s in
  Executor.paperTrader (ExecutorAsync.worker s2)
  = Executor.paperTrader (ExecutorAsync.worker s).
Proof.
  intros t b s.
  refine (proj1 (flusher_posts_orders_in_any_mode true 2 true 2000
                   [ExecutorAsync.Returned] s eq_refl eq_refl eq_refl _ _)).
  - unfold JsMap.wf. simpl. constructor; [simpl; tauto | constructor].
  - intros k a [E|[]]. injection E as _ <-. discriminate.
Defined.

(** ** The asynchronous activity queue *)

Section AsyncQueueFacts.
Context {T : Type}.
Implicit Types (st : AsyncQueue.State T) (x : T).

Lemma enqueue_open st x :
  AsyncQueue.closed st = false -> AsyncQueue.waiters st = [] ->
  AsyncQueue.enqueue x st = AsyncQueue.withItems (AsyncQueue.queue st ++ [x]) st.
Proof. intros Hc Hw. unfold AsyncQueue.enqueue. now rewrite Hc, Hw. Qed.

Lemma enqueueAll_open (xs : list T) :
  forall st,
    AsyncQueue.closed st = false -> AsyncQueue.waiters st = [] ->
    AsyncQueue.enqueueAll xs st
    = AsyncQueue.withItems (AsyncQueue.queue st ++ xs) st.
Proof.
  induction xs as [|x xs IH]; intros st Hc Hw.
  - cbn. rewrite app_nil_r. now destruct st.
  - cbn [AsyncQueue.enqueueAll fold_left].
    fold (AsyncQueue.enqueueAll xs (AsyncQueue.enqueue x st)).
    rewrite (enqueue_open st x Hc Hw), IH by assumption.
    cbn [AsyncQueue.queue AsyncQueue.withItems]. now rewrite <- app_assoc.
Qed.

Lemma dequeueMany_ready (options : option AsyncQueue.DequeueOptions) (q : list T) :
  forall st,
    AsyncQueue.queue st = q ->
    AsyncQueue.dequeueMany (List.length q) options st
    = (map (fun x => AsyncQueue.Ready (Some x)) q, AsyncQueue.withItems [] st).
Proof.
  induction q as [|x q IH]; intros st Hq.
  - cbn. destruct st. cbn in Hq. now subst.
  - cbn [List.length AsyncQueue.dequeueMany]. unfold AsyncQueue.dequeue. rewrite Hq.
    rewrite (IH (AsyncQueue.withItems q st) eq_refl). reflexivity.
Qed.

(** X21. An open queue nobody is waiting on is first in, first out:
    items enqueued are appended behind those already queued, no promise is
    resolved, and as many [dequeue] calls as there are items return them
    at once in that order and leave the queue empty. *)
Theorem queue_is_fifo (xs : list T) (options : option AsyncQueue.DequeueOptions)
  (st : AsyncQueue.State T)
  (Hopen : AsyncQueue.closed st = false)
  (Hnobody : AsyncQueue.waiters st = []) :
  let st1 := AsyncQueue.enqueueAll xs st in
  let items := (AsyncQueue.queue st ++ xs)%list in
  AsyncQueue.queue st1 = items
  /\ AsyncQueue.resolutions st1 = AsyncQueue.resolutions st
  /\ fst (AsyncQueue.dequeueMany (List.length items) options st1)
     = map (fun x => AsyncQueue.Ready (Some x)) items
  /\ AsyncQueue.queue (snd (AsyncQueue.dequeueMany (List.length items) options st1)) = [].
Proof.
  intros st1 items. subst st1 items.
  rewrite (enqueueAll_open xs st Hopen Hnobody).
  rewrite (dequeueMany_ready options (AsyncQueue.queue st ++ xs)) by reflexivity.
  repeat split.
Qed.

Lemma mem_true_iff (w : nat) (l : list nat) : AsyncQueue.mem w l = true <-> In w l.
Proof.
  unfold AsyncQueue.mem. rewrite existsb_exists. split.
  - intros [y [Hy E]]. apply Nat.eqb_eq in E. now subst.
  - intros H. exists w. split; [exact H | apply Nat.eqb_refl].
Qed.

Lemma mem_false_iff (w : nat) (l : list nat) : AsyncQueue.mem w l = false <-> ~ In w l.
Proof.
  rewrite <- mem_true_iff. destruct (AsyncQueue.mem w l); split; congruence.
Qed.

(** X22. An item enqueued while the longest-waiting [dequeue] has
    already timed out is lost: the timed-out waiter is still first in the
    waiter list, [enqueue] hands the item to it, and its [settle] does
    nothing. The item is neither queued nor delivered, and the next
    [dequeue] finds the queue empty and waits. *)
Theorem item_enqueued_after_timeout_is_lost
  (options : option AsyncQueue.DequeueOptions) (x : T) (st : AsyncQueue.State T)
  (Hopen : AsyncQueue.closed st = false)
  (Hempty : AsyncQueue.queue st = [])
  (Hnobody : AsyncQueue.waiters st = [])
  (Hfresh : ~ In (AsyncQueue.nextWaiter st) (AsyncQueue.settledWaiters st))
  (Htimer : 0 < AsyncQueue.timeoutOf options) :
  let w := AsyncQueue.nextWaiter st in
  let st1 := snd (AsyncQueue.dequeue options st) in
  let st2 := AsyncQueue.timeoutFires w st1 in
  let st3 := AsyncQueue.enqueue x st2 in
  fst (AsyncQueue.dequeue options st) = AsyncQueue.Pending w
  /\ AsyncQueue.resolutions st2 = (AsyncQueue.resolutions st ++ [(w, None)])%list
  /\ AsyncQueue.waiters st2 = [w]
  /\ AsyncQueue.queue st3 = []
  /\ AsyncQueue.waiters st3 = []
  /\ AsyncQueue.resolutions st3 = AsyncQueue.resolutions st2
  /\ fst (AsyncQueue.dequeue options st3) = AsyncQueue.Pending (S w).
Proof.
  intros w st1 st2 st3.
  assert (E1 : AsyncQueue.dequeue options st
               = (AsyncQueue.Pending w,
                  {| AsyncQueue.queue := [];
                     AsyncQueue.waiters := [w];
                     AsyncQueue.closed := false;
                     AsyncQueue.settledWaiters := AsyncQueue.settledWaiters st;
                     AsyncQueue.timers := w :: AsyncQueue.timers st;
                     AsyncQueue.abortListeners :=
                       if match options with
                          | Some o => AsyncQueue.signal o
                          | None => false
                          end
                       then w :: AsyncQueue.abortListeners st
                       else AsyncQueue.abortListeners st;
                     AsyncQueue.resolutions := AsyncQueue.resolutions st;
                     AsyncQueue.nextWaiter := S w |})).
  { unfold AsyncQueue.dequeue. rewrite Hempty, Hopen, Hnobody.
    apply Z.ltb_lt in Htimer. rewrite Htimer. reflexivity. }
  subst st3 st2 st1. rewrite E1. cbn [fst snd].
  match goal with |- context [AsyncQueue.timeoutFires w ?s] => set (s1 := s) end.
  assert (E2 : AsyncQueue.timeoutFires w s1
               = {| AsyncQueue.queue := [];
                    AsyncQueue.waiters := [w];
                    AsyncQueue.closed := false;
                    AsyncQueue.settledWaiters := w :: AsyncQueue.settledWaiters st;
                    AsyncQueue.timers := AsyncQueue.without w (AsyncQueue.timers s1);
                    AsyncQueue.abortListeners :=
                      AsyncQueue.without w (AsyncQueue.abortListeners s1);
                    AsyncQueue.resolutions := (AsyncQueue.resolutions st ++ [(w, None)])%list;
                    AsyncQueue.nextWaiter := S w |}).
  { unfold AsyncQueue.timeoutFires, AsyncQueue.settle.
    rewrite (proj2 (mem_true_iff w (AsyncQueue.timers s1))) by (subst s1; now left).
    rewrite (proj2 (mem_false_iff w (AsyncQueue.settledWaiters s1))) by exact Hfresh.
    reflexivity. }
  rewrite E2.
  match goal with |- context [AsyncQueue.enqueue x ?s] => set (s2 := s) end.
  assert (E3 : AsyncQueue.enqueue x s2 = AsyncQueue.withWaiters [] s2).
  { unfold AsyncQueue.enqueue, AsyncQueue.settle. cbn [AsyncQueue.closed AsyncQueue.waiters s2].
    rewrite (proj2 (mem_true_iff w _)) by (now left). reflexivity. }
  rewrite E3. unfold AsyncQueue.dequeue. cbn. repeat split.
Qed.

Lemma settle_ledger (w : nat) (v : option T) st :
  AsyncQueue.queue (AsyncQueue.settle w v st) = AsyncQueue.queue st
  /\ AsyncQueue.waiters (AsyncQueue.settle w v st) = AsyncQueue.waiters st
  /\ AsyncQueue.closed (AsyncQueue.settle w v st) = AsyncQueue.closed st
  /\ AsyncQueue.nextWaiter (AsyncQueue.settle w v st) = AsyncQueue.nextWaiter st.
Proof.
  unfold AsyncQueue.settle. destruct (AsyncQueue.mem w _); repeat split.
Qed.

Lemma filter_unsettled_cons (w : nat) (settled ws : list nat) :
  ~ In w ws ->
  filter (fun y => negb (AsyncQueue.mem y (w :: settled))) ws
  = filter (fun y => negb (AsyncQueue.mem y settled)) ws.
Proof.
  intros Hnot. apply filter_ext_in. intros y Hy.
  unfold AsyncQueue.mem. cbn [existsb].
  destruct (Nat.eqb_spec y w) as [->|_]; [contradiction | reflexivity].
Qed.

Lemma closeLoop_spec (ws : list nat) :
  forall st,
    NoDup ws ->
    let st' := AsyncQueue.closeLoop ws st in
    AsyncQueue.waiters st' = match ws with [] => AsyncQueue.waiters st | _ :: _ => [] end
    /\ AsyncQueue.queue st' = AsyncQueue.queue st
    /\ AsyncQueue.closed st' = AsyncQueue.closed st
    /\ AsyncQueue.resolutions st'
       = (AsyncQueue.resolutions st
          ++ map (fun w => (w, None))
               (filter (fun w => negb (AsyncQueue.mem w (AsyncQueue.settledWaiters st))) ws))%list.
Proof.
  induction ws as [|w rest IH]; intros st Hnd st'.
  - subst st'. cbn. rewrite app_nil_r. auto.
  - subst st'. cbn [AsyncQueue.closeLoop]. inversion Hnd as [|? ? Hnot Hnd']; subst.
    destruct (IH (AsyncQueue.settle w None (AsyncQueue.withWaiters rest st)) Hnd')
      as (Hw & Hq & Hc & Hr).
    destruct (settle_ledger w None (AsyncQueue.withWaiters rest st)) as (Sq & Sw & Sc & _).
    rewrite Hq, Hc, Hr, Sq, Sc. cbn [AsyncQueue.queue AsyncQueue.closed AsyncQueue.withWaiters].
    split.
    { rewrite Hw, Sw. cbn [AsyncQueue.waiters AsyncQueue.withWaiters]. now destruct rest. }
    split; [reflexivity|]. split; [reflexivity|].
    unfold AsyncQueue.settle. cbn [AsyncQueue.settledWaiters AsyncQueue.withWaiters filter].
    destruct (AsyncQueue.mem w (AsyncQueue.settledWaiters st)) eqn:Hm; cbn [negb].
    + reflexivity.
    + cbn [AsyncQueue.resolutions AsyncQueue.settledWaiters AsyncQueue.withWaiters map].
      rewrite (filter_unsettled_cons w _ rest Hnot). now rewrite <- app_assoc.
Qed.

(** X23. [close] marks the queue closed, resolves every pending waiter
    that had not settled yet with [null], once each and in waiting order,
    and empties the waiter list; it keeps the queued items. Afterwards
    [enqueue] drops what it is given, and [dequeue] still returns the
    items that were queued, in order, before it starts returning [null]. *)
Theorem close_resolves_waiters_and_keeps_items
  (options : option AsyncQueue.DequeueOptions) (st : AsyncQueue.State T)
  (Hwaiters : NoDup (AsyncQueue.waiters st)) :
  let st' := AsyncQueue.close st in
  AsyncQueue.closed st' = true
  /\ AsyncQueue.waiters st' = []
  /\ AsyncQueue.queue st' = AsyncQueue.queue st
  /\ AsyncQueue.resolutions st'
     = (AsyncQueue.resolutions st
        ++ map (fun w => (w, None))
             (filter (fun w => negb (AsyncQueue.mem w (AsyncQueue.settledWaiters st)))
                (AsyncQueue.waiters st)))%list
  /\ (forall x, AsyncQueue.enqueue x st' = st')
  /\ fst (AsyncQueue.dequeueMany (S (List.length (AsyncQueue.queue st))) options st')
     = (map (fun x => AsyncQueue.Ready (Some x)) (AsyncQueue.queue st)
        ++ [AsyncQueue.Ready None])%list.
Proof.
  intros st'. subst st'. unfold AsyncQueue.close.
  match goal with |- context [AsyncQueue.closeLoop _ ?s] => set (st0 := s) end.
  destruct (closeLoop_spec (AsyncQueue.waiters st) st0 Hwaiters) as (Hw & Hq & Hc & Hr).
  set (st' := AsyncQueue.closeLoop (AsyncQueue.waiters st) st0) in *.
  cbn [AsyncQueue.queue AsyncQueue.closed AsyncQueue.waiters AsyncQueue.resolutions
       AsyncQueue.settledWaiters st0] in Hw, Hq, Hc, Hr.
  split; [exact Hc|].
  split; [rewrite Hw; now destruct (AsyncQueue.waiters st)|].
  split; [exact Hq|]. split; [exact Hr|]. split.
  - intros x. unfold AsyncQueue.enqueue. now rewrite Hc.
  - replace (S (List.length (AsyncQueue.queue st)))
      with (List.length (AsyncQueue.queue st) + 1)%nat by lia.
    assert (Hsplit : forall n m (s : AsyncQueue.State T),
               fst (AsyncQueue.dequeueMany (n + m) options s)
               = (fst (AsyncQueue.dequeueMany n options s)
                  ++ fst (AsyncQueue.dequeueMany m options
                            (snd (AsyncQueue.dequeueMany n options s))))%list).
    { induction n as [|n IHn]; intros m s; [reflexivity|].
      cbn [Nat.add AsyncQueue.dequeueMany].
      destruct (AsyncQueue.dequeue options s) as [d s1].
      specialize (IHn m s1).
      destruct (AsyncQueue.dequeueMany (n + m) options s1) as [ds s2].
      destruct (AsyncQueue.dequeueMany n options s1) as [ds' s2'].
      cbn [fst snd] in *. now rewrite IHn. }
    rewrite Hsplit, (dequeueMany_ready options (AsyncQueue.queue st) st' Hq).
    cbn [fst snd AsyncQueue.dequeueMany]. unfold AsyncQueue.dequeue.
    cbn [AsyncQueue.queue AsyncQueue.withItems AsyncQueue.closed]. rewrite Hc.
    reflexivity.
Qed.

Lemma settle_at_most_once (w : nat) (v : option T) st :
  (forall y, In y (map fst (AsyncQueue.resolutions st)) ->
             In y (AsyncQueue.settledWaiters st)) ->
  NoDup (map fst (AsyncQueue.resolutions st)) ->
  (forall y, In y (map fst (AsyncQueue.resolutions (AsyncQueue.settle w v st))) ->
             In y (AsyncQueue.settledWaiters (AsyncQueue.settle w v st)))
  /\ NoDup (map fst (AsyncQueue.resolutions (AsyncQueue.settle w v st))).
Proof.
  intros Hsub Hnd. unfold AsyncQueue.settle.
  destruct (AsyncQueue.mem w (AsyncQueue.settledWaiters st)) eqn:Hm; [auto|].
  apply mem_false_iff in Hm.
  cbn [AsyncQueue.resolutions AsyncQueue.settledWaiters]. rewrite map_app. cbn [map fst].
  split.
  - intros y Hy. apply in_app_or in Hy. destruct Hy as [Hy|[<-|[]]]; [|now left].
    right. now apply Hsub.
  - apply NoDup_app; [exact Hnd | constructor; [simpl; tauto | constructor] |].
    intros y Hy [<-|[]]. apply Hm. now apply Hsub.
Qed.

Lemma closeLoop_at_most_once (ws : list nat) :
  forall st,
    (forall y, In y (map fst (AsyncQueue.resolutions st)) ->
               In y (AsyncQueue.settledWaiters st)) ->
    NoDup (map fst (AsyncQueue.resolutions st)) ->
    (forall y, In y (map fst (AsyncQueue.resolutions (AsyncQueue.closeLoop ws st))) ->
               In y (AsyncQueue.settledWaiters (AsyncQueue.closeLoop ws st)))
    /\ NoDup (map fst (AsyncQueue.resolutions (AsyncQueue.closeLoop ws st))).
Proof.
  induction ws as [|w rest IH]; intros st Hsub Hnd; [auto|].
  cbn [AsyncQueue.closeLoop].
  destruct (settle_at_most_once w None (AsyncQueue.withWaiters rest st) Hsub Hnd).
  now apply IH.
Qed.

(** X24. No promise handed out by [dequeue] is ever resolved twice:
    whatever the sequence of [enqueue], [dequeue], [close], timeouts and
    aborts, each waiter appears at most once among the resolutions. *)
Theorem waiter_is_resolved_at_most_once (ops : list (AsyncQueue.Op T)) :
  NoDup (map fst (AsyncQueue.resolutions (AsyncQueue.run ops AsyncQueue.empty))).
Proof.
  assert (Hgen : forall st : AsyncQueue.State T,
             (forall y, In y (map fst (AsyncQueue.resolutions st)) ->
                        In y (AsyncQueue.settledWaiters st)) ->
             NoDup (map fst (AsyncQueue.resolutions st)) ->
             NoDup (map fst (AsyncQueue.resolutions (AsyncQueue.run ops st)))).
  { induction ops as [|op rest IH]; intros st Hsub Hnd; [exact Hnd|].
    cbn [AsyncQueue.run fold_left]. fold (AsyncQueue.run rest (AsyncQueue.step op st)).
    assert (Hstep : (forall y, In y (map fst (AsyncQueue.resolutions (AsyncQueue.step op st))) ->
                               In y (AsyncQueue.settledWaiters (AsyncQueue.step op st)))
                    /\ NoDup (map fst (AsyncQueue.resolutions (AsyncQueue.step op st)))).
    { destruct op as [x|options|w|w|]; cbn [AsyncQueue.step].
      - unfold AsyncQueue.enqueue. destruct (AsyncQueue.closed st); [auto|].
        destruct (AsyncQueue.waiters st) as [|w ws]; [auto|].
        exact (settle_at_most_once w (Some x) (AsyncQueue.withWaiters ws st) Hsub Hnd).
      - unfold AsyncQueue.dequeue. destruct (AsyncQueue.queue st); [|auto].
        destruct (AsyncQueue.closed st); auto.
      - unfold AsyncQueue.timeoutFires. destruct (AsyncQueue.mem w _); [|auto].
        now apply settle_at_most_once.
      - unfold AsyncQueue.abortFires. destruct (AsyncQueue.mem w _); [|auto].
        now apply settle_at_most_once.
      - unfold AsyncQueue.close. now apply closeLoop_at_most_once. }
    destruct Hstep. now apply IH. }
  apply Hgen; [intros y [] | constructor].
Qed.
End AsyncQueueFacts.

Lemma queue_is_fifo_witness :
  fst (AsyncQueue.dequeueMany 3 None (AsyncQueue.enqueueAll [1; 2; 3]%nat AsyncQueue.empty))
  = [AsyncQueue.Ready (Some 1%nat); AsyncQueue.Ready (Some 2%nat); AsyncQueue.Ready (Some 3%nat)].
Proof.
  exact (proj1 (proj2 (proj2
    (queue_is_fifo [1; 2; 3]%nat None AsyncQueue.empty eq_refl eq_refl)))).
Defined.

Lemma item_enqueued_after_timeout_is_lost_witness :
  let st1 := snd (AsyncQueue.dequeue None (@AsyncQueue.empty nat)) in
  let st3 := AsyncQueue.enqueue 7%nat (AsyncQueue.timeoutFires 0 st1) in
  AsyncQueue.queue st3 = [] /\ AsyncQueue.waiters st3 = [].
Proof.
  destruct (item_enqueued_after_timeout_is_lost None 7%nat AsyncQueue.empty
              eq_refl eq_refl eq_refl (fun H : False => H) eq_refl)
    as (_ & _ & _ & Hq & Hw & _).
  split; [exact Hq | exact Hw].
Defined.

Lemma close_resolves_waiters_and_keeps_items_witness :
  let st := snd (AsyncQueue.dequeue None (@AsyncQueue.empty nat)) in
  AsyncQueue.resolutions (AsyncQueue.close st) = [(0%nat, None)].
Proof.
  intros st.
  refine (proj1 (proj2 (proj2 (proj2
    (close_resolves_waiters_and_keeps_items None st _))))).
  constructor; [simpl; tauto | constructor].
Defined.

(** ** Fairness of the round robin *)

Section Fairness.

Lemma rotation_by_index {A : Type} (l : list A) (d : A) (r : nat) :
  l <> [] ->
  map (fun i => nth ((r + i) mod List.length l) l d) (seq 0 (List.length l))
  = (skipn (r mod List.length l) l ++ firstn (r mod List.length l) l)%list.
Proof.
  intros Hne.
  set (n := List.length l).
  assert (Hn : n <> 0%nat) by (subst n; destruct l; [contradiction | discriminate]).
  assert (Hr : (r mod n < n)%nat) by (apply Nat.mod_upper_bound; exact Hn).
  set (f := fun i => nth ((r + i) mod n) l d).
  apply (nth_ext _ _ (f 0%nat) d).
  - rewrite length_map, length_seq, length_app, length_skipn, length_firstn.
    fold n. lia.
  - rewrite length_map, length_seq. intros i Hi.
    rewrite (map_nth f), seq_nth by exact Hi. cbn [Nat.add]. unfold f.
    rewrite <- Nat.Div0.add_mod_idemp_l.
    destruct (Nat.lt_ge_cases (r mod n + i) n) as [Hlt|Hge].
    + rewrite Nat.mod_small by exact Hlt.
      rewrite app_nth1 by (rewrite length_skipn; fold n; lia).
      now rewrite nth_skipn.
    + replace (r mod n + i)%nat with ((r mod n + i - n) + 1 * n)%nat by lia.
      rewrite Nat.Div0.mod_add, Nat.mod_small by lia.
      rewrite app_nth2 by (rewrite length_skipn; fold n; lia).
      rewrite length_skipn, nth_firstn. fold n.
      destruct (Nat.ltb_spec (i - (n - r mod n)) (r mod n)); [|lia].
      f_equal. lia.
Qed.

Lemma map_fst_schedule {A B C : Type} (g : nat -> A) (h : B -> C) (acts : list B) :
  map fst (map (fun ia => (g (fst ia), h (snd ia))) (combine (seq 0 (List.length acts)) acts))
  = map g (seq 0 (List.length acts)).
Proof.
  generalize 0%nat. induction acts as [|a acts IH]; intros k; [reflexivity|].
  cbn. f_equal. apply IH.
Qed.

(** X25. Round-robin fairness: with an unchanged registry of [n]
    workers, any [n] activities published in a row go to the [n]
    registered ports once each (the registry rotated by the current
    index). *)
Theorem every_worker_is_served_once_per_round
  (acts : list QueueActivity) (st : Distributor.State)
  (w0 : Distributor.WorkerPort) (ws : list Distributor.WorkerPort)
  (Hports : Distributor.workerPorts st = w0 :: ws)
  (Hround : List.length acts = List.length (w0 :: ws)) :
  exists news,
    Distributor.posted (DistributorRun.publishAll acts st)
    = (Distributor.posted st ++ news)%list
    /\ map snd news = map Distributor.MsgActivity acts
    /\ Permutation (map fst news) (map Distributor.endpoint (w0 :: ws)).
Proof.
  destruct (publishAll_schedule acts st w0 ws Hports) as (Hp & _ & _).
  eexists. split; [exact Hp|]. split.
  - clear. generalize 0%nat. induction acts as [|a acts IH]; intros k; [reflexivity|].
    cbn. f_equal. apply IH.
  - set (ports := w0 :: ws) in *.
    rewrite (map_fst_schedule
               (fun i => Distributor.endpoint
                           (nth ((Distributor.roundRobinIndex st + i) mod List.length ports)
                              ports w0))
               Distributor.MsgActivity).
    rewrite Hround.
    rewrite <- (map_map (fun i => nth ((Distributor.roundRobinIndex st + i)
                                        mod List.length ports) ports w0)
                  Distributor.endpoint).
    apply Permutation_map.
    rewrite rotation_by_index by (subst ports; discriminate).
    rewrite Permutation_app_comm, firstn_skipn. apply Permutation_refl.
Qed.

Lemma every_worker_is_served_once_per_round_witness :
  let q := Monitor.toQueueActivity sample_activity 1762128000000 "0xleader" 1 in
  let st := Distributor.publishActivityToWorkers q
              (Distributor.registerWorkerEndpoint 2 20%nat
                 (Distributor.registerWorkerEndpoint 1 10%nat Distributor.initial)) in
  exists news,
    Distributor.posted (DistributorRun.publishAll [q; q] st)
    = (Distributor.posted st ++ news)%list
    /\ Permutation (map fst news) [10; 20]%nat.
Proof.
  intros q st.
  destruct (every_worker_is_served_once_per_round [q; q] st
              {| Distributor.id := 1; Distributor.endpoint := 10%nat |}
              [{| Distributor.id := 2; Distributor.endpoint := 20%nat |}]
              eq_refl eq_refl) as (news & Hp & _ & Hperm).
  exists news. split; [exact Hp | exact Hperm].
Defined.
End Fairness.

(** ** The history exporter's [chunk] *)

Section ChunkFacts.
Context {T : Type}.

Let wellCut (size : nat) (c : list T) : Prop :=
  c <> [] /\ (List.length c <= size)%nat.

Lemma chunkLoop_ends (array : list T) (size : nat) :
  (1 <= size)%nat ->
  forall turns i result,
    (List.length array - i < turns)%nat ->
    exists tail,
      HistoryExport.chunkLoop turns array size i result = Some (result ++ tail)%list
      /\ List.concat tail = skipn i array
      /\ Forall (wellCut size) tail.
Proof.
  intros Hsize. induction turns as [|turns IH]; intros i result Hturns; [lia|].
  cbn [HistoryExport.chunkLoop].
  destruct (Nat.ltb_spec i (List.length array)) as [Hlt|Hge].
  - destruct (IH (i + size)%nat (result ++ [firstn size (skipn i array)])%list)
      as (tail & Hrun & Hcat & Hall); [lia|].
    exists (firstn size (skipn i array) :: tail). split; [|split].
    + rewrite Hrun, <- app_assoc. reflexivity.
    + cbn [List.concat]. rewrite Hcat.
      rewrite (Nat.add_comm i size), <- (skipn_skipn size i array).
      apply firstn_skipn.
    + constructor; [|exact Hall]. split.
      * intros E. apply (f_equal (@List.length T)) in E.
        rewrite length_firstn, length_skipn in E. simpl in E. lia.
      * rewrite length_firstn. lia.
  - exists []. rewrite app_nil_r, skipn_all2 by exact Hge.
    split; [reflexivity|]. split; [reflexivity | constructor].
Qed.

Lemma chunkLoop_more_turns (array : list T) (size : nat) :
  forall turns i result pieces,
    HistoryExport.chunkLoop turns array size i result = Some pieces ->
    forall turns', (turns <= turns')%nat ->
                   HistoryExport.chunkLoop turns' array size i result = Some pieces.
Proof.
  induction turns as [|turns IH]; intros i result pieces Hrun turns' Hle;
    [discriminate|].
  destruct turns' as [|turns']; [lia|].
  cbn [HistoryExport.chunkLoop] in *.
  destruct (Nat.ltb i (List.length array)); [|exact Hrun].
  apply (IH _ _ _ Hrun). lia.
Qed.

(** With size 0 the index does not advance: below the length once, it is
    below the length at every later test. *)
Lemma chunkLoop_size_zero (array : list T) (i : nat) :
  (i < List.length array)%nat ->
  forall turns result, HistoryExport.chunkLoop turns array 0 i result = None.
Proof.
  intros Hi. induction turns as [|turns IH]; intros result; [reflexivity|].
  cbn [HistoryExport.chunkLoop].
  destruct (Nat.ltb_spec i (List.length array)); [|lia].
  rewrite Nat.add_0_r. apply IH.
Qed.

(** X26. For a size of at least 1, [chunk] returns within
    [array.length + 1] loop tests, and what it returns cuts the array into
    consecutive pieces: put back together they give the array, none is
    empty and none is longer than the size. With size 0 and a non-empty
    array the loop never ends: however many tests it is followed for, it
    has not returned. *)
Theorem chunk_partitions_the_array (array : list T) (size : nat) :
  ((1 <= size)%nat ->
   exists pieces,
     (forall turns, (List.length array < turns)%nat ->
                    HistoryExport.chunk turns array size = Some pieces)
     /\ List.concat pieces = array
     /\ Forall (fun c => c <> [] /\ (List.length c <= size)%nat) pieces)
  /\ (array <> [] ->
      forall turns, HistoryExport.chunk turns array 0 = None).
Proof.
  split.
  - intros Hsize.
    destruct (chunkLoop_ends array size Hsize (S (List.length array)) 0 [])
      as (pieces & Hrun & Hcat & Hall); [lia|].
    exists pieces. split; [|split; [exact Hcat | exact Hall]].
    intros turns Hturns. unfold HistoryExport.chunk.
    apply (chunkLoop_more_turns _ _ _ _ _ _ Hrun). lia.
  - intros Hne turns. apply chunkLoop_size_zero.
    destruct array; [contradiction | simpl; lia].
Qed.
End ChunkFacts.

(** ** The exporter's degree of parallelism *)

Section MaxParallelFacts.
Variable Number : string -> option Q.

(** X27. [MAX_PARALLEL] is a whole number from 0 to 10. It is 0 exactly
    when the variable is set to a number strictly between 0 and 1 (the
    positivity test is made before rounding down), and with that size the
    loop of [chunk] never ends on a non-empty list of addresses. *)
Theorem max_parallel_range_and_zero_case (raw : option string) :
  0 <= HistoryExport.MAX_PARALLEL Number raw <= 10
  /\ (HistoryExport.MAX_PARALLEL Number raw = 0
      <-> exists r v, raw = Some r /\ r <> ""%string /\ Number r = Some v
                      /\ (0 < v)%Q /\ (v < 1)%Q)
  /\ (HistoryExport.MAX_PARALLEL Number raw = 0 ->
      forall (turns : nat) (address : string) (rest : list string),
        HistoryExport.chunk turns (address :: rest)
          (Z.to_nat (HistoryExport.MAX_PARALLEL Number raw)) = None).
Proof.
  assert (Hfloor : forall v, (0 < v)%Q ->
            0 <= Z.min (Qfloor v) 10 <= 10
            /\ (Z.min (Qfloor v) 10 = 0 <-> (v < 1)%Q)).
  { intros v Hv.
    assert (H0 : 0 <= Qfloor v).
    { change 0 with (Qfloor 0). apply Qfloor_resp_le. now apply Qlt_le_weak. }
    split; [lia|]. split.
    - intros E. assert (Ef : Qfloor v = 0) by lia.
      pose proof (Qlt_floor v) as Hlt. rewrite Ef in Hlt. exact Hlt.
    - intros H1.
      assert (Qfloor v < 1); [|lia].
      rewrite Zlt_Qlt. eapply Qle_lt_trans; [apply Qfloor_le | exact H1]. }
  assert (Hmain :
    0 <= HistoryExport.MAX_PARALLEL Number raw <= 10
    /\ (HistoryExport.MAX_PARALLEL Number raw = 0
        <-> exists r v, raw = Some r /\ r <> ""%string /\ Number r = Some v
                        /\ (0 < v)%Q /\ (v < 1)%Q)).
  { unfold HistoryExport.MAX_PARALLEL.
    destruct raw as [r|].
    - unfold truthy. destruct (String.eqb_spec r "") as [Er|Er]; cbn [negb].
      + cbn. split; [lia|]. split; [discriminate|].
        intros (r' & v & E & Hne & _). injection E as <-. contradiction.
      + destruct (Number r) as [v|] eqn:En.
        * destruct (Qltb 0 v) eqn:Hpos.
          -- apply Qltb_true_iff in Hpos. destruct (Hfloor v Hpos) as (Hr & Hz).
             split; [exact Hr|]. split.
             ++ intros E. exists r, v. repeat split; try assumption.
                now apply Hz.
             ++ intros (r' & v' & E & _ & En' & _ & H1).
                injection E as <-. rewrite En in En'. injection En' as <-.
                now apply Hz.
          -- apply Qltb_false_iff in Hpos. split; [lia|]. split; [discriminate|].
             intros (r' & v' & E & _ & En' & H0 & _).
             injection E as <-. rewrite En in En'. injection En' as <-.
             exfalso. exact (Qlt_not_le _ _ H0 Hpos).
        * split; [lia|]. split; [discriminate|].
          intros (r' & v' & E & _ & En' & _). injection E as <-.
          rewrite En in En'. discriminate.
    - cbn. split; [lia|]. split; [discriminate|].
      intros (r' & v & E & _). discriminate. }
  destruct Hmain as (Hr & Hz). split; [exact Hr|]. split; [exact Hz|].
  intros E turns address rest. rewrite E. cbn [Z.to_nat].
  apply chunkLoop_size_zero. simpl. lia.
Qed.
End MaxParallelFacts.
